(** * Physics-driven rapidly exploring random trees: the growth engine

    A shallow embedding of [graphs.py] (class [Graph]) and of
    [inverse_square_law_simple.py] (class [LichtenbergGraph]), and the
    properties of the store, the path enumerator, the expansion selector,
    the proximity test and the reinforcement rule.

    Conventions of the embedding.
    - The store [_graph_dict] is a Python dict: an association list kept in
      insertion order, one entry per key.  Iteration is in list order.
    - A key is an [int] or a [str]; the two never compare equal.
    - The inner per-vertex dict is a record; the entries ["loc"] and
      ["burnt"], which only [LichtenbergGraph] writes, are optional.
    - Python's numbers are kept abstract in a class [Number].  Its
      operations are those the interpreter and [numpy] provide; two of
      them, the dot product behind [numpy.linalg.norm] and the power
      [x ** 1.5], are library routines whose last-place rounding depends
      on the platform, and are operations of the class for that reason.
      There are two instances: IEEE binary64, and the exact rationals, on
      which runs are evaluated only where every root is exact and no
      division by zero occurs.  The laws of the order ([NumberOrder]) are
      stated for the values that are numbers (not NaN); both instances
      satisfy them.
    - An exception is a value of [exn]; a method that can raise returns a
      [result].
    - [random.uniform] reads its values from a tape handed to the model.
    - The nesting of recursive calls is bounded by a [depth]; running out
      of it is the [RecursionError] of the interpreter.
    - [numpy.setdiff1d] turns its two lists into arrays: when a string
      is among the items, every item becomes a string ([str] of an
      integer, a string without its trailing NUL characters).
    - [Graph.add_edge] unpacks a [set] into a pair, in an order the source
      does not fix: the order is an argument of its model.  [__str__],
      which prints sets, is not embedded. *)

From Stdlib Require Import ZArith QArith Floats.
From Stdlib Require Import Ascii DecimalString DecimalNat DecimalZ.
From Stdlib Require Import Lia Lqa.
From stdpp Require Import base decidable option list gmap strings.

(* Decimal literals of binary64 stand for the nearest value, as in Python. *)
Set Warnings "-inexact-float".

(* ===================================================================== *)
(** * Definitions *)
(* ===================================================================== *)

(** ** Numbers *)

(** The arithmetic the two source files use: literals, [+ - * /],
    [numpy.sqrt], the comparisons [<] and [<=], and the test [list.index]
    performs on two numbers ([is], then [==]).  [ndot a b c d] is
    [numpy.dot] of the vectors [(a, b)] and [(c, d)]: the sum [a*c + b*d]
    as the library's routine rounds it.  [npow15 x] is [x ** 1.5]. *)
Class Number (num : Type) : Type := {
  of_Q : Q -> num;
  nadd : num -> num -> num;
  nsub : num -> num -> num;
  nmul : num -> num -> num;
  ndiv : num -> num -> num;
  nsqrt : num -> num;
  ndot : num -> num -> num -> num -> num;
  npow15 : num -> num;
  nltb : num -> num -> bool;
  nleb : num -> num -> bool;
  neqb : num -> num -> bool
}.

Declare Scope num_scope.
Delimit Scope num_scope with num.
Notation "x + y" := (nadd x y) : num_scope.
Notation "x - y" := (nsub x y) : num_scope.
Notation "x * y" := (nmul x y) : num_scope.
Notation "x / y" := (ndiv x y) : num_scope.
Notation "x <? y" := (nltb x y) : num_scope.
Notation "x <=? y" := (nleb x y) : num_scope.
Notation "x >? y" := (nltb y x) (at level 70, only parsing) : num_scope.
Notation "x == y" := (neqb x y) (at level 70) : num_scope.

(** A value is a number when it compares with itself: every rational is,
    and every binary64 value but the NaNs. *)
Definition number {num : Type} `{Number num} (x : num) : Prop :=
  nleb x x = true.

(** The laws of the comparisons: a total order on the numbers, and
    [list.index] finding any object at its own position. *)
Class NumberOrder (num : Type) `{Number num} : Prop := {
  nleb_total : forall a b : num,
    number a -> number b -> nleb a b = true \/ nleb b a = true;
  nleb_trans : forall a b c : num,
    nleb a b = true -> nleb b c = true -> nleb a c = true;
  nltb_nleb : forall a b : num,
    number a -> number b -> nltb a b = negb (nleb b a);
  neqb_nleb : forall a b : num,
    number a -> number b -> neqb a b = nleb a b && nleb b a;
  neqb_refl : forall a : num, neqb a a = true
}.

(** *** Exact rationals *)

(** The square root on the rationals: exact on the square of a rational,
    rounded down to a multiple of [1 / Qden q] elsewhere.  Together with
    [Qdiv], for which [x / 0] is [0], it makes the rationals stand for the
    program only on runs whose roots are exact and whose divisors are not
    [0]; the stores and draws evaluated on the rationals below are of that
    kind. *)
Definition Qsqrt (q : Q) : Q :=
  Qmake (Z.sqrt (Qnum q * Zpos (Qden q))) (Qden q).

Definition Qlt_bool (a b : Q) : bool := negb (Qle_bool b a).

#[global] Instance Q_Number : Number Q := {|
  of_Q := fun q => q;
  nadd := Qplus;
  nsub := Qminus;
  nmul := Qmult;
  ndiv := Qdiv;
  nsqrt := Qsqrt;
  ndot := fun a b c d => (a * c + b * d)%Q;
  npow15 := fun x => (x * Qsqrt x)%Q;
  nltb := Qlt_bool;
  nleb := Qle_bool;
  neqb := Qeq_bool
|}.

(** *** IEEE binary64 *)

Definition float_of_Z (z : Z) : float :=
  match z with
  | Z0 => PrimFloat.zero
  | Zpos _ => PrimFloat.of_uint63 (Uint63.of_Z z)
  | Zneg p => PrimFloat.opp (PrimFloat.of_uint63 (Uint63.of_Z (Zpos p)))
  end.

(** A decimal literal [n / 10^k] is read as the binary64 value nearest to
    it; the correctly rounded quotient of the two integers is that value
    as long as both are below [2^53]. *)
Definition float_of_Q (q : Q) : float :=
  PrimFloat.div (float_of_Z (Qnum q)) (float_of_Z (Zpos (Qden q))).

(** The order of binary64 away from NaN, as the specification of IEEE 754
    has it: by sign class, then by exponent, then by mantissa.  [SFkey]
    is the place of a value in that order, [lex_compare] the comparison
    of two places, the first component first. *)
Definition SFkey (f : spec_float) : Z * Z * Z :=
  match f with
  | S754_zero _ => (0, 0, 0)
  | S754_infinity s => (if s then -2 else 2, 0, 0)
  | S754_nan => (0, 0, 0)
  | S754_finite s m e =>
      if s then (-1, - e, Z.neg m) else (1, e, Z.pos m)
  end%Z.

Definition lex_compare (a b : Z * Z * Z) : comparison :=
  match (a.1.1 ?= b.1.1)%Z with
  | Eq => match (a.1.2 ?= b.1.2)%Z with
          | Eq => (a.2 ?= b.2)%Z
          | c => c
          end
  | c => c
  end.

Definition lex_le (a b : Z * Z * Z) : Prop :=
  (a.1.1 < b.1.1 \/
   (a.1.1 = b.1.1 /\ (a.1.2 < b.1.2 \/ (a.1.2 = b.1.2 /\ a.2 <= b.2))))%Z.

Definition lex_lt (a b : Z * Z * Z) : Prop :=
  (a.1.1 < b.1.1 \/
   (a.1.1 = b.1.1 /\ (a.1.2 < b.1.2 \/ (a.1.2 = b.1.2 /\ a.2 < b.2))))%Z.

(** [list.index] compares with [is] before [==], so that a NaN finds
    itself.  ([max] returns a NaN only when it is the first item, so the
    first NaN of the list is the object that was handed to [index].) *)
Definition float_same (a b : float) : bool :=
  PrimFloat.eqb a b || (PrimFloat.is_nan a && PrimFloat.is_nan b).

(** The two library routines on binary64: each product and the sum
    rounded in turn, and [x * sqrt(x)].  A routine that fuses a product
    with the sum, or the [pow] of the C library, can differ from these in
    the last place; the properties below that are stated for every
    [Number] hold for them too. *)
#[global] Instance float_Number : Number float := {|
  of_Q := float_of_Q;
  nadd := PrimFloat.add;
  nsub := PrimFloat.sub;
  nmul := PrimFloat.mul;
  ndiv := PrimFloat.div;
  nsqrt := PrimFloat.sqrt;
  ndot := fun a b c d => (a * c + b * d)%float;
  npow15 := fun x => (x * PrimFloat.sqrt x)%float;
  nltb := PrimFloat.ltb;
  nleb := PrimFloat.leb;
  neqb := float_same
|}.

(** ** Keys, exceptions, dicts *)

Inductive key : Type :=
| KInt (n : Z)
| KStr (s : string).

#[global] Instance key_eq_dec : EqDecision key.
Proof. solve_decision. Defined.

#[global] Instance key_countable : Countable key.
Proof.
  apply (inj_countable'
    (fun k => match k with KInt n => inl n | KStr s => inr s end)
    (fun x => match x with inl n => KInt n | inr s => KStr s end)).
  by intros [].
Defined.

(** [str(n)] for a length [n]. *)
Definition str_of_nat (n : nat) : string :=
  NilEmpty.string_of_uint (Nat.to_uint n).

(** [str(n)] for an integer key. *)
Definition str_of_Z (n : Z) : string := NilZero.string_of_int (Z.to_int n).

(** A string as an array of strings of [numpy] hands it back: without its
    trailing NUL characters. *)
Fixpoint rstrip_nul (s : string) : string :=
  match s with
  | EmptyString => EmptyString
  | String c s' =>
      match rstrip_nul s' with
      | EmptyString =>
          if Ascii.eqb c "000"%char then EmptyString else String c EmptyString
      | t => String c t
      end
  end.

(** An item of an array of strings built from a list of keys. *)
Definition np_item (k : key) : key :=
  match k with
  | KInt n => KStr (str_of_Z n)
  | KStr s => KStr (rstrip_nul s)
  end.

Definition is_str (k : key) : bool :=
  match k with
  | KStr _ => true
  | KInt _ => false
  end.

(** A key that an array of strings hands back as it is: a string with no
    trailing NUL character. *)
Definition plain_key (k : key) : bool :=
  match k with
  | KInt _ => false
  | KStr s => String.eqb (rstrip_nul s) s
  end.

(** Python's truth value of a key: [0] and the empty string are false. *)
Definition key_truthy (k : key) : bool :=
  match k with
  | KInt n => negb (Z.eqb n 0)
  | KStr EmptyString => false
  | KStr _ => true
  end.

Inductive exn : Type :=
| KeyError
| ValueError
| RecursionError
| TapeExhausted.

Inductive result (A : Type) : Type :=
| Ok (a : A)
| Raise (e : exn).
Arguments Ok {A} a.
Arguments Raise {A} e.

#[global] Instance result_ret : MRet result := fun A a => Ok a.
#[global] Instance result_bind : MBind result := fun A B f m =>
  match m with
  | Ok a => f a
  | Raise e => Raise e
  end.

#[global] Instance result_fmap : FMap result := fun A B f m =>
  match m with
  | Ok a => Ok (f a)
  | Raise e => Raise e
  end.

Definition of_option {A : Type} (e : exn) (o : option A) : result A :=
  match o with
  | Some a => Ok a
  | None => Raise e
  end.

Section dict.
Context {V : Type}.

(** [d[k]], [None] standing for the [KeyError]. *)
Fixpoint dict_get (d : list (key * V)) (k : key) : option V :=
  match d with
  | [] => None
  | (k', v) :: d' => if decide (k = k') then Some v else dict_get d' k
  end.

(** [k in d]. *)
Definition dict_mem (d : list (key * V)) (k : key) : bool :=
  bool_decide (k ∈ d.*1).

(** [d[k] = v]: in place when [k] is a key of [d], as a new last entry
    otherwise. *)
Fixpoint dict_set (d : list (key * V)) (k : key) (v : V) : list (key * V) :=
  match d with
  | [] => [(k, v)]
  | (k', v') :: d' =>
      if decide (k = k') then (k', v) :: d' else (k', v') :: dict_set d' k v
  end.

End dict.

(** ** [graphs.py]: class [Graph] *)

Module Graph.
Section graph.
Context {num : Type} `{Number num}.

(** The inner dict of a vertex.  [Graph] writes ["weight"] and
    ["neighbors"]; ["loc"] and ["burnt"] are absent until
    [LichtenbergGraph] writes them. *)
Record vertex : Type := Vertex {
  weight : num;
  neighbors : list key;
  loc : option (num * num);
  burnt : option num
}.

Definition graph : Type := list (key * vertex).

(** [vertices]. *)
Definition vertices (g : graph) : list key := g.*1.

(** [add_vertex(vertex, neigh=None, w=1)]. *)
Definition add_vertex (g : graph) (vertex : key) (neigh : option (list key))
    (w : num) : graph :=
  let neigh := default [] neigh in
  if negb (dict_mem g vertex)
  then dict_set g vertex
         {| weight := w; neighbors := neigh; loc := None; burnt := None |}
  else g.

(** [set_weight(vertex, weight)]. *)
Definition set_weight (g : graph) (vertex : key) (w : num) : result graph :=
  d ← of_option KeyError (dict_get g vertex);
  mret (dict_set g vertex
          {| weight := w; neighbors := neighbors d;
             loc := loc d; burnt := burnt d |}).

(** [add_edge(edge)].  [set(edge)] keeps the distinct items of [edge], and
    the unpacking into [(vertex1, vertex2)] raises [ValueError] unless
    there are exactly two of them.  The order in which a set of two yields
    its items is not fixed by the source: [swap] stands for it.  (Each
    vertex is taken to own its list of neighbours, so that [append] shows
    in one entry only.) *)
Definition add_edge (g : graph) (edge : list key) (swap : bool)
    : result graph :=
  match remove_dups edge with
  | [a; b] =>
      let '(vertex1, vertex2) := if swap then (b, a) else (a, b) in
      match dict_get g vertex1 with
      | Some d =>
          if negb (bool_decide (vertex2 ∈ neighbors d))
          then mret (dict_set g vertex1
                       {| weight := weight d;
                          neighbors := neighbors d ++ [vertex2];
                          loc := loc d; burnt := burnt d |})
          else mret g
      | None =>
          mret (dict_set g vertex1
                  {| weight := of_Q 1; neighbors := [vertex2];
                     loc := None; burnt := None |})
      end
  | _ => Raise ValueError
  end.

(** [__generate_edges]: the inner loop over the neighbours of one vertex,
    then the outer loop over the store. *)
Definition edges_of_vertex (vertex : key) (edges : list (gset key))
    (ns : list key) : list (gset key) :=
  foldl (fun edges neighbor =>
           if decide (({[neighbor; vertex]} : gset key) ∈ edges)
           then edges
           else edges ++ [{[vertex; neighbor]}])
        edges ns.

Definition generate_edges (g : graph) : list (gset key) :=
  foldl (fun edges entry => edges_of_vertex entry.1 edges (neighbors entry.2))
        [] g.

(** [edges]. *)
Definition edges (g : graph) : list (gset key) := generate_edges g.

(** The [for vertex in graph[start_vertex]["neighbors"]] loop of
    [find_all_paths], the recursive call passed as [rec]. *)
Fixpoint extend_paths (rec : key -> result (list (list key)))
    (path : list key) (ns : list key) (paths : list (list key))
    : result (list (list key)) :=
  match ns with
  | [] => Ok paths
  | vertex :: ns' =>
      if negb (bool_decide (vertex ∈ path))
      then extended_paths ← rec vertex;
           extend_paths rec path ns' (paths ++ extended_paths)
      else extend_paths rec path ns' paths
  end.

(** [find_all_paths(start_vertex, end_vertex, path)], [depth] bounding the
    nesting of the calls. *)
Fixpoint find_all_paths_rec (depth : nat) (g : graph)
    (start_vertex end_vertex : key) (path : list key)
    : result (list (list key)) :=
  match depth with
  | O => Raise RecursionError
  | S depth' =>
      let path := path ++ [start_vertex] in
      if decide (start_vertex = end_vertex) then Ok [path]
      else match dict_get g start_vertex with
           | None => Ok []
           | Some d =>
               extend_paths
                 (fun vertex =>
                    find_all_paths_rec depth' g vertex end_vertex path)
                 path (neighbors d) []
           end
  end.

(** [find_all_paths(start_vertex, end_vertex)]: every call but the
    outermost enters a key of the store that the path does not hold yet,
    so the nesting never exceeds the size of the store plus one. *)
Definition find_all_paths (g : graph) (start_vertex end_vertex : key)
    : result (list (list key)) :=
  find_all_paths_rec (S (length g)) g start_vertex end_vertex [].

(** The builtin [sum] over numbers: it starts from [0] and adds from the
    left. *)
Definition py_sum (l : list num) : num := foldl nadd (of_Q 0) l.

(** The builtin [max]: the running maximum changes only for a strictly
    greater item; [ValueError] on an empty list. *)
Definition py_max (l : list num) : result num :=
  match l with
  | [] => Raise ValueError
  | x :: l' => Ok (foldl (fun m y => if (y >? m)%num then y else m) x l')
  end.

(** [list.index]: the first position holding the value. *)
Fixpoint py_index (l : list num) (x : num) : result nat :=
  match l with
  | [] => Raise ValueError
  | y :: l' => if (y == x)%num then Ok O else S <$> py_index l' x
  end.

(** [sum(graph[vertex]["weight"] for vertex in path)]. *)
Definition path_weight (g : graph) (path : list key) : result num :=
  ws ← mapM (fun vertex => weight <$> of_option KeyError (dict_get g vertex))
            path;
  mret (py_sum ws).

(** [get_path_weights(start_vertex, end_vertex)]. *)
Definition get_path_weights (g : graph) (start_vertex end_vertex : key)
    : result (list num) :=
  paths ← find_all_paths g start_vertex end_vertex;
  mapM (path_weight g) paths.

(** [find_shortest_path(start_vertex, end_vertex)]. *)
Definition find_shortest_path (g : graph) (start_vertex end_vertex : key)
    : result (list key) :=
  paths ← find_all_paths g start_vertex end_vertex;
  path_weights ← get_path_weights g start_vertex end_vertex;
  m ← py_max path_weights;
  i ← py_index path_weights m;
  of_option ValueError (paths !! i).

End graph.
Arguments vertex num : clear implicits.
Arguments graph num : clear implicits.
End Graph.

(** ** [inverse_square_law_simple.py]: class [LichtenbergGraph] *)

Module LichtenbergGraph.
Import Graph.
Section lichtenberg.
Context {num : Type} `{Number num}.

Definition point : Type := (num * num)%type.

(** The class attribute [r], the minimum spatial growth distance. *)
Definition r : num := of_Q 1.

(** [numpy.linalg.norm] of a vector of two components:
    [sqrt(dot(v, v))]. *)
Definition norm (v : point) : num :=
  nsqrt (ndot v.1 v.2 v.1 v.2).

(** Subtraction and addition of two [numpy] arrays of two components. *)
Definition vsub (a b : point) : point := ((a.1 - b.1)%num, (a.2 - b.2)%num).
Definition vadd (a b : point) : point := ((a.1 + b.1)%num, (a.2 + b.2)%num).

(** [graph[vertex]["loc"]]. *)
Definition loc_of (g : graph num) (vertex : key) : result point :=
  d ← of_option KeyError (dict_get g vertex);
  of_option KeyError (loc d).

(** [locations]. *)
Definition locations (g : graph num) : result (list point) :=
  mapM (fun entry : key * vertex num => of_option KeyError (loc entry.2)) g.

(** [min(dists, key=dists.get)]: the running minimum changes only for a
    strictly smaller distance; [ValueError] on an empty dict. *)
Definition py_min_by (dists : list (key * num)) : result key :=
  match dists with
  | [] => Raise ValueError
  | e :: dists' =>
      Ok (foldl (fun m e' => if (e'.2 <? m.2)%num then e' else m) e dists').1
  end.

(** [get_nearest_vertex(new_loc)]. *)
Definition get_nearest_vertex (g : graph num) (new_loc : point)
    : result key :=
  dists ← mapM (fun entry : key * vertex num =>
                  l ← of_option KeyError (loc entry.2);
                  mret (entry.1, norm (vsub l new_loc))) g;
  py_min_by dists.

(** The [for vertex in graph] loop of [is_too_close] over the entries
    [todo] still to visit; [None] is the [False] it returns at the end. *)
Fixpoint is_too_close_loop (g : graph num) (new_loc : point)
    (todo : graph num) : result (option key) :=
  match todo with
  | [] => Ok None
  | (vertex, d) :: todo' =>
      l ← of_option KeyError (loc d);
      if (norm (vsub new_loc l) <? r * of_Q 1.4)%num
      then Some <$> get_nearest_vertex g new_loc
      else is_too_close_loop g new_loc todo'
  end.

(** [is_too_close(new_loc)]. *)
Definition is_too_close (g : graph num) (new_loc : point)
    : result (option key) :=
  is_too_close_loop g new_loc g.

(** Python's truth value of what [is_too_close] returns. *)
Definition truthy (x : option key) : bool :=
  match x with
  | None => false
  | Some k => key_truthy k
  end.

(** [add_vertex(vertex, neigh=None, pos=None, w=1)]: the call of the
    parent's method, then the two unconditional assignments to
    [self._graph_dict[vertex]], which the first step made sure exists. *)
Definition add_vertex (g : graph num) (vertex : key)
    (neigh : option (list key)) (pos : option point) (w : num)
    : graph num :=
  let g := Graph.add_vertex g vertex neigh w in
  match dict_get g vertex with
  | None => g
  | Some d =>
      let g := dict_set g vertex
                 {| weight := weight d; neighbors := neighbors d;
                    loc := loc d; burnt := Some (of_Q 0) |} in
      let pos := default (of_Q 0, of_Q 0) pos in
      dict_set g vertex
        {| weight := weight d; neighbors := neighbors d;
           loc := Some pos; burnt := Some (of_Q 0) |}
  end.

(** [force(vertex1, vertex2)]; [x ** 2] is [x * x], and the coordinates
    are taken to be of the one number type (the driver's first two
    positions are integer arrays, whose squares would wrap beyond 64
    bits). *)
Definition force (g : graph num) (vertex1 vertex2 : key) : result point :=
  d2 ← of_option KeyError (dict_get g vertex2);
  l2 ← of_option KeyError (loc d2);
  d1 ← of_option KeyError (dict_get g vertex1);
  l1 ← of_option KeyError (loc d1);
  let dx := (l2.1 - l1.1)%num in
  let dy := (l2.2 - l1.2)%num in
  let q1 := weight d1 in
  let q2 := weight d2 in
  let s := (dx * dx + dy * dy)%num in
  let den := npow15 s in
  mret (((q1 + q2) * dx / den)%num, ((q1 + q2) * dy / den)%num).

(** The [for vertex in graph] loop of [net_force]. *)
Fixpoint net_force_loop (g : graph num) (vertex1 : key) (F : point)
    (todo : graph num) : result point :=
  match todo with
  | [] => Ok F
  | (vertex, _) :: todo' =>
      if decide (vertex <> vertex1)
      then f ← force g vertex vertex1;
           net_force_loop g vertex1 (vadd F f) todo'
      else net_force_loop g vertex1 F todo'
  end.

(** [net_force(vertex1)]. *)
Definition net_force (g : graph num) (vertex1 : key) : result point :=
  net_force_loop g vertex1 (of_Q 0, of_Q 0) g.

(** [net_forces]: a dict in the order of the store. *)
Definition net_forces (g : graph num) : result (list (key * point)) :=
  mapM (fun entry : key * vertex num =>
          F ← net_force g entry.1; mret (entry.1, F)) g.

(** [random.uniform(a, b)]: the next value of the tape. *)
Definition rand (a b : num) (tape : list num) : result (num * list num) :=
  match tape with
  | [] => Raise TapeExhausted
  | u :: tape' => Ok (u, tape')
  end.

(** The roulette loop of [pick_expansion_vertex]: [None] when it runs off
    the end of [forces]. *)
Fixpoint roulette (P : num) (forces : list (key * point)) : option key :=
  match forces with
  | [] => None
  | (vertex, F) :: forces' =>
      let P := (P - norm F)%num in
      if (P <=? of_Q 0)%num then Some vertex else roulette P forces'
  end.

(** [pick_expansion_vertex]. *)
Definition pick_expansion_vertex (g : graph num) (tape : list num)
    : result (key * list num) :=
  forces ← net_forces g;
  let total_force := py_sum (norm <$> forces.*2) in
  '(u, tape) ← rand (of_Q 0) (of_Q 1) tape;
  let P := (u * total_force)%num in
  match roulette P forces with
  | Some vertex => mret (vertex, tape)
  | None => mret (KInt 0, tape)
  end.

(** [pick_expansion_point(vertex)]. *)
Definition pick_expansion_point (g : graph num) (vertex : key)
    (tape : list num) : result (point * list num) :=
  F ← net_force g vertex;
  '(u1, tape) ← rand (of_Q 0) (of_Q 1) tape;
  '(u2, tape) ← rand (of_Q 0) (of_Q 0.3) tape;
  let F0 := (F.1 * (u1 + F.2 * u2))%num in
  '(u3, tape) ← rand (of_Q 0) (of_Q 1) tape;
  '(u4, tape) ← rand (of_Q 0) (of_Q 0.3) tape;
  let F1 := (F.2 * (u3 + F0 * u4))%num in
  let scale := (r / norm (F0, F1))%num in
  let F := ((F0 * scale)%num, (F1 * scale)%num) in
  x0 ← loc_of g vertex;
  mret (vadd x0 F, tape).

(** The items of [l] in an array compared with the items of [both]: they
    are strings as soon as one item of [both] is a string. *)
Definition np_array (both l : list key) : list key :=
  if existsb is_str both then np_item <$> l else l.

(** [numpy.setdiff1d(ar1, ar2)]: the distinct items of the array of [ar1]
    that are not in the array of [ar2], the two arrays being brought to a
    common type.  ([set_active_states] reaches it with the string ["0"]
    in both lists, so that both arrays are arrays of strings.  The
    library returns the items sorted; the loop that consumes them writes
    one entry of the store per item, or raises [KeyError], so their order
    does not show.) *)
Definition setdiff1d (ar1 ar2 : list key) : list key :=
  list_difference (remove_dups (np_array (ar1 ++ ar2) ar1))
                  (np_array (ar1 ++ ar2) ar2).

(** The body of the first loop of [set_active_states]. *)
Definition reinforce_vertex (g : graph num) (vertex : key)
    : result (graph num) :=
  d ← of_option KeyError (dict_get g vertex);
  b ← of_option KeyError (burnt d);
  let b := if (b <? of_Q 15)%num then (b + of_Q 0.005)%num else b in
  let w :=
    if decide (vertex <> KStr "0")
    then if (weight d <? of_Q 1)%num then of_Q 1
         else if (weight d <? of_Q 2)%num then (weight d * of_Q 1.1)%num
         else weight d
    else weight d in
  mret (dict_set g vertex
          {| weight := w; neighbors := neighbors d;
             loc := loc d; burnt := Some b |}).

(** The body of the second loop of [set_active_states]. *)
Definition decay_vertex (g : graph num) (vertex : key)
    : result (graph num) :=
  d ← of_option KeyError (dict_get g vertex);
  if (weight d >? of_Q 0.025)%num
  then mret (dict_set g vertex
               {| weight := (weight d - of_Q 0.025)%num;
                  neighbors := neighbors d;
                  loc := loc d; burnt := burnt d |})
  else mret g.

(** [for x in l: g = body(g, x)]. *)
Fixpoint for_each (body : graph num -> key -> result (graph num))
    (g : graph num) (l : list key) : result (graph num) :=
  match l with
  | [] => Ok g
  | x :: l' => g' ← body g x; for_each body g' l'
  end.

(** [set_active_states(vertex)]. *)
Definition set_active_states (g : graph num) (vertex : key)
    : result (graph num) :=
  path ← find_shortest_path g vertex (KStr "0");
  let notpath := setdiff1d (vertices g) path in
  g ← for_each reinforce_vertex g path;
  for_each decay_vertex g notpath.

(** [make_new_vertex], [depth] bounding the nesting of its calls of
    itself. *)
Fixpoint make_new_vertex (depth : nat) (g : graph num) (tape : list num)
    : result (graph num * list num) :=
  match depth with
  | O => Raise RecursionError
  | S depth' =>
      '(expansion_vertex, tape) ← pick_expansion_vertex g tape;
      '(expansion_point, tape) ←
        pick_expansion_point g expansion_vertex tape;
      near ← is_too_close g expansion_point;
      '(g, tape) ←
        (if truthy near
            && bool_decide (Some expansion_vertex <> near)
         then make_new_vertex depth' g tape
         else mret (add_vertex g (KStr (str_of_nat (length g)))
                      (Some [expansion_vertex]) (Some expansion_point)
                      (of_Q 1),
                    tape));
      g ← set_active_states g expansion_vertex;
      mret (g, tape)
  end.

(** [return_current_graph]. *)
Definition return_current_graph (g : graph num) : graph num := g.

End lichtenberg.
End LichtenbergGraph.

(* ===================================================================== *)
(** * Vocabulary of the properties *)
(* ===================================================================== *)

Import Graph LichtenbergGraph.

Section vocabulary.
Context {num : Type} `{Number num}.
Implicit Types (g gi todo : graph num) (path p q seeds : list key).
Implicit Types (new_loc F : point (num:=num)) (k seed v : key).
Implicit Types (tape : list num).

(** An edge of the list comes from an entry of some neighbour list. *)
Definition edge_of_store g (e : gset key) : Prop :=
  exists vertex d neighbor,
    (vertex, d) ∈ g /\ neighbor ∈ neighbors d /\ e = {[vertex; neighbor]}.

(** What every enumerated path looks like: the path handed in, then keys
    of the store starting at [start_vertex], then [end_vertex]; and no
    vertex twice. *)
Definition path_from g (start_vertex end_vertex : key) path p : Prop :=
  exists q, p = path ++ q ++ [end_vertex]
    /\ head (q ++ [end_vertex]) = Some start_vertex
    /\ Forall (fun x => x ∈ g.*1) q
    /\ (NoDup path -> start_vertex ∉ path -> NoDup p).

(** The keys of the store that a path has not entered yet. *)
Definition unvisited g path : list key :=
  filter (fun k => k ∉ path) g.*1.

(** Every vertex of the store has a position. *)
Definition located g : Prop := Forall (fun entry => is_Some (loc entry.2)) g.

(** The distance [get_nearest_vertex] computes for an entry. *)
Definition dist_entry new_loc (entry : key * vertex num)
    : result (key * num) :=
  l ← of_option KeyError (loc entry.2);
  mret (entry.1, norm (vsub l new_loc)).

(** The perturbation as [pick_expansion_point] computes it: the second
    component is scaled with the first component already perturbed. *)
Definition perturbed F (u1 u2 u3 u4 : num) : point :=
  let F0 := (F.1 * (u1 + F.2 * u2))%num in
  (F0, (F.2 * (u3 + F0 * u4))%num).

(** The perturbation with both components computed from the components
    of the net force. *)
Definition perturbed_from_original F (u1 u2 u3 u4 : num) : point :=
  ((F.1 * (u1 + F.2 * u2))%num, (F.2 * (u3 + F.1 * u4))%num).

(** [F *= r / norm(F)]. *)
Definition scaled_step F : point :=
  let scale := (r / norm F)%num in
  ((F.1 * scale)%num, (F.2 * scale)%num).

(** [r * normalize(F)]. *)
Definition r_times_normalized F : point :=
  ((r * (F.1 / norm F))%num, (r * (F.2 / norm F))%num).

(** The expansion point as the specification words it: the position plus
    [r * normalize] of the perturbation taken from the original
    components. *)
Definition specified_expansion_point g (vertex : key) (u1 u2 u3 u4 : num)
    : result point :=
  F ← net_force g vertex;
  x0 ← loc_of g vertex;
  mret (vadd x0 (r_times_normalized (perturbed_from_original F u1 u2 u3 u4))).

(** The update of an activation on the path. *)
Definition bump (b : num) : num :=
  if (b <? of_Q 15)%num then (b + of_Q 0.005)%num else b.

(** The update of a weight on the path. *)
Definition strengthen (vertex : key) (w : num) : num :=
  if decide (vertex <> KStr "0")
  then if (w <? of_Q 1)%num then of_Q 1
       else if (w <? of_Q 2)%num then (w * of_Q 1.1)%num
       else w
  else w.

(** The update of a weight off the path. *)
Definition decay (w : num) : num :=
  if (w >? of_Q 0.025)%num then (w - of_Q 0.025)%num else w.

(** Two stores with the same keys in the same order, and at every key the
    same neighbours and the same position. *)
Definition same_shape g g' : Prop :=
  g'.*1 = g.*1 /\
  forall k, neighbors <$> dict_get g' k = neighbors <$> dict_get g k
         /\ loc <$> dict_get g' k = loc <$> dict_get g k.

(** The activation stored at a key, when the key is there. *)
Definition burnt_at g k : option (option num) := burnt <$> dict_get g k.

(** What one level of [make_new_vertex] does before it branches: the
    expansion vertex, the expansion point, the answer of [is_too_close]
    and the tape that is left. *)
Definition attempt g tape : result (key * point * option key * list num) :=
  '(expansion_vertex, tape) ← pick_expansion_vertex g tape;
  '(expansion_point, tape) ← pick_expansion_point g expansion_vertex tape;
  near ← is_too_close g expansion_point;
  mret (expansion_vertex, expansion_point, near, tape).

(** The condition of the [if] in [make_new_vertex]. *)
Definition retries (expansion_vertex : key) (near : option key) : bool :=
  truthy near && bool_decide (Some expansion_vertex <> near).

(** The key [make_new_vertex] gives to a new vertex. *)
Definition fresh_key g : key := KStr (str_of_nat (length g)).

(** The store after the insert of the [else] branch. *)
Definition inserted g (expansion_vertex : key) (expansion_point : point)
    : graph num :=
  LichtenbergGraph.add_vertex g (fresh_key g) (Some [expansion_vertex])
    (Some expansion_point) (of_Q 1).

(** The stores the program can be in: it starts from a store whose
    activations are all [0] (as the two literal stores of the source are),
    and goes on by [add_vertex] and by [set_active_states]. *)
Inductive reachable : graph num -> Prop :=
| reachable_init g :
    Forall (fun entry => burnt entry.2 = Some (of_Q 0)) g -> reachable g
| reachable_add_vertex g k neigh pos w :
    reachable g -> reachable (LichtenbergGraph.add_vertex g k neigh pos w)
| reachable_set_active_states g seed g' :
    reachable g -> set_active_states g seed = Ok g' -> reachable g'.

(** The attempts of one call of [make_new_vertex] on the store [g], read
    from the tape: [k] attempts that are discarded, each followed by a
    fresh attempt on the same store, and a last one that inserts.  [seeds]
    lists the expansion vertices of the attempts, the outermost first, and
    [gi] is the store after the insert. *)
Inductive grows g : list num -> nat -> list key -> graph num -> list num
    -> Prop :=
| grows_insert tape v (p : point) near tape' :
    attempt g tape = Ok (v, p, near, tape') ->
    retries v near = false ->
    grows g tape 0 [v] (inserted g v p) tape'
| grows_retry tape v (p : point) near tape1 (k : nat) seeds gi tape' :
    attempt g tape = Ok (v, p, near, tape1) ->
    retries v near = true ->
    grows g tape1 k seeds gi tape' ->
    grows g tape (S k) (v :: seeds) gi tape'.

(** [b] is an entry of the list of neighbours of [a]. *)
Definition linked g (a b : key) : Prop :=
  exists d, dict_get g a = Some d /\ b ∈ neighbors d.

(** Each vertex of the list is linked to the next one. *)
Fixpoint chain g (l : list key) : Prop :=
  match l with
  | a :: (b :: _) as l' => linked g a b /\ chain g l'
  | _ => True
  end.

(** A path from [s] to [e] along the links of the store that enters no
    vertex twice. *)
Definition simple_path g (s e : key) (l : list key) : Prop :=
  head l = Some s /\ last l = Some e /\ NoDup l /\ chain g l.

(** The keys of the store are the numerals ["0"], ["1"], ... in order, as
    in the store of the driver and after each of its growth steps. *)
Definition numeral_keys g : Prop :=
  vertices g = (fun i => KStr (str_of_nat i)) <$> seq 0 (length g).

(** The weight stored at a key, when the key is there. *)
Definition weight_at g k : option num := weight <$> dict_get g k.

(** The entry of a vertex of the best path after [set_active_states]. *)
Definition reinforced (k : key) (d : vertex num) : vertex num :=
  {| weight := strengthen k (weight d); neighbors := neighbors d;
     loc := loc d; burnt := bump <$> burnt d |}.

(** The entry of a vertex off the best path after [set_active_states]. *)
Definition decayed (d : vertex num) : vertex num :=
  {| weight := decay (weight d); neighbors := neighbors d;
     loc := loc d; burnt := burnt d |}.

(** Every vertex of the store has a position and an activation, as the
    vertices [LichtenbergGraph] makes have. *)
Definition complete_store g : Prop :=
  Forall (fun entry => is_Some (loc entry.2) /\ is_Some (burnt entry.2)) g.

(** One pass of the reinforcement rule, in the words of the rule.  With
    [path] the best path from the seed to the root: every entry on the
    path is put through the update of the path, every other entry through
    the decay, and the keys stay. *)
Definition reinforcement g seed g' : Prop :=
  exists path, find_shortest_path g seed (KStr "0") = Ok path
    /\ vertices g' = vertices g
    /\ forall k, dict_get g' k =
         (fun d => if bool_decide (k ∈ path) then reinforced k d
                   else decayed d) <$> dict_get g k.

(** Passes one after the other, seeded in turn at the vertices of a
    list. *)
Inductive passes : graph num -> list key -> graph num -> Prop :=
| passes_nil g : passes g [] g
| passes_cons g seed g1 seeds g' :
    reinforcement g seed g1 -> passes g1 seeds g' ->
    passes g (seed :: seeds) g'.

(** An activation after [n] updates on the path. *)
Definition bumped (n : nat) (b : num) : num := Nat.iter n bump b.

(** The keys of the store are strings that [numpy] hands back as they
    are, as the numerals of the driver's store and of every growth step
    are. *)
Definition plain_keys g : Prop :=
  Forall (fun k => plain_key k = true) (vertices g).

(** The root ["0"] is a vertex of the store, and from every vertex a
    simple path leads to it, as in the store of the driver. *)
Definition rooted g : Prop :=
  KStr "0" ∈ vertices g
  /\ forall k, k ∈ vertices g -> exists p, simple_path g k (KStr "0") p.

(** The summed weight of a path, in the words of the specification: the
    weights of its vertices added one after the other, from [0] on;
    undefined when a vertex of the path is not in the store. *)
Fixpoint weight_sum_from g (acc : num) (p : list key) : option num :=
  match p with
  | [] => Some acc
  | k :: p' =>
      match dict_get g k with
      | Some d => weight_sum_from g (acc + weight d)%num p'
      | None => None
      end
  end.

Definition weight_sum g (p : list key) : option num :=
  weight_sum_from g (of_Q 0) p.

(** The distance from the point [a] to the point [b] as it is computed:
    the square root of the dot product of [a - b] with itself. *)
Definition distance (a b : point) : num :=
  nsqrt (ndot (a.1 - b.1)%num (a.2 - b.2)%num (a.1 - b.1)%num (a.2 - b.2)%num).

(** The distances between the point and the positions of the store, taken
    in either direction, are numbers. *)
Definition distances_are_numbers g new_loc : Prop :=
  Forall (fun entry : key * vertex num =>
            forall l, loc entry.2 = Some l ->
              number (distance new_loc l) /\ number (distance l new_loc)) g.

End vocabulary.

(** ** The activation in binary64 *)

(** The activation after [n] updates of an activation [b]. *)
Fixpoint bumps (n : nat) (b : float) : float :=
  match n with
  | O => b
  | S n' => bumps n' (bump b)
  end.

(** The value at which the activation stops: the binary64 sum of three
    thousand increments of [0.005]. *)
Definition burnt_stop : float := 15.000000000000945%float.

(** The activations a vertex goes through, starting from [0]. *)
Definition on_ladder (b : float) : Prop :=
  exists n, n <= 3000 /\ b = bumps n 0%float.

(** The checks along the first [n] rungs above [b]: each rung is between
    [0] and [burnt_stop], not above the next one, and comparable with
    itself (it is a number). *)
Fixpoint ladder_ok (n : nat) (b : float) : bool :=
  match n with
  | O => true
  | S n' =>
      PrimFloat.leb 0 b && PrimFloat.leb b burnt_stop
      && PrimFloat.leb b (bump b) && PrimFloat.leb b b
      && ladder_ok n' (bump b)
  end.

(** ** Stores and tapes the properties are evaluated at *)

(** The store of the driver in [inverse_square_law_simple.py], after its
    root has been reinforced twice. *)
Definition store_burnt_root : graph Q :=
  [ (KStr "0", {| weight := 5; neighbors := [KStr "1"];
                  loc := Some (0, 0); burnt := Some 0.01 |});
    (KStr "1", {| weight := 1; neighbors := [KStr "0"];
                  loc := Some (1, 1); burnt := Some 0 |}) ]%Q.

(** A store of two vertices five apart, with weights that make the net
    force on ["1"] the vector [(3, 4)]. *)
Definition store_3_4 : graph Q :=
  [ (KStr "0", {| weight := 100; neighbors := [KStr "1"];
                  loc := Some (0, 0); burnt := Some 0 |});
    (KStr "1", {| weight := 25; neighbors := [KStr "0"];
                  loc := Some (3, 4); burnt := Some 0 |}) ]%Q.

(** A store in binary64 whose two vertices lie on the same point: every
    force is [0 / 0]. *)
Definition store_coincident : graph float :=
  [ (KStr "0", {| weight := 5; neighbors := [KStr "1"];
                  loc := Some (0, 0); burnt := Some 0 |});
    (KStr "1", {| weight := 1; neighbors := [KStr "0"];
                  loc := Some (0, 0); burnt := Some 0 |}) ]%float.

(** The store of the driver of [inverse_square_law_simple.py], in
    binary64. *)
Definition store_driver : graph float :=
  [ (KStr "0", {| weight := 5; neighbors := [KStr "1"];
                  loc := Some (0, 0); burnt := Some 0 |});
    (KStr "1", {| weight := 1; neighbors := [KStr "0"];
                  loc := Some (1, 1); burnt := Some 0 |}) ]%float.

Definition draws_half : list float := [0.5; 0.5; 0.5; 0.5; 0.5]%float.

(** The store of the driver of [graphs.py], after its
    [add_vertex('g', ['e', 'd'])]. *)
Definition store_letters : graph Q :=
  Graph.add_vertex
    [ (KStr "a", {| weight := 1; neighbors := [KStr "d"];
                    loc := None; burnt := None |});
      (KStr "b", {| weight := 1; neighbors := [KStr "c"];
                    loc := None; burnt := None |});
      (KStr "c", {| weight := 1;
                    neighbors := [KStr "b"; KStr "c"; KStr "d"; KStr "e"];
                    loc := None; burnt := None |});
      (KStr "d", {| weight := 1; neighbors := [KStr "a"; KStr "c"];
                    loc := None; burnt := None |});
      (KStr "e", {| weight := -5; neighbors := [KStr "c"; KStr "b"];
                    loc := None; burnt := None |});
      (KStr "f", {| weight := 1; neighbors := [];
                    loc := None; burnt := None |}) ]%Q
    (KStr "g") (Some [KStr "e"; KStr "d"]) 1%Q.

(** Two paths of the same weight: the one enumerated first is returned. *)
Definition store_diamond : graph Q :=
  [ (KStr "0", {| weight := 1; neighbors := [];
                  loc := None; burnt := None |});
    (KStr "1", {| weight := 2; neighbors := [KStr "0"];
                  loc := None; burnt := None |});
    (KStr "2", {| weight := 2; neighbors := [KStr "0"];
                  loc := None; burnt := None |});
    (KStr "3", {| weight := 1; neighbors := [KStr "2"; KStr "1"];
                  loc := None; burnt := None |}) ]%Q.

(** A store of three vertices on a line.  The net force pushes ["1"]
    towards ["2"], which is nearer to the proposed point than ["1"]. *)
Definition store_line : graph Q :=
  [ (KStr "0", {| weight := 50; neighbors := [KStr "1"];
                  loc := Some (0, 0); burnt := Some 0 |});
    (KStr "1", {| weight := 1; neighbors := [KStr "0"];
                  loc := Some (4, 0); burnt := Some 0 |});
    (KStr "2", {| weight := 1; neighbors := [KStr "1"];
                  loc := Some (11 # 2, 0); burnt := Some 0 |}) ]%Q.

Definition draws_line : list Q :=
  [3 # 5; 1 # 2; 1 # 10; 1 # 2; 1 # 10;
   9 # 10; 1 # 2; 1 # 10; 1 # 2; 1 # 10]%Q.

(** The diamond in binary64: two paths of the same weight from ["3"] to
    ["0"]. *)
Definition store_diamond_f : graph float :=
  [ (KStr "0", {| weight := 1; neighbors := [];
                  loc := None; burnt := None |});
    (KStr "1", {| weight := 2; neighbors := [KStr "0"];
                  loc := None; burnt := None |});
    (KStr "2", {| weight := 2; neighbors := [KStr "0"];
                  loc := None; burnt := None |});
    (KStr "3", {| weight := 1; neighbors := [KStr "2"; KStr "1"];
                  loc := None; burnt := None |}) ]%float.

(** The diamond with a weight that is not a number on ["2"]. *)
Definition store_nan_weight : graph float :=
  [ (KStr "0", {| weight := 1; neighbors := [];
                  loc := None; burnt := None |});
    (KStr "1", {| weight := 2; neighbors := [KStr "0"];
                  loc := None; burnt := None |});
    (KStr "2", {| weight := nan; neighbors := [KStr "0"];
                  loc := None; burnt := None |});
    (KStr "3", {| weight := 1; neighbors := [KStr "2"; KStr "1"];
                  loc := None; burnt := None |}) ]%float.

(** Two vertices ten apart, in binary64. *)
Definition store_far : graph float :=
  [ (KStr "0", {| weight := 5; neighbors := [KStr "1"];
                  loc := Some (0, 0); burnt := Some 0 |});
    (KStr "1", {| weight := 1; neighbors := [KStr "0"];
                  loc := Some (10, 0); burnt := Some 0 |}) ]%float.

(** Two vertices at the same distance from the origin, in binary64. *)
Definition store_tie_f : graph float :=
  [ (KStr "0", {| weight := 1; neighbors := [];
                  loc := Some (1, 0); burnt := Some 0 |});
    (KStr "1", {| weight := 1; neighbors := [KStr "0"];
                  loc := Some (-1, 0); burnt := Some 0 |}) ]%float.

(** The three vertices on a line and the draws of the step with one
    retry, in binary64. *)
Definition store_line_f : graph float :=
  [ (KStr "0", {| weight := 50; neighbors := [KStr "1"];
                  loc := Some (0, 0); burnt := Some 0 |});
    (KStr "1", {| weight := 1; neighbors := [KStr "0"];
                  loc := Some (4, 0); burnt := Some 0 |});
    (KStr "2", {| weight := 1; neighbors := [KStr "1"];
                  loc := Some (5.5, 0); burnt := Some 0 |}) ]%float.

Definition draws_line_f : list float :=
  [0.6; 0.5; 0.1; 0.5; 0.1; 0.9; 0.5; 0.1; 0.5; 0.1]%float.

(** The weight and the activation of a vertex, in lowest terms. *)
Definition reading (g : graph Q) (k : key) : option (Q * option Q) :=
  (fun d => (Qred (weight d), Qred <$> burnt d)) <$> dict_get g k.

(* ===================================================================== *)
(** * Properties *)
(* ===================================================================== *)

(** ** Dicts *)

Section dict_facts.
Context {V : Type}.
Implicit Types (d : list (key * V)) (k : key) (v : V).

Lemma dict_get_set d k v k' :
  dict_get (dict_set d k v) k' =
  if decide (k' = k) then Some v else dict_get d k'.
Proof.
  induction d as [|[k0 v0] d IH]; simpl.
  - by destruct (decide (k' = k)).
  - destruct (decide (k = k0)) as [->|Hne]; simpl.
    + by destruct (decide (k' = k0)).
    + destruct (decide (k' = k0)) as [->|?].
      * by rewrite decide_False.
      * apply IH.
Qed.

Lemma dict_get_set_eq d k v : dict_get (dict_set d k v) k = Some v.
Proof. by rewrite dict_get_set, decide_True. Qed.

Lemma dict_get_set_ne d k v k' :
  k' <> k -> dict_get (dict_set d k v) k' = dict_get d k'.
Proof. intros. by rewrite dict_get_set, decide_False. Qed.

Lemma dict_get_Some_elem d k v : dict_get d k = Some v -> (k, v) ∈ d.
Proof.
  induction d as [|[k0 v0] d IH]; simpl; [done|].
  destruct (decide (k = k0)) as [->|?].
  - intros [= ->]. apply list_elem_of_here.
  - intros. apply list_elem_of_further. auto.
Qed.

Lemma dict_get_is_Some d k : is_Some (dict_get d k) <-> k ∈ d.*1.
Proof.
  induction d as [|[k0 v0] d IH]; simpl.
  - split; [by intros [? ?]|by intros ?%elem_of_nil].
  - rewrite elem_of_cons. destruct (decide (k = k0)) as [->|?].
    + split; eauto.
    + rewrite IH. split; [auto|]. intros [?|?]; [done|auto].
Qed.

Lemma dict_mem_true d k : dict_mem d k = true <-> is_Some (dict_get d k).
Proof.
  unfold dict_mem. rewrite dict_get_is_Some.
  split; [apply bool_decide_eq_true_1|apply bool_decide_eq_true_2].
Qed.

Lemma dict_mem_false d k : dict_mem d k = false <-> dict_get d k = None.
Proof.
  rewrite <- not_true_iff_false, dict_mem_true, <- eq_None_not_Some. done.
Qed.

Lemma dict_set_keys_present d k v :
  k ∈ d.*1 -> (dict_set d k v).*1 = d.*1.
Proof.
  induction d as [|[k0 v0] d IH]; simpl.
  - by intros ?%elem_of_nil.
  - intros Hin. destruct (decide (k = k0)) as [->|Hne]; simpl; [done|].
    f_equal. apply IH. apply elem_of_cons in Hin as [?|?]; [done|auto].
Qed.

Lemma dict_set_absent d k v :
  k ∉ d.*1 -> dict_set d k v = d ++ [(k, v)].
Proof.
  induction d as [|[k0 v0] d IH]; simpl; [done|].
  rewrite not_elem_of_cons. intros [Hne Hin].
  rewrite decide_False by done. f_equal. auto.
Qed.

End dict_facts.

(** ** The store: [add_vertex] *)

Section store.
Context {num : Type} `{Number num}.
Implicit Types (g : graph num) (k : key).

(** The parent's [add_vertex] does nothing for a key of the store. *)
Lemma Graph_add_vertex_present g k neigh w :
  dict_mem g k = true -> Graph.add_vertex g k neigh w = g.
Proof. intros Hk. unfold Graph.add_vertex. by rewrite Hk. Qed.

Lemma Graph_add_vertex_absent g k neigh w :
  dict_mem g k = false ->
  Graph.add_vertex g k neigh w =
  g ++ [(k, {| weight := w; neighbors := default [] neigh;
               loc := None; burnt := None |})].
Proof.
  intros Hk. unfold Graph.add_vertex. rewrite Hk. simpl.
  apply dict_set_absent. unfold dict_mem in Hk.
  by apply bool_decide_eq_false_1 in Hk.
Qed.

(** C1. What [LichtenbergGraph.add_vertex] does for a key that is already
    in the store: the weight and the neighbours stay, as in the parent's
    method, but the activation is put back to [0] and the position is
    overwritten by the argument (by the origin when none is given).  The
    insert is not idempotent. *)
Theorem C1_add_vertex_present_key_overwrites g k d neigh pos w :
  dict_get g k = Some d ->
  dict_get (LichtenbergGraph.add_vertex g k neigh pos w) k =
    Some {| weight := weight d; neighbors := neighbors d;
            loc := Some (default (of_Q 0, of_Q 0) pos);
            burnt := Some (of_Q 0) |}
  /\ vertices (LichtenbergGraph.add_vertex g k neigh pos w) = vertices g.
Proof.
  intros Hd. unfold LichtenbergGraph.add_vertex, vertices.
  assert (Hin : k ∈ g.*1) by (apply dict_get_is_Some; eauto).
  rewrite Graph_add_vertex_present by (apply dict_mem_true; eauto).
  rewrite Hd. split.
  - apply dict_get_set_eq.
  - rewrite !dict_set_keys_present; [done..|].
    by rewrite dict_set_keys_present.
Qed.

End store.

(** C1, at a store that holds the key: re-adding the root at another
    position resets its activation from [0.01] to [0] and moves it. *)
Lemma C1_add_vertex_present_key_witness :
  dict_get store_burnt_root (KStr "0") =
    Some {| weight := 5%Q; neighbors := [KStr "1"];
            loc := Some (0, 0)%Q; burnt := Some 0.01%Q |}
  /\ dict_get (LichtenbergGraph.add_vertex store_burnt_root (KStr "0")
                 (Some []) (Some (5, 5)%Q) 1%Q) (KStr "0") =
      Some {| weight := 5%Q; neighbors := [KStr "1"];
              loc := Some (5, 5)%Q; burnt := Some 0%Q |}.
Proof.
  split; [reflexivity|].
  exact (proj1 (C1_add_vertex_present_key_overwrites store_burnt_root
                  (KStr "0")
                  {| weight := 5%Q; neighbors := [KStr "1"];
                     loc := Some (0, 0)%Q; burnt := Some 0.01%Q |}
                  (Some []) (Some (5, 5)%Q) 1%Q eq_refl)).
Defined.

(** ** The edge list *)

Section edges.
Context {num : Type} `{Number num}.
Implicit Types (g : graph num) (edges : list (gset key)).

Lemma edges_of_vertex_NoDup vertex edges ns :
  NoDup edges -> NoDup (edges_of_vertex vertex edges ns).
Proof.
  revert edges. induction ns as [|n ns IH]; intros edges Hnd; simpl; [done|].
  apply IH. case_decide as Hin; [done|].
  apply NoDup_app. split_and!; [done| |apply NoDup_singleton].
  intros e He ->%list_elem_of_singleton. apply Hin.
  by replace ({[n; vertex]} : gset key) with ({[vertex; n]} : gset key)
    by apply (comm_L (∪)).
Qed.

Lemma edges_of_vertex_elem (P : gset key -> Prop) vertex edges ns :
  Forall P edges ->
  (forall n, n ∈ ns -> P {[vertex; n]}) ->
  Forall P (edges_of_vertex vertex edges ns).
Proof.
  revert edges. induction ns as [|n ns IH]; intros edges Hall Hns; simpl.
  - done.
  - apply IH.
    + case_decide; [done|]. apply Forall_app. split; [done|].
      apply Forall_singleton, Hns, list_elem_of_here.
    + intros n' Hn'. apply Hns. by apply list_elem_of_further.
Qed.

Lemma generate_edges_inv g0 g edges :
  (forall e, e ∈ g -> e ∈ g0) ->
  NoDup edges -> Forall (edge_of_store g0) edges ->
  let res :=
    foldl (fun edges entry =>
             edges_of_vertex entry.1 edges (neighbors entry.2)) edges g in
  NoDup res /\ Forall (edge_of_store g0) res.
Proof.
  revert edges. induction g as [|[v d] g IH]; intros edges Hsub Hnd Hall;
    simpl; [done|].
  apply IH.
  - intros e He. apply Hsub. by apply list_elem_of_further.
  - by apply edges_of_vertex_NoDup.
  - apply edges_of_vertex_elem; [done|]. intros n Hn.
    exists v, d, n. split_and!; [|done..]. apply Hsub, list_elem_of_here.
Qed.

(** C9, as the code has it.  [edges] holds no unordered pair twice, and
    each pair it holds is [{vertex, neighbor}] for a key [vertex] of the
    store and an entry [neighbor] of the neighbour list of [vertex]; both
    ends are keys of the store when every listed neighbour is one. *)
Theorem C9_edges_distinct_and_from_neighbor_lists g :
  NoDup (edges g)
  /\ (forall e, e ∈ edges g -> edge_of_store g e)
  /\ ((forall vertex d neighbor,
          (vertex, d) ∈ g -> neighbor ∈ neighbors d ->
          neighbor ∈ vertices g) ->
      forall e x, e ∈ edges g -> x ∈ e -> x ∈ vertices g).
Proof.
  destruct (generate_edges_inv g g []) as [Hnd Hall];
    [done|apply NoDup_nil_2|done|].
  rewrite Forall_forall in Hall.
  split_and!; [done|done|].
  intros Hclosed e x He Hx.
  destruct (Hall e He) as (v & d & n & Hv & Hn & ->).
  apply elem_of_union in Hx as [->%elem_of_singleton| ->%elem_of_singleton].
  - unfold vertices. apply list_elem_of_fmap. by exists (v, d).
  - eauto.
Qed.

End edges.

(** C9 fails as stated.  After [add_vertex("a", ["b"])] on the empty store
    the edge list holds the pair of ["a"] and ["b"], and ["b"] is no
    vertex. *)
Lemma C9_edges_dangling_endpoint_counterexample :
  let g : graph Q := Graph.add_vertex [] (KStr "a") (Some [KStr "b"]) 1%Q in
  edges g = [{[KStr "a"; KStr "b"]}]
  /\ vertices g = [KStr "a"]
  /\ ~ (forall e x, e ∈ edges g -> x ∈ e -> x ∈ vertices g).
Proof.
  simpl. split_and!; [reflexivity..|].
  intros Hall.
  specialize (Hall {[KStr "a"; KStr "b"]} (KStr "b")).
  assert (Hb : KStr "b" ∈ [KStr "a"]).
  { apply Hall; [apply list_elem_of_here|set_solver]. }
  apply list_elem_of_singleton in Hb. discriminate.
Qed.

(** ** The path enumerator *)

Section paths.
Context {num : Type} `{Number num}.
Implicit Types (g : graph num) (path p q : list key).

Lemma extend_paths_Forall (P : list key -> Prop) rec path ns acc ps :
  extend_paths rec path ns acc = Ok ps ->
  (forall v ext, v ∈ ns -> v ∉ path -> rec v = Ok ext -> Forall P ext) ->
  Forall P acc -> Forall P ps.
Proof.
  revert acc. induction ns as [|v ns IH]; intros acc Hrun Hrec Hacc; simpl in *.
  - by injection Hrun as <-.
  - case_bool_decide as Hv; simpl in Hrun.
    + eapply IH; [done| |done].
      intros. eapply Hrec; [by apply list_elem_of_further|done..].
    + destruct (rec v) as [ext|] eqn:Hext; [|done]. simpl in Hrun.
      eapply IH; [done| |].
      * intros. eapply Hrec; [by apply list_elem_of_further|done..].
      * apply Forall_app. split; [done|].
        eapply Hrec; [apply list_elem_of_here|done..].
Qed.

Lemma extend_paths_total rec path ns acc :
  (forall v, v ∈ ns -> v ∉ path -> exists ext, rec v = Ok ext) ->
  exists ps, extend_paths rec path ns acc = Ok ps.
Proof.
  revert acc. induction ns as [|v ns IH]; intros acc Hrec; simpl; [eauto|].
  case_bool_decide as Hv; simpl.
  - apply IH. intros. apply Hrec; [by apply list_elem_of_further|done].
  - destruct (Hrec v) as [ext ->]; [apply list_elem_of_here|done|]. simpl.
    apply IH. intros. apply Hrec; [by apply list_elem_of_further|done].
Qed.

Lemma find_all_paths_rec_spec depth g s e path ps :
  find_all_paths_rec depth g s e path = Ok ps ->
  Forall (path_from g s e path) ps.
Proof.
  revert s path ps. induction depth as [|depth IH]; intros s path ps; [done|].
  simpl. case_decide as Hse.
  - intros [= <-]. subst e. apply Forall_singleton.
    exists []. split_and!; [done|done|done|].
    intros Hnd Hs. apply NoDup_app. split_and!; [done| |apply NoDup_singleton].
    intros x Hx ->%list_elem_of_singleton. done.
  - destruct (dict_get g s) as [d|] eqn:Hd; [|by intros [= <-]].
    intros Hrun.
    assert (Hs : s ∈ g.*1) by (apply dict_get_is_Some; eauto).
    eapply extend_paths_Forall; [done| |done].
    intros v ext _ Hv Hext. apply IH in Hext.
    eapply Forall_impl; [done|]. simpl.
    intros p (q & -> & Hhd & Hq & Hnd).
    exists (s :: q). split_and!.
    + by rewrite <- app_assoc.
    + done.
    + by constructor.
    + intros Hnd' Hs'. apply Hnd; [|done].
      apply NoDup_app. split_and!; [done| |apply NoDup_singleton].
      intros x Hx ->%list_elem_of_singleton. done.
Qed.

Lemma unvisited_enter g path s :
  s ∈ g.*1 -> s ∉ path ->
  length (unvisited g (path ++ [s])) < length (unvisited g path).
Proof.
  intros Hs Hp. unfold unvisited.
  rewrite <- (list_filter_filter_l (fun k => k ∉ path ++ [s])
                (fun k => k ∉ path)).
  - apply (length_filter_lt _ _ s).
    + by apply list_elem_of_filter.
    + intros Hn. apply Hn, elem_of_app. right. apply list_elem_of_here.
  - intros x Hx Hx'. apply Hx, elem_of_app. by left.
Qed.

Lemma find_all_paths_rec_total depth g s e path :
  s ∉ path -> length (unvisited g path) < depth ->
  exists ps, find_all_paths_rec depth g s e path = Ok ps.
Proof.
  revert s path. induction depth as [|depth IH]; intros s path Hs Hlen; [lia|].
  simpl. case_decide; [eauto|].
  destruct (dict_get g s) as [d|] eqn:Hd; [|eauto].
  apply extend_paths_total. intros v _ Hv. apply IH; [done|].
  assert (Hin : s ∈ g.*1) by (apply dict_get_is_Some; eauto).
  pose proof (unvisited_enter g path s Hin Hs). lia.
Qed.

(** The enumeration always returns: the bound on the nesting is never
    reached. *)
Lemma find_all_paths_total g s e :
  exists ps, find_all_paths g s e = Ok ps.
Proof.
  apply find_all_paths_rec_total; [apply not_elem_of_nil|].
  unfold unvisited. pose proof (length_filter (fun k => k ∉ []) g.*1) as Hle.
  rewrite length_fmap in Hle. lia.
Qed.

(** Every enumerated path runs from [s] to [e] through keys of the store
    and repeats no vertex. *)
Lemma find_all_paths_spec g s e ps p :
  find_all_paths g s e = Ok ps -> p ∈ ps ->
  NoDup p /\ head p = Some s /\
  exists q, p = q ++ [e] /\ Forall (fun x => x ∈ g.*1) q.
Proof.
  intros Hrun Hp. apply find_all_paths_rec_spec in Hrun.
  rewrite Forall_forall in Hrun.
  destruct (Hrun p Hp) as (q & -> & Hhd & Hq & Hnd). simpl in *.
  split_and!; [|done|eauto].
  apply Hnd; [apply NoDup_nil_2|apply not_elem_of_nil].
Qed.

(** C3, as the code has it.  From a start key that is not in the store,
    [find_all_paths] returns the empty list when the end key differs, and
    the one path [[x]] when the end key is the start key itself: the test
    [start_vertex == end_vertex] comes before the test of membership. *)
Theorem C3_find_all_paths_absent_start g x y :
  dict_mem g x = false ->
  find_all_paths g x y = Ok (if decide (x = y) then [[x]] else []).
Proof.
  intros Hx. apply dict_mem_false in Hx.
  unfold find_all_paths. simpl. case_decide; [done|]. by rewrite Hx.
Qed.

End paths.

(** C3 at the store of the driver, which has no key ["9"]: to ["0"] there
    is no path, to ["9"] itself there is one. *)
Lemma C3_find_all_paths_absent_start_witness :
  find_all_paths store_burnt_root (KStr "9") (KStr "0") = Ok []
  /\ find_all_paths store_burnt_root (KStr "9") (KStr "9") = Ok [[KStr "9"]].
Proof.
  split.
  - exact (C3_find_all_paths_absent_start store_burnt_root
             (KStr "9") (KStr "0") eq_refl).
  - exact (C3_find_all_paths_absent_start store_burnt_root
             (KStr "9") (KStr "9") eq_refl).
Defined.

(** C3 fails as stated: with the start key absent and equal to the end
    key, the result is not empty. *)
Lemma C3_absent_start_equal_end_counterexample :
  dict_mem store_burnt_root (KStr "9") = false
  /\ find_all_paths store_burnt_root (KStr "9") (KStr "9") <> Ok [].
Proof. split; [reflexivity|discriminate]. Qed.

(** ** The best path *)

Lemma mapM_Ok {A B : Type} (f : A -> result B) (l : list A) (k : list B) :
  mapM f l = Ok k <-> Forall2 (fun x y => f x = Ok y) l k.
Proof.
  revert k. induction l as [|x l IH]; intros k; simpl.
  - split; [intros [= <-]; constructor|by inversion 1].
  - split.
    + destruct (f x) as [y|] eqn:Hy; [|done]. simpl.
      destruct (mapM f l) as [k'|] eqn:Hk'; [|done]. simpl.
      intros [= <-]. constructor; [done|]. by apply IH.
    + inversion 1 as [|? y ? k' Hy Hk']; subst.
      apply IH in Hk'. by rewrite Hy, Hk'.
Qed.

Lemma mapM_total {A B : Type} (f : A -> result B) (l : list A) :
  Forall (fun x => exists y, f x = Ok y) l -> exists k, mapM f l = Ok k.
Proof.
  induction 1 as [|x l [y Hy] _ [k Hk]]; simpl; [by eexists|].
  rewrite Hy, Hk. by eexists.
Qed.

Section best_path.
Context {num : Type} `{NumberOrder num}.
Implicit Types (g : graph num) (l ws : list num) (m x y : num).

Lemma nltb_true_nleb x y :
  number x -> number y -> nltb x y = true -> nleb x y = true.
Proof.
  intros Hx Hy. rewrite nltb_nleb, negb_true_iff by done. intros Hyx.
  destruct (nleb_total x y) as [?|Hc]; [done..|congruence].
Qed.

Lemma nltb_false_nleb x y :
  number x -> number y -> nltb x y = false -> nleb y x = true.
Proof. intros Hx Hy. by rewrite nltb_nleb, negb_false_iff by done. Qed.

(** [max] returns one of the items, whatever the comparisons answer. *)
Lemma py_max_fold_in l m0 :
  foldl (fun m y => if (y >? m)%num then y else m) m0 l ∈ m0 :: l.
Proof.
  revert m0. induction l as [|x l IH]; intros m0; simpl.
  - apply list_elem_of_here.
  - destruct (nltb m0 x).
    + apply list_elem_of_further, IH.
    + specialize (IH m0). apply elem_of_cons in IH as [->|?];
        [apply list_elem_of_here|by do 2 apply list_elem_of_further].
Qed.

Lemma py_max_fold_spec l m0 :
  Forall number (m0 :: l) ->
  forall y, y ∈ m0 :: l ->
    nleb y (foldl (fun m y => if (y >? m)%num then y else m) m0 l) = true.
Proof.
  revert m0. induction l as [|x l IH]; intros m0 Hnum; simpl.
  - intros y ->%list_elem_of_singleton. by apply Forall_inv in Hnum.
  - apply Forall_cons in Hnum as [Hm0 Hnum].
    pose proof Hnum as [Hx Hl]%Forall_cons.
    destruct (nltb m0 x) eqn:Hlt.
    + intros y [->|Hy]%elem_of_cons; [|by apply IH].
      apply (nleb_trans _ x); [by apply nltb_true_nleb|].
      apply IH; [done|apply list_elem_of_here].
    + assert (Hnum0 : Forall number (m0 :: l)) by by constructor.
      intros y [->|[->|Hy]%elem_of_cons]%elem_of_cons.
      * apply IH; [done|apply list_elem_of_here].
      * apply (nleb_trans _ m0); [by apply nltb_false_nleb|].
        apply IH; [done|apply list_elem_of_here].
      * apply IH; [done|by apply list_elem_of_further].
Qed.

(** [max] of a list that is not empty is one of its items, and bounds all
    of them when they are numbers. *)
Lemma py_max_spec l :
  l <> [] ->
  exists m, py_max l = Ok m /\ m ∈ l /\
    (Forall number l -> forall y, y ∈ l -> nleb y m = true).
Proof.
  destruct l as [|x l]; [done|]. intros _. eexists. split; [done|].
  split; [apply py_max_fold_in|apply py_max_fold_spec].
Qed.

(** [index] finds the first position whose item is the value. *)
Lemma py_index_spec l m :
  m ∈ l ->
  exists i x, py_index l m = Ok i /\ l !! i = Some x /\ neqb x m = true /\
    forall j y, j < i -> l !! j = Some y -> neqb y m = false.
Proof.
  induction l as [|z l IH]; [by intros ?%elem_of_nil|].
  intros Hin. simpl. destruct (neqb z m) eqn:Hz.
  - exists 0, z. split_and!; [done..|]. intros; lia.
  - destruct IH as (i & x & Hi & Hx & Hxm & Hfirst).
    { apply elem_of_cons in Hin as [->|?]; [|done].
      by rewrite neqb_refl in Hz. }
    exists (S i), x. rewrite Hi. split_and!; [done..|].
    intros [|j] y Hj; simpl; [by intros [= <-]|].
    apply Hfirst. lia.
Qed.

End best_path.

Section path_weights.
Context {num : Type} `{Number num}.
Implicit Types (g : graph num) (p : list key).

(** The weight of a path through keys of the store is defined. *)
Lemma path_weight_total g p :
  Forall (fun k => k ∈ g.*1) p -> exists w, path_weight g p = Ok w.
Proof.
  intros Hp. unfold path_weight.
  destruct (mapM_total
    (fun vertex => weight <$> of_option KeyError (dict_get g vertex)) p)
    as [ws ->]; [|by eexists].
  eapply Forall_impl; [done|]. simpl.
  intros k [d ->]%dict_get_is_Some. by eexists.
Qed.

(** [sum(graph[vertex]["weight"] for vertex in path)] is the summed weight
    of the path, and raises [KeyError] where that is undefined. *)
Lemma path_weight_sum g p :
  path_weight g p = of_option KeyError (weight_sum g p).
Proof.
  unfold path_weight, weight_sum, py_sum. generalize (of_Q 0 : num).
  induction p as [|k p IH]; intros acc; simpl; [done|].
  destruct (dict_get g k) as [d|]; simpl; [|done].
  specialize (IH (acc + weight d)%num).
  destruct (mapM _ p) as [ws|]; simpl in *; [done|].
  by destruct (weight_sum_from g _ p).
Qed.

Lemma path_weight_sum_Ok g p w :
  path_weight g p = Ok w <-> weight_sum g p = Some w.
Proof.
  rewrite path_weight_sum. destruct (weight_sum g p); simpl; [|done].
  split; congruence.
Qed.

End path_weights.

Section best_path_claim.
Context {num : Type} `{NumberOrder num}.
Implicit Types (g : graph num) (l ws : list num) (m x y : num).

(** C7, on numbers.  When the end vertex is in the store, some path is
    enumerated and the summed weight of every enumerated path is a number
    (not a NaN), [find_shortest_path] returns one of the enumerated
    paths; its summed weight is at least that of every enumerated path,
    and every path enumerated before it weighs strictly less, so that
    among the paths of greatest weight it is the first. *)
Theorem C7_find_shortest_path_first_maximal g s e paths :
  e ∈ vertices g ->
  find_all_paths g s e = Ok paths -> paths <> [] ->
  (forall p w, p ∈ paths -> weight_sum g p = Some w -> number w) ->
  exists best w i,
    find_shortest_path g s e = Ok best
    /\ paths !! i = Some best
    /\ weight_sum g best = Some w
    /\ (forall p, p ∈ paths ->
          exists w', weight_sum g p = Some w' /\ nleb w' w = true)
    /\ (forall j p, j < i -> paths !! j = Some p ->
          exists w', weight_sum g p = Some w' /\ nltb w' w = true).
Proof.
  intros He Hpaths Hne Hnum. unfold vertices in He.
  assert (Hdef : Forall (fun p => exists w, path_weight g p = Ok w) paths).
  { apply Forall_forall. intros p Hp.
    destruct (find_all_paths_spec g s e paths p Hpaths Hp)
      as (_ & _ & q & -> & Hq).
    apply path_weight_total, Forall_app. split; [done|].
    by apply Forall_singleton. }
  destruct (mapM_total _ _ Hdef) as [ws Hws].
  pose proof Hws as Hall. apply mapM_Ok in Hall.
  assert (Hwne : ws <> []).
  { intros ->. apply Forall2_nil_inv_r in Hall. done. }
  assert (Hnums : Forall number ws).
  { apply Forall_forall. intros w [k Hk]%list_elem_of_lookup.
    destruct (Forall2_lookup_r _ _ _ _ _ Hall Hk) as (p & Hp & Hpw).
    apply (Hnum p); [by eapply list_elem_of_lookup_2|].
    by apply path_weight_sum_Ok. }
  destruct (py_max_spec ws Hwne) as (m & Hm & Hmin & Hmax).
  specialize (Hmax Hnums). rewrite Forall_forall in Hnums.
  destruct (py_index_spec ws m Hmin) as (i & w & Hi & Hw & Hwm & Hfirst).
  destruct (Forall2_lookup_r _ _ _ _ _ Hall Hw) as (best & Hbest & Hbw).
  assert (Hnw : number w) by by eapply Hnums, list_elem_of_lookup_2.
  assert (Hnm : number m) by by apply Hnums.
  rewrite neqb_nleb, andb_true_iff in Hwm by done.
  destruct Hwm as [Hwm Hmw].
  exists best, w, i. split_and!; [|done|by apply path_weight_sum_Ok| |].
  - unfold find_shortest_path, get_path_weights.
    rewrite Hpaths. simpl. rewrite Hws. simpl. rewrite Hm. simpl.
    rewrite Hi. simpl. by rewrite Hbest.
  - intros p [k Hk]%list_elem_of_lookup.
    destruct (Forall2_lookup_l _ _ _ _ _ Hall Hk) as (w' & Hw' & Hpw).
    exists w'. split; [by apply path_weight_sum_Ok|].
    apply (nleb_trans _ m); [|done]. apply Hmax.
    apply list_elem_of_lookup. eauto.
  - intros j p Hj Hp.
    destruct (Forall2_lookup_l _ _ _ _ _ Hall Hp) as (w' & Hw' & Hpw).
    exists w'. split; [by apply path_weight_sum_Ok|].
    assert (Hnw' : number w') by by eapply Hnums, list_elem_of_lookup_2.
    specialize (Hfirst j w' Hj Hw').
    rewrite neqb_nleb in Hfirst by done.
    assert (Hle : nleb w' m = true).
    { apply Hmax. apply list_elem_of_lookup. eauto. }
    rewrite Hle in Hfirst. simpl in Hfirst.
    rewrite nltb_nleb, negb_true_iff by done.
    destruct (nleb w w') eqn:Hww; [|done].
    rewrite (nleb_trans m w w') in Hfirst; done.
Qed.

End best_path_claim.

(** The exact rationals satisfy the laws of the order. *)
#[global] Instance Q_NumberOrder : NumberOrder Q.
Proof.
  split; simpl; unfold Qlt_bool.
  - intros a b _ _. rewrite !Qle_bool_iff.
    destruct (Qlt_le_dec a b) as [?%Qlt_le_weak|?]; auto.
  - intros a b c. rewrite !Qle_bool_iff. apply Qle_trans.
  - done.
  - intros a b _ _. apply eq_true_iff_eq.
    rewrite andb_true_iff, Qeq_bool_iff, !Qle_bool_iff.
    split; [intros ->; split; apply Qle_refl|intros []; by apply Qle_antisym].
  - intros a. apply Qeq_bool_iff. reflexivity.
Qed.

(** *** The order of binary64

    The comparisons of binary64 are those of the specification of IEEE
    754 that the kernel's floats are given.  Away from NaN they order the
    values as the triples below are ordered: by sign class, then by
    exponent, then by mantissa. *)

Lemma lex_compare_spec (a b : Z * Z * Z) :
  match lex_compare a b with
  | Lt => lex_lt a b
  | Eq => a = b
  | Gt => lex_lt b a
  end.
Proof.
  destruct a as [[a1 a2] a3], b as [[b1 b2] b3].
  unfold lex_compare, lex_lt. simpl.
  destruct (Z.compare_spec a1 b1); [|lia..].
  destruct (Z.compare_spec a2 b2); [|lia..].
  destruct (Z.compare_spec a3 b3); [congruence|lia..].
Qed.

Lemma SFcompare_key (f1 f2 : spec_float) :
  f1 <> S754_nan -> f2 <> S754_nan ->
  SFcompare f1 f2 = Some (lex_compare (SFkey f1) (SFkey f2)).
Proof.
  intros H1 H2.
  destruct f1 as [s1|s1| |s1 m1 e1], f2 as [s2|s2| |s2 m2 e2]; try done;
    try (by destruct s1); try (by destruct s2);
    try (by destruct s1, s2).
  destruct s1, s2; simpl; try done; unfold lex_compare; simpl.
  rewrite Z.compare_opp, (Z.compare_antisym e1 e2).
  by destruct (e1 ?= e2)%Z.
Qed.

Lemma leb_not_nan (x y : float) :
  PrimFloat.leb x y = true ->
  Prim2SF x <> S754_nan /\ Prim2SF y <> S754_nan.
Proof.
  rewrite FloatAxioms.leb_spec. unfold SFleb.
  destruct (Prim2SF x), (Prim2SF y); done.
Qed.

Lemma leb_key (x y : float) :
  Prim2SF x <> S754_nan -> Prim2SF y <> S754_nan ->
  (PrimFloat.leb x y = true <-> lex_le (SFkey (Prim2SF x)) (SFkey (Prim2SF y)))
  /\ (PrimFloat.ltb x y = true <-> lex_lt (SFkey (Prim2SF x)) (SFkey (Prim2SF y)))
  /\ (PrimFloat.eqb x y = true <-> SFkey (Prim2SF x) = SFkey (Prim2SF y)).
Proof.
  intros Hx Hy. rewrite FloatAxioms.leb_spec, FloatAxioms.ltb_spec, FloatAxioms.eqb_spec.
  unfold SFleb, SFltb, SFeqb. rewrite (SFcompare_key _ _ Hx Hy).
  pose proof (lex_compare_spec (SFkey (Prim2SF x)) (SFkey (Prim2SF y))) as Hc.
  destruct (SFkey (Prim2SF x)) as [[a1 a2] a3], (SFkey (Prim2SF y)) as [[b1 b2] b3].
  unfold lex_le, lex_lt in *. simpl in *.
  destruct (lex_compare _ _); simpl in *;
    [injection Hc as -> -> ->|..];
    split_and!; split; intros Hh; try done; try lia;
    injection Hh as -> -> ->; lia.
Qed.


(** Binary64 satisfies the laws of the order: on the values that are not
    NaN its comparisons are a total order, and [index] finds a NaN at its
    own position. *)
#[global] Instance float_NumberOrder : NumberOrder float.
Proof.
  split; unfold number; simpl.
  - intros a b [Ha _]%leb_not_nan [Hb _]%leb_not_nan.
    destruct (leb_key a b Ha Hb) as (-> & _ & _).
    destruct (leb_key b a Hb Ha) as (-> & _ & _).
    unfold lex_le. lia.
  - intros a b c Hab Hbc.
    pose proof (leb_not_nan _ _ Hab) as [Ha Hb].
    pose proof (leb_not_nan _ _ Hbc) as [_ Hc].
    destruct (leb_key a b Ha Hb) as (Hab' & _ & _).
    destruct (leb_key b c Hb Hc) as (Hbc' & _ & _).
    destruct (leb_key a c Ha Hc) as (-> & _ & _).
    apply Hab' in Hab. apply Hbc' in Hbc.
    unfold lex_le in *. lia.
  - intros a b [Ha _]%leb_not_nan [Hb _]%leb_not_nan.
    apply eq_true_iff_eq. rewrite negb_true_iff, <- not_true_iff_false.
    destruct (leb_key a b Ha Hb) as (_ & -> & _).
    destruct (leb_key b a Hb Ha) as (-> & _ & _).
    unfold lex_le, lex_lt. lia.
  - intros a b Haa Hbb.
    pose proof (leb_not_nan _ _ Haa) as [Ha _].
    pose proof (leb_not_nan _ _ Hbb) as [Hb _].
    unfold float_same, PrimFloat.is_nan.
    assert (Heq : PrimFloat.eqb a a = true).
    { by apply (leb_key a a Ha Ha). }
    rewrite Heq. simpl. rewrite orb_false_r.
    apply eq_true_iff_eq. rewrite andb_true_iff.
    destruct (leb_key a b Ha Hb) as (-> & _ & ->).
    destruct (leb_key b a Hb Ha) as (-> & _ & _).
    unfold lex_le.
    destruct (SFkey (Prim2SF a)) as [[a1 a2] a3],
      (SFkey (Prim2SF b)) as [[b1 b2] b3]. simpl.
    split; [intros [= -> -> ->]; lia|].
    intros [? ?]. f_equal; [f_equal|]; lia.
  - intros a. unfold float_same, PrimFloat.is_nan.
    by destruct (PrimFloat.eqb a a).
Qed.

(** ** The proximity test *)

Section proximity.
Context {num : Type} `{NumberOrder num}.
Implicit Types (g todo : graph num) (new_loc : point (num:=num)).

(** [norm(a - b)] is the distance from [a] to [b]. *)
Lemma norm_vsub (a b : point (num:=num)) : norm (vsub a b) = distance a b.
Proof. reflexivity. Qed.

(** [min] returns one of the entries, whatever the comparisons answer. *)
Lemma py_min_by_fold_in (l : list (key * num)) (e0 : key * num) :
  foldl (fun m e' => if (e'.2 <? m.2)%num then e' else m) e0 l ∈ e0 :: l.
Proof.
  revert e0. induction l as [|e1 l IH]; intros e0; simpl.
  - apply list_elem_of_here.
  - destruct (nltb e1.2 e0.2).
    + apply list_elem_of_further, IH.
    + specialize (IH e0). apply elem_of_cons in IH as [->|?];
        [apply list_elem_of_here|by do 2 apply list_elem_of_further].
Qed.

Lemma py_min_by_fold_spec (l : list (key * num)) (e0 : key * num) :
  Forall (fun e => number e.2) (e0 :: l) ->
  forall e, e ∈ e0 :: l ->
    nleb (foldl (fun m e' => if (e'.2 <? m.2)%num then e' else m) e0 l).2 e.2
    = true.
Proof.
  revert e0. induction l as [|e1 l IH]; intros e0 Hnum; simpl.
  - intros e ->%list_elem_of_singleton. by apply Forall_inv in Hnum.
  - apply Forall_cons in Hnum as [H0' Hnum].
    pose proof Hnum as [H1' Hl]%Forall_cons.
    destruct (nltb e1.2 e0.2) eqn:Hlt.
    + intros e [->|He]%elem_of_cons; [|by apply IH].
      apply (nleb_trans _ e1.2); [|by apply nltb_true_nleb].
      apply IH; [done|apply list_elem_of_here].
    + assert (Hnum0 : Forall (fun e => number e.2) (e0 :: l))
        by by constructor.
      intros e [->|[->|He]%elem_of_cons]%elem_of_cons.
      * apply IH; [done|apply list_elem_of_here].
      * apply (nleb_trans _ e0.2); [|by apply nltb_false_nleb].
        apply IH; [done|apply list_elem_of_here].
      * apply IH; [done|by apply list_elem_of_further].
Qed.

Lemma get_nearest_vertex_total g new_loc :
  g <> [] -> located g -> exists k, get_nearest_vertex g new_loc = Ok k.
Proof.
  intros Hne Hloc. unfold get_nearest_vertex.
  destruct (mapM_total (dist_entry new_loc) g) as [dists Hd].
  { eapply Forall_impl; [exact Hloc|]. simpl.
    intros [v d] [l Hl]. unfold dist_entry. simpl in *. rewrite Hl.
    by eexists. }
  unfold dist_entry in Hd. rewrite Hd. simpl.
  apply mapM_Ok in Hd. destruct dists as [|e dists].
  - apply Forall2_nil_inv_r in Hd. done.
  - by eexists.
Qed.

(** The key [get_nearest_vertex] returns belongs to an entry of the store
    whose distance to the point is at most that of every entry, when the
    distances are numbers. *)
Lemma get_nearest_vertex_spec g new_loc k :
  distances_are_numbers g new_loc ->
  get_nearest_vertex g new_loc = Ok k ->
  exists d l, (k, d) ∈ g /\ loc d = Some l /\
    forall vertex' d' l', (vertex', d') ∈ g -> loc d' = Some l' ->
      nleb (distance l new_loc) (distance l' new_loc) = true.
Proof.
  unfold get_nearest_vertex. intros Hnum Hrun.
  destruct (mapM _ g) as [dists|] eqn:Hd; [|done]. simpl in Hrun.
  apply mapM_Ok in Hd.
  assert (Hnums : Forall (fun e : key * num => number e.2) dists).
  { apply Forall_forall. intros e [i Hi]%list_elem_of_lookup.
    destruct (Forall2_lookup_r _ _ _ _ _ Hd Hi) as ([v d] & Hg & He).
    simpl in He. destruct (loc d) as [l|] eqn:Hl; [|done]. simpl in He.
    injection He as <-. unfold distances_are_numbers in Hnum.
    rewrite Forall_forall in Hnum.
    apply (Hnum (v, d)); [by eapply list_elem_of_lookup_2|done]. }
  destruct dists as [|e0 dists]; [done|].
  simpl in Hrun. injection Hrun as Hk.
  pose proof (py_min_by_fold_in dists e0) as Hin.
  pose proof (py_min_by_fold_spec dists e0 Hnums) as Hmin.
  set (m := foldl _ e0 dists) in *.
  apply list_elem_of_lookup in Hin as [i Hi].
  destruct (Forall2_lookup_r _ _ _ _ _ Hd Hi) as ([v d] & Hg & Hm).
  simpl in Hm. destruct (loc d) as [l|] eqn:Hl; [|done]. simpl in Hm.
  injection Hm as Hm. exists d, l. split_and!; [|done|].
  - rewrite <- Hk, <- Hm. simpl. apply list_elem_of_lookup. eauto.
  - intros v' d' l' [j Hj]%list_elem_of_lookup Hl'.
    destruct (Forall2_lookup_l _ _ _ _ _ Hd Hj) as (e' & He' & Hde).
    simpl in Hde. rewrite Hl' in Hde. simpl in Hde. injection Hde as <-.
    specialize (Hmin (v', norm (vsub l' new_loc))).
    rewrite <- Hm in Hmin. simpl in Hmin. apply Hmin.
    apply list_elem_of_lookup. eauto.
Qed.

(** The loop of [is_too_close]: it returns [False] when no visited vertex
    is strictly nearer than the threshold, and the answer of
    [get_nearest_vertex] at the first vertex that is. *)
Lemma is_too_close_loop_spec g new_loc todo :
  located todo ->
  (todo <> [] -> exists k, get_nearest_vertex g new_loc = Ok k) ->
  (is_too_close_loop g new_loc todo = Ok None
   /\ forall vertex d l, (vertex, d) ∈ todo -> loc d = Some l ->
        nltb (distance new_loc l) (r * of_Q 1.4)%num = false)
  \/ (exists k, is_too_close_loop g new_loc todo = Ok (Some k)
      /\ get_nearest_vertex g new_loc = Ok k
      /\ exists vertex d l, (vertex, d) ∈ todo /\ loc d = Some l
           /\ nltb (distance new_loc l) (r * of_Q 1.4)%num = true).
Proof.
  intros Hloc Hnear. induction todo as [|[v d] todo IH]; simpl.
  - left. split; [done|]. by intros ? ? ? ?%elem_of_nil.
  - apply Forall_cons in Hloc as [[l Hl] Hloc]. simpl in Hl.
    rewrite Hl. simpl. rewrite norm_vsub.
    destruct (nltb (distance new_loc l) (r * of_Q 1.4)%num) eqn:Hlt.
    + right. destruct Hnear as [k Hk]; [done|]. exists k. rewrite Hk.
      split_and!; [done..|]. exists v, d, l.
      split_and!; [apply list_elem_of_here|done..].
    + destruct IH as [[Hrun Hfar]|(k & Hrun & Hk & v' & d' & l' & Hin & ? & ?)];
        [done| | |].
      * intros _. destruct Hnear as [k Hk]; [done|eauto].
      * left. split; [done|].
        intros v' d' l' [[= -> ->]|Hin]%elem_of_cons Hl'.
        -- rewrite Hl in Hl'. by injection Hl' as <-.
        -- eauto.
      * right. exists k. split_and!; [done..|]. exists v', d', l'.
        split_and!; [by apply list_elem_of_further|done..].
Qed.

Lemma is_too_close_total g new_loc :
  located g -> exists res, is_too_close g new_loc = Ok res.
Proof.
  intros Hloc. unfold is_too_close.
  destruct (is_too_close_loop_spec g new_loc g Hloc)
    as [[Hrun _]|(k & Hrun & _)]; [|by eexists..].
  intros Hne. by apply get_nearest_vertex_total.
Qed.

(** C8, on numbers.  On a store whose vertices all have a position, and
    for a point whose distances to them are numbers (not NaN),
    [is_too_close] returns; it returns [False] exactly when every vertex
    is at distance at least [1.4 * r] from the point (a vertex at exactly
    that distance does not count as close); and a key it returns is that
    of a vertex whose distance to the point is at most that of every
    vertex.  The distances are the computed ones. *)
Theorem C8_is_too_close_threshold_and_nearest g new_loc :
  located g ->
  number (r * of_Q 1.4)%num ->
  distances_are_numbers g new_loc ->
  (exists res, is_too_close g new_loc = Ok res)
  /\ (is_too_close g new_loc = Ok None <->
      forall vertex d l, (vertex, d) ∈ g -> loc d = Some l ->
        nleb (r * of_Q 1.4)%num (distance new_loc l) = true)
  /\ (forall k, is_too_close g new_loc = Ok (Some k) ->
      exists d l, (k, d) ∈ g /\ loc d = Some l /\
        forall vertex' d' l', (vertex', d') ∈ g -> loc d' = Some l' ->
          nleb (distance l new_loc) (distance l' new_loc) = true).
Proof.
  intros Hloc Hthr Hnum. unfold is_too_close.
  assert (Hge : forall vertex d l, (vertex, d) ∈ g -> loc d = Some l ->
            nltb (distance new_loc l) (r * of_Q 1.4)%num
            = negb (nleb (r * of_Q 1.4)%num (distance new_loc l))).
  { intros v d l Hin Hl. apply nltb_nleb; [|done].
    unfold distances_are_numbers in Hnum. rewrite Forall_forall in Hnum.
    by apply (Hnum (v, d)). }
  destruct (is_too_close_loop_spec g new_loc g Hloc)
    as [[Hrun Hfar]|(k & Hrun & Hk & v & d & l & Hin & Hl & Hlt)].
  { intros Hne. by apply get_nearest_vertex_total. }
  - rewrite Hrun. split_and!; [eauto| |done].
    split; [|done]. intros _ v d l Hin Hl.
    specialize (Hfar v d l Hin Hl). rewrite (Hge v d l Hin Hl) in Hfar.
    by apply negb_false_iff.
  - rewrite Hrun. split_and!; [eauto| |].
    + split; [done|]. intros Hfar. specialize (Hfar v d l Hin Hl).
      rewrite (Hge v d l Hin Hl), Hfar in Hlt. done.
    + intros k' [= <-]. by apply get_nearest_vertex_spec.
Qed.

End proximity.

(** ** The expansion point *)

Section expansion_point.
Context {num : Type} `{Number num}.
Implicit Types (g : graph num) (F : point (num:=num)).

(** C4, as the code has it.  With the net force [F] on the vertex, its
    position [x0] and the four draws [u1], [u2], [u3], [u4] read in this
    order, [pick_expansion_point] returns [x0] plus the step of length [r]
    along [(Fx', Fy')], where [Fx' = Fx * (u1 + Fy * u2)] and
    [Fy' = Fy * (u3 + Fx' * u4)]: the second component uses the first one
    after its perturbation.  No other draw is read. *)
Theorem C4_pick_expansion_point_formula g vertex F x0 u1 u2 u3 u4 tape :
  net_force g vertex = Ok F ->
  loc_of g vertex = Ok x0 ->
  pick_expansion_point g vertex (u1 :: u2 :: u3 :: u4 :: tape) =
    Ok (vadd x0 (scaled_step (perturbed F u1 u2 u3 u4)), tape).
Proof.
  intros HF Hx0. unfold pick_expansion_point. rewrite HF. simpl.
  by rewrite Hx0.
Qed.

End expansion_point.

(** On the rationals the step [F * (r / norm F)] is [r * normalize(F)]. *)
Lemma scaled_step_normalized (F : point (num:=Q)) :
  (scaled_step F).1 == (r_times_normalized F).1
  /\ (scaled_step F).2 == (r_times_normalized F).2.
Proof.
  unfold scaled_step, r_times_normalized, Qdiv. simpl. split; unfold Qdiv; ring.
Qed.

(** C4 at [store_3_4], vertex ["1"], draws [1], [1/4], [1/8], [1/6]. *)
Lemma C4_pick_expansion_point_formula_witness :
  pick_expansion_point store_3_4 (KStr "1") [1; 1 # 4; 1 # 8; 1 # 6]%Q =
    Ok (vadd (3, 4)%Q
          (scaled_step
             (perturbed (375 # 125, 500 # 125)%Q 1 (1 # 4) (1 # 8) (1 # 6))%Q),
        []).
Proof.
  exact (C4_pick_expansion_point_formula store_3_4 (KStr "1")
           (375 # 125, 500 # 125)%Q (3, 4)%Q 1%Q (1 # 4)%Q (1 # 8)%Q (1 # 6)%Q
           [] eq_refl eq_refl).
Defined.

(** C4 fails as stated.  At [store_3_4] the net force on ["1"] is
    [(3, 4)]; with the draws [1], [1/4], [1/8], [1/6] the first component
    becomes [6], and the code scales the second by [1/8 + 6 * 1/6], which
    gives the point [(19/5, 23/5)]; the formula with the original first
    component, [1/8 + 3 * 1/6], gives [(51/13, 57/13)]. *)
Lemma C4_second_component_counterexample :
  exists p q : point,
    pick_expansion_point store_3_4 (KStr "1") [1; 1 # 4; 1 # 8; 1 # 6]%Q =
      Ok (p, [])
    /\ specified_expansion_point store_3_4 (KStr "1")
         1%Q (1 # 4)%Q (1 # 8)%Q (1 # 6)%Q = Ok q
    /\ (p.1 == 19 # 5 /\ p.2 == 23 # 5)%Q
    /\ (q.1 == 51 # 13 /\ q.2 == 57 # 13)%Q
    /\ ~ (p.1 == q.1)%Q /\ ~ (p.2 == q.2)%Q.
Proof.
  eexists. eexists.
  split; [vm_compute; reflexivity|].
  split; [vm_compute; reflexivity|].
  split; [split; vm_compute; reflexivity|].
  split; [split; vm_compute; reflexivity|].
  split; intros Heq; vm_compute in Heq; discriminate.
Qed.

(** ** The expansion vertex *)

Section expansion_vertex.
Context {num : Type} `{Number num}.
Implicit Types (g : graph num).

(** C5, as the code has it.  When the roulette loop runs off the end of
    the forces, [pick_expansion_vertex] returns the integer [0], whatever
    the keys of the store are; one draw has been read. *)
Theorem C5_pick_expansion_vertex_fallback_is_int_zero g forces u tape :
  net_forces g = Ok forces ->
  roulette (u * py_sum (norm <$> forces.*2))%num forces = None ->
  pick_expansion_vertex g (u :: tape) = Ok (KInt 0, tape).
Proof.
  intros Hf Hr. unfold pick_expansion_vertex. rewrite Hf. simpl.
  by rewrite Hr.
Qed.

Lemma pick_expansion_vertex_hit g forces u tape vertex :
  net_forces g = Ok forces ->
  roulette (u * py_sum (norm <$> forces.*2))%num forces = Some vertex ->
  pick_expansion_vertex g (u :: tape) = Ok (vertex, tape).
Proof.
  intros Hf Hr. unfold pick_expansion_vertex. rewrite Hf. simpl.
  by rewrite Hr.
Qed.

End expansion_vertex.

(** C5 at [store_coincident] with the draw [0.5]: the remaining mass is a
    NaN, no test [P <= 0] succeeds, and the result is the integer [0],
    while the first vertex of the store is the string ["0"]. *)
Lemma C5_pick_expansion_vertex_fallback_witness :
  head (vertices store_coincident) = Some (KStr "0")
  /\ pick_expansion_vertex store_coincident [0.5%float] = Ok (KInt 0, []).
Proof.
  split; [reflexivity|].
  apply (C5_pick_expansion_vertex_fallback_is_int_zero store_coincident
           [(KStr "0", (nan, nan)); (KStr "1", (nan, nan))]%float).
  - vm_compute. reflexivity.
  - vm_compute. reflexivity.
Defined.

(** ** The reinforcement rule *)

Section reinforcement.
Context {num : Type} `{Number num}.
Implicit Types (g : graph num) (k seed : key) (path : list key).

Lemma reinforce_vertex_Ok g k g' :
  reinforce_vertex g k = Ok g' ->
  exists d b, dict_get g k = Some d /\ burnt d = Some b /\
    g' = dict_set g k {| weight := strengthen k (weight d);
                         neighbors := neighbors d; loc := loc d;
                         burnt := Some (bump b) |}.
Proof.
  unfold reinforce_vertex. destruct (dict_get g k) as [d|]; [|done]. simpl.
  destruct (burnt d) as [b|] eqn:Hb; [|done]. simpl. intros [= <-].
  by exists d, b.
Qed.

Lemma decay_vertex_Ok g k g' :
  decay_vertex g k = Ok g' ->
  exists d, dict_get g k = Some d /\
    (g' = dict_set g k {| weight := decay (weight d);
                          neighbors := neighbors d; loc := loc d;
                          burnt := burnt d |}
     \/ g' = g).
Proof.
  unfold decay_vertex, decay. destruct (dict_get g k) as [d|]; [|done]. simpl.
  destruct (nltb _ _) eqn:Hlt; intros [= <-]; exists d; rewrite Hlt; eauto.
Qed.

Lemma for_each_inv (P : graph num -> Prop) body g l g' :
  (forall g1 x g2, P g1 -> x ∈ l -> body g1 x = Ok g2 -> P g2) ->
  P g -> for_each body g l = Ok g' -> P g'.
Proof.
  revert g. induction l as [|x l IH]; intros g Hstep Hg; simpl.
  - by intros [= <-].
  - destruct (body g x) as [g1|] eqn:Hb; [|done]. simpl. apply IH.
    + intros g2 y g3 ? ?. apply Hstep. done. by apply list_elem_of_further.
    + eapply Hstep; [done|apply list_elem_of_here|done].
Qed.

Lemma same_shape_refl g : same_shape g g.
Proof. by split. Qed.

Lemma same_shape_set g0 g k d d' :
  same_shape g0 g -> dict_get g k = Some d ->
  neighbors d' = neighbors d -> loc d' = loc d ->
  same_shape g0 (dict_set g k d').
Proof.
  intros [Hkeys Hall] Hd Hn Hl. split.
  - rewrite dict_set_keys_present; [done|]. apply dict_get_is_Some. eauto.
  - intros k'. rewrite dict_get_set. case_decide as Hk; [subst k'|done].
    destruct (Hall k) as [<- <-]. rewrite Hd. simpl. by rewrite Hn, Hl.
Qed.

(** The reinforcement writes weights and activations only: keys,
    neighbour lists and positions stay. *)
Lemma set_active_states_same_shape g seed g' :
  set_active_states g seed = Ok g' -> same_shape g g'.
Proof.
  unfold set_active_states.
  destruct (find_shortest_path g seed (KStr "0")) as [path|]; [|done].
  simpl. destruct (for_each reinforce_vertex g path) as [g1|] eqn:H1; [|done].
  simpl. intros H2.
  eapply for_each_inv in H1; [|clear H1 H2|apply same_shape_refl].
  - eapply for_each_inv in H2; [done| |exact H1].
    intros ga x gb Hs _ (d & Hd & [->| ->])%decay_vertex_Ok; [|done].
    by eapply same_shape_set.
  - intros ga x gb Hs _ (d & b & Hd & _ & ->)%reinforce_vertex_Ok.
    by eapply same_shape_set.
Qed.

Lemma for_each_reinforce_burnt g path g' :
  NoDup path -> for_each reinforce_vertex g path = Ok g' ->
  forall k, burnt_at g' k =
    if bool_decide (k ∈ path) then fmap (M:=option) bump <$> burnt_at g k
    else burnt_at g k.
Proof.
  revert g. induction path as [|x path IH]; intros g Hnd; simpl.
  - by intros [= <-].
  - apply NoDup_cons in Hnd as [Hx Hnd].
    destruct (reinforce_vertex g x) as [g1|] eqn:Hr; [|done]. simpl.
    intros Hrun k. rewrite (IH g1 Hnd Hrun k).
    apply reinforce_vertex_Ok in Hr as (d & b & Hd & Hb & ->).
    unfold burnt_at. rewrite dict_get_set.
    destruct (decide (k = x)) as [->|Hne].
    + rewrite (bool_decide_eq_false_2 _ Hx), bool_decide_eq_true_2
        by apply list_elem_of_here.
      rewrite Hd. simpl. by rewrite Hb.
    + case_bool_decide as Hk.
      * rewrite bool_decide_eq_true_2; [done|]. by apply list_elem_of_further.
      * rewrite bool_decide_eq_false_2; [done|].
        by intros [?|?]%elem_of_cons.
Qed.

Lemma for_each_decay_burnt g l g' :
  for_each decay_vertex g l = Ok g' -> forall k, burnt_at g' k = burnt_at g k.
Proof.
  intros Hrun. eapply (for_each_inv (fun g1 => forall k, burnt_at g1 k = burnt_at g k));
    [|done|exact Hrun].
  intros ga x gb Hs _ (d & Hd & [->| ->])%decay_vertex_Ok k; [|done].
  rewrite <- Hs. unfold burnt_at. rewrite dict_get_set.
  case_decide as Hk; [subst k|done]. by rewrite Hd.
Qed.

(** One call of [set_active_states]: on the best path to the root every
    activation goes through [bump], off the path no activation changes. *)
Lemma set_active_states_burnt g seed g' :
  set_active_states g seed = Ok g' ->
  exists path, find_shortest_path g seed (KStr "0") = Ok path /\
    forall k, burnt_at g' k =
      if bool_decide (k ∈ path) then fmap (M:=option) bump <$> burnt_at g k
      else burnt_at g k.
Proof.
  unfold set_active_states.
  destruct (find_shortest_path g seed (KStr "0")) as [path|] eqn:Hp; [|done].
  simpl. destruct (for_each reinforce_vertex g path) as [g1|] eqn:H1; [|done].
  simpl. intros H2. exists path. split; [done|]. intros k.
  rewrite (for_each_decay_burnt _ _ _ H2 k).
  apply for_each_reinforce_burnt; [|done].
  unfold find_shortest_path in Hp.
  destruct (find_all_paths g seed (KStr "0")) as [paths|] eqn:Hps; [|done].
  simpl in Hp. destruct (get_path_weights _ _ _) as [ws|]; [|done].
  simpl in Hp. destruct (py_max ws) as [m|]; [|done]. simpl in Hp.
  destruct (py_index ws m) as [i|]; [|done]. simpl in Hp.
  destruct (paths !! i) as [p|] eqn:Hi; [|done]. injection Hp as <-.
  eapply find_all_paths_spec; [done|]. apply list_elem_of_lookup. eauto.
Qed.

(** What [LichtenbergGraph.add_vertex] leaves at the key: activation [0]
    in every case. *)
Lemma add_vertex_burnt g k neigh pos w :
  burnt_at (LichtenbergGraph.add_vertex g k neigh pos w) k =
    Some (Some (of_Q 0)).
Proof.
  unfold LichtenbergGraph.add_vertex, burnt_at.
  destruct (dict_get (Graph.add_vertex g k neigh w) k) as [d|] eqn:Hd.
  - by rewrite dict_get_set_eq.
  - exfalso. revert Hd. unfold Graph.add_vertex.
    destruct (dict_mem g k) eqn:Hm; simpl.
    + apply dict_mem_true in Hm as [? ->]. done.
    + by rewrite dict_get_set_eq.
Qed.

Lemma add_vertex_burnt_other g k neigh pos w k' :
  k' <> k ->
  burnt_at (LichtenbergGraph.add_vertex g k neigh pos w) k' = burnt_at g k'.
Proof.
  intros Hne. unfold LichtenbergGraph.add_vertex, burnt_at.
  assert (Hg : dict_get (Graph.add_vertex g k neigh w) k' = dict_get g k').
  { unfold Graph.add_vertex. destruct (negb _); [|done].
    by rewrite dict_get_set_ne. }
  destruct (dict_get (Graph.add_vertex g k neigh w) k) as [d|]; [|by rewrite Hg].
  by rewrite !dict_get_set_ne, Hg.
Qed.

End reinforcement.

(** ** The growth step *)

Section growth.
Context {num : Type} `{Number num}.
Implicit Types (g : graph num) (k v : key) (tape : list num).

Lemma make_new_vertex_inv depth g tape g' tape' :
  make_new_vertex (S depth) g tape = Ok (g', tape') ->
  exists v p near tape1,
    attempt g tape = Ok (v, p, near, tape1)
    /\ ((retries v near = false
         /\ set_active_states (inserted g v p) v = Ok g' /\ tape' = tape1)
        \/ (retries v near = true
            /\ exists g1, make_new_vertex depth g tape1 = Ok (g1, tape')
                 /\ set_active_states g1 v = Ok g')).
Proof.
  simpl. unfold attempt.
  destruct (pick_expansion_vertex g tape) as [[v t1]|]; [|done]. simpl.
  destruct (pick_expansion_point g v t1) as [[p t2]|]; [|done]. simpl.
  destruct (is_too_close g p) as [near|]; [|done]. simpl.
  fold (retries v near). intros Hrun. exists v, p, near, t2.
  split; [done|]. destruct (retries v near).
  - right. split; [done|].
    destruct (make_new_vertex depth g t2) as [[g1 t3]|]; [|done].
    simpl in Hrun. destruct (set_active_states g1 v) as [g2|] eqn:Hs; [|done].
    simpl in Hrun. injection Hrun as <- <-. eauto.
  - left. split; [done|]. simpl in Hrun. fold (fresh_key g) in Hrun.
    fold (inserted g v p) in Hrun.
    destruct (set_active_states (inserted g v p) v) as [g2|]; [|done].
    simpl in Hrun. by injection Hrun as <- <-.
Qed.

Lemma dict_get_app_absent {V : Type} (d : list (key * V)) k x k' :
  dict_get (d ++ [(k, x)]) k' =
  match dict_get d k' with
  | Some y => Some y
  | None => if decide (k' = k) then Some x else None
  end.
Proof.
  induction d as [|[k0 y0] d IH]; simpl; [done|].
  destruct (decide (k' = k0)); [done|apply IH].
Qed.

Lemma dict_set_app_absent {V : Type} (d : list (key * V)) k x y :
  k ∉ d.*1 -> dict_set (d ++ [(k, x)]) k y = d ++ [(k, y)].
Proof.
  induction d as [|[k0 y0] d IH]; simpl.
  - by rewrite decide_True.
  - rewrite not_elem_of_cons. intros [Hne Hin].
    rewrite decide_False by done. f_equal. by apply IH.
Qed.

(** The insert of a key that is not in the store appends one vertex with
    the given neighbours, position and weight, and activation [0]. *)
Lemma add_vertex_absent g k neigh pos w :
  dict_mem g k = false ->
  LichtenbergGraph.add_vertex g k neigh pos w =
  g ++ [(k, {| weight := w; neighbors := default [] neigh;
               loc := Some (default (of_Q 0, of_Q 0) pos);
               burnt := Some (of_Q 0) |})].
Proof.
  intros Hk. unfold LichtenbergGraph.add_vertex.
  rewrite Graph_add_vertex_absent by done.
  pose proof Hk as Hnone. apply dict_mem_false in Hnone.
  rewrite dict_get_app_absent, Hnone, decide_True by done. simpl.
  assert (Hin : k ∉ g.*1).
  { unfold dict_mem in Hk. by apply bool_decide_eq_false_1 in Hk. }
  by rewrite !dict_set_app_absent.
Qed.

Lemma pick_expansion_point_in_store g v tape res :
  pick_expansion_point g v tape = Ok res -> is_Some (dict_get g v).
Proof.
  unfold pick_expansion_point.
  destruct (net_force g v) as [F|]; [|done]. simpl.
  destruct tape as [|u1 [|u2 [|u3 [|u4 tape]]]]; try done. simpl.
  unfold loc_of. destruct (dict_get g v); [eauto|done].
Qed.

End growth.

(** C2 fails as stated.  At the store of the driver with every draw
    [0.5] the step picks ["0"] and inserts ["2"] with the neighbour
    ["0"]; after it the neighbours of the expansion vertex ["0"] do not
    hold the new key ["2"]. *)
Lemma C2_reverse_link_missing_counterexample :
  exists g', make_new_vertex 1 store_driver draws_half = Ok (g', [])
    /\ attempt store_driver draws_half =
         Ok (KStr "0", (0.45586014182529311, -0.8900514204780664)%float,
             Some (KStr "0"), [])
    /\ retries (KStr "0") (Some (KStr "0")) = false
    /\ (exists d, dict_get g' (KStr "2") = Some d
                  /\ KStr "0" ∈ neighbors d)
    /\ ~ (exists d, dict_get g' (KStr "0") = Some d
                    /\ KStr "2" ∈ neighbors d).
Proof.
  eexists. split; [vm_compute; reflexivity|].
  split; [vm_compute; reflexivity|]. split; [reflexivity|]. split.
  - eexists. split; [vm_compute; reflexivity|]. apply list_elem_of_here.
  - intros (d & Hd & Hin). vm_compute in Hd. injection Hd as <-.
    simpl in Hin. apply list_elem_of_singleton in Hin. discriminate.
Qed.

(** ** The activation *)

Section reachable_facts.
Context {num : Type} `{Number num}.
Implicit Types (g : graph num).

(** A growth step leads from a reachable store to a reachable store. *)
Lemma reachable_make_new_vertex depth g tape g' tape' :
  reachable g -> make_new_vertex depth g tape = Ok (g', tape') ->
  reachable g'.
Proof.
  revert tape g' tape'. induction depth as [|depth IH];
    intros tape g' tape' Hg Hrun; [done|].
  apply make_new_vertex_inv in Hrun as (v & p & near & t1 & _ & Hcase).
  destruct Hcase as [(_ & Hs & _)|(_ & g1 & Hrec & Hs)].
  - eapply reachable_set_active_states; [|done]. by constructor.
  - eapply reachable_set_active_states; [|done]. by eapply IH.
Qed.

(** Repeated reinforcement stays among the reachable stores. *)
Lemma reachable_for_each g seeds g' :
  reachable g -> for_each set_active_states g seeds = Ok g' -> reachable g'.
Proof.
  intros Hg Hrun. eapply (for_each_inv reachable); [|done|done].
  intros g1 x g2 ? _ ?. by eapply reachable_set_active_states.
Qed.

(** An invariant of the activations of the reachable stores: a property
    of [0] that [bump] keeps. *)
Lemma reachable_burnt_inv (P : num -> Prop) g :
  P (of_Q 0) -> (forall b, P b -> P (bump b)) ->
  reachable g -> forall k b, burnt_at g k = Some (Some b) -> P b.
Proof.
  intros H0 Hbump. induction 1 as [g Hall|g k0 neigh pos w _ IH|g seed g' _ IH Hs];
    intros k b Hb.
  - unfold burnt_at in Hb. destruct (dict_get g k) as [d|] eqn:Hd; [|done].
    apply dict_get_Some_elem in Hd. rewrite Forall_forall in Hall.
    specialize (Hall _ Hd). simpl in *. rewrite Hall in Hb.
    by injection Hb as <-.
  - destruct (decide (k = k0)) as [->|Hne].
    + rewrite add_vertex_burnt in Hb. by injection Hb as <-.
    + rewrite add_vertex_burnt_other in Hb by done. eauto.
  - apply set_active_states_burnt in Hs as (path & _ & Hall).
    rewrite Hall in Hb. case_bool_decide; [|eauto].
    destruct (burnt_at g k) as [[b0|]|] eqn:Hb0; try done.
    simpl in Hb. injection Hb as <-. eauto.
Qed.

End reachable_facts.

(** *** In binary64 *)

Lemma bumps_S n b : bumps (S n) b = bump (bumps n b).
Proof. revert b. induction n as [|n IH]; intros b; [done|]. apply (IH (bump b)). Qed.

Lemma ladder_ok_spec n b i :
  ladder_ok n b = true -> i < n ->
  PrimFloat.leb 0 (bumps i b) = true
  /\ PrimFloat.leb (bumps i b) burnt_stop = true
  /\ PrimFloat.leb (bumps i b) (bump (bumps i b)) = true
  /\ PrimFloat.leb (bumps i b) (bumps i b) = true.
Proof.
  revert b i. induction n as [|n IH]; intros b i Hok Hi; [lia|].
  simpl in Hok. rewrite !andb_true_iff in Hok.
  destruct Hok as [[[[? ?] ?] ?] Hok]. destruct i as [|i]; [done|].
  simpl. apply IH; [done|lia].
Qed.

Lemma ladder_checked : ladder_ok 3001 0%float = true.
Proof. vm_compute. reflexivity. Qed.

Lemma ladder_top : bump (bumps 3000 0%float) = bumps 3000 0%float.
Proof. vm_compute. reflexivity. Qed.

Lemma ladder_top_value : bumps 3000 0%float = burnt_stop.
Proof. vm_compute. reflexivity. Qed.

Lemma on_ladder_bump b : on_ladder b -> on_ladder (bump b).
Proof.
  intros (n & Hn & ->). destruct (decide (n = 3000)) as [->|Hne].
  - exists 3000. by rewrite ladder_top.
  - exists (S n). split; [lia|]. by rewrite bumps_S.
Qed.

Lemma on_ladder_bounds b :
  on_ladder b ->
  PrimFloat.leb 0 b = true /\ PrimFloat.leb b burnt_stop = true
  /\ PrimFloat.leb b (bump b) = true /\ PrimFloat.leb b b = true.
Proof.
  intros (n & Hn & ->). apply (ladder_ok_spec 3001); [apply ladder_checked|lia].
Qed.

(** C6, as the code has it, in binary64.  A vertex is created with
    activation [0].  In every reachable store each activation lies between
    [0] and [15.000000000000945]: the test [< 15] comes before the
    increment and nothing clamps the sum, so the last increment leaves the
    activation above [15] by the rounding error of the additions.  A call
    of [set_active_states] puts the activation of every vertex of the best
    path through [bump] ([+ 0.005] while it is below [15]), changes no
    other activation, and lowers none. *)
Theorem C6_activation_steps_and_bound (g : graph float) :
  reachable g ->
  (forall k neigh pos w,
      burnt_at (LichtenbergGraph.add_vertex g k neigh pos w) k =
        Some (Some 0%float))
  /\ (forall k b, burnt_at g k = Some (Some b) ->
        PrimFloat.leb 0 b = true /\ PrimFloat.leb b burnt_stop = true)
  /\ (forall seed g', set_active_states g seed = Ok g' ->
        exists path, find_shortest_path g seed (KStr "0") = Ok path
          /\ forall k,
               burnt_at g' k =
                 (if bool_decide (k ∈ path)
                  then fmap (M:=option) bump <$> burnt_at g k
                  else burnt_at g k)
               /\ forall b b', burnt_at g k = Some (Some b) ->
                    burnt_at g' k = Some (Some b') ->
                    PrimFloat.leb b b' = true).
Proof.
  intros Hg.
  assert (Hlad : forall k b, burnt_at g k = Some (Some b) -> on_ladder b).
  { apply reachable_burnt_inv; [|apply on_ladder_bump|done].
    exists 0. split; [lia|reflexivity]. }
  split_and!.
  - intros. by rewrite (add_vertex_burnt (num:=float)).
  - intros k b Hb. destruct (on_ladder_bounds b) as (? & ? & _); eauto.
  - intros seed g' Hs.
    destruct (set_active_states_burnt g seed g' Hs) as (path & Hp & Hall).
    exists path. split; [done|]. intros k. split; [apply Hall|].
    intros b b' Hb Hb'. rewrite Hall, Hb in Hb'.
    destruct (on_ladder_bounds b) as (_ & _ & Hle & Hrefl); [eauto|].
    by case_bool_decide; simpl in Hb'; injection Hb' as <-.
Qed.

(** C6 at the store of the driver: its activations are [0], within the
    bounds. *)
Lemma C6_activation_steps_and_bound_witness :
  reachable store_driver
  /\ PrimFloat.leb 0 0 = true /\ PrimFloat.leb 0 burnt_stop = true.
Proof.
  assert (Hr : reachable store_driver).
  { apply reachable_init. by repeat constructor. }
  split; [exact Hr|].
  exact (proj1 (proj2 (C6_activation_steps_and_bound store_driver Hr))
           (KStr "0") 0%float eq_refl).
Defined.

(** C6 fails as stated.  Three thousand calls of [set_active_states] on
    the store of the driver, each seeded at ["1"], lead to a store in which
    the activation of the root is [15.000000000000945], above [15]. *)
Lemma C6_activation_above_15_counterexample :
  exists g',
    for_each set_active_states store_driver (replicate 3000 (KStr "1")) =
      Ok g'
    /\ reachable g'
    /\ burnt_at g' (KStr "0") = Some (Some 15.000000000000945%float)
    /\ PrimFloat.ltb 15 15.000000000000945 = true.
Proof.
  destruct (for_each set_active_states store_driver
              (replicate 3000 (KStr "1"))) as [g'|] eqn:Hrun;
    [|vm_compute in Hrun; discriminate].
  exists g'. split; [done|]. split.
  - eapply reachable_for_each; [|exact Hrun].
    apply reachable_init. by repeat constructor.
  - vm_compute in Hrun. injection Hrun as <-.
    split; vm_compute; reflexivity.
Qed.

(** In exact arithmetic the same invariant gives the bound [15]: every
    activation is a multiple [n * 0.005] with [n <= 3000], and the last
    increment lands on [15] itself.  The excess in binary64 is the
    rounding of the additions. *)
Lemma activation_bound_exact_arithmetic (g : graph Q) :
  reachable g ->
  forall k b, burnt_at g k = Some (Some b) -> (0 <= b /\ b <= 15)%Q.
Proof.
  intros Hg k b Hb.
  assert (Hn : exists n : Z,
             (0 <= n <= 3000)%Z /\ (b == inject_Z n * 0.005)%Q).
  { revert k b Hb.
    apply (reachable_burnt_inv
             (fun b => exists n : Z,
                (0 <= n <= 3000)%Z /\ (b == inject_Z n * 0.005)%Q)); [| |done].
    - exists 0%Z. split; [lia|]. simpl. reflexivity.
    - intros b (n & Hn & Hb). unfold bump. simpl. unfold Qlt_bool.
      destruct (Qle_bool 15 b) eqn:Hle; simpl; [by exists n|].
      exists (n + 1)%Z. split.
      + destruct (decide (n = 3000%Z)) as [->|?]; [|lia].
        assert (Hc : Qle_bool 15 b = true); [|congruence].
        apply Qle_bool_iff. rewrite Hb. by vm_compute.
      + rewrite inject_Z_plus, Hb. ring. }
  destruct Hn as (n & [Hn0 Hn1] & ->).
  rewrite Zle_Qle in Hn0, Hn1.
  change (inject_Z 0) with 0%Q in Hn0.
  change (inject_Z 3000) with 3000%Q in Hn1.
  change 0.005%Q with (5 # 1000)%Q. split; lra.
Qed.

(** ** Retries of the growth step *)

Section retries.
Context {num : Type} `{Number num}.
Implicit Types (g gi : graph num) (tape : list num) (seeds : list key).

Lemma grows_length g tape k seeds gi tape' :
  grows g tape k seeds gi tape' -> length seeds = S k.
Proof. induction 1; simpl; congruence. Qed.

Lemma for_each_app body g (l1 l2 : list key) :
  for_each body g (l1 ++ l2) =
  (g1 ← for_each body g l1; for_each body g1 l2).
Proof.
  revert g. induction l1 as [|x l1 IH]; intros g; simpl; [done|].
  destruct (body g x) as [g1|]; simpl; [apply IH|done].
Qed.

Lemma for_each_same_shape g seeds g' :
  for_each set_active_states g seeds = Ok g' -> same_shape g g'.
Proof.
  intros Hrun.
  eapply (for_each_inv (same_shape g)); [|apply same_shape_refl|exact Hrun].
  intros g1 x g2 [Hk1 Hs1] _ Hs.
  apply set_active_states_same_shape in Hs as [Hk2 Hs2].
  split; [congruence|]. intros k.
  destruct (Hs1 k) as [<- <-]. apply Hs2.
Qed.

(** A call of [make_new_vertex] that returns has gone through [k]
    discarded attempts and one insert, all of them made on the store it
    was called on, and then through [k + 1] calls of [set_active_states],
    seeded at the expansion vertices of the levels, the innermost first. *)
Lemma make_new_vertex_grows depth g tape g' tape' :
  make_new_vertex depth g tape = Ok (g', tape') ->
  exists k seeds gi,
    grows g tape k seeds gi tape'
    /\ length seeds = S k
    /\ for_each set_active_states gi (reverse seeds) = Ok g'
    /\ same_shape gi g'.
Proof.
  revert tape g' tape'. induction depth as [|depth IH];
    intros tape g' tape' Hrun; [done|].
  apply make_new_vertex_inv in Hrun as (v & p & near & t1 & Hatt & Hcase).
  destruct Hcase as [(Hno & Hs & ->)|(Hyes & g1 & Hrec & Hs)].
  - exists 0, [v], (inserted g v p). split_and!.
    + by eapply grows_insert.
    + done.
    + simpl. by rewrite Hs.
    + by eapply set_active_states_same_shape.
  - destruct (IH _ _ _ Hrec) as (k & seeds & gi & Hg & Hlen & Hpass & _).
    assert (Hall : for_each set_active_states gi (reverse (v :: seeds)) =
                   Ok g').
    { rewrite reverse_cons, for_each_app, Hpass. simpl. by rewrite Hs. }
    exists (S k), (v :: seeds), gi. split_and!.
    + by eapply grows_retry.
    + simpl. congruence.
    + done.
    + by eapply for_each_same_shape.
Qed.

Lemma make_new_vertex_unfold depth g tape :
  make_new_vertex (S depth) g tape =
  ('(v, p, near, tape1) ← attempt g tape;
   '(g1, tape2) ← (if retries v near
                   then make_new_vertex depth g tape1
                   else mret (inserted g v p, tape1));
   g2 ← set_active_states g1 v;
   mret (g2, tape2)).
Proof.
  simpl. unfold attempt.
  destruct (pick_expansion_vertex g tape) as [[v t0]|]; [|done]. simpl.
  destruct (pick_expansion_point g v t0) as [[p t2]|]; [|done]. simpl.
  by destruct (is_too_close g p) as [near|].
Qed.

(** The converse: the attempts and the passes determine what the call
    returns, once the bound on the nesting allows [k] retries. *)
Lemma make_new_vertex_of_grows g tape k seeds gi tape' g' depth :
  grows g tape k seeds gi tape' ->
  for_each set_active_states gi (reverse seeds) = Ok g' ->
  k < depth ->
  make_new_vertex depth g tape = Ok (g', tape').
Proof.
  intros Hg. revert g' depth.
  induction Hg as [tape v p near tape' Hatt Hno
                  |tape v p near tape1 k seeds gi tape' Hatt Hyes _ IH];
    intros g' depth Hpass Hk; (destruct depth as [|depth]; [lia|]);
    rewrite make_new_vertex_unfold, Hatt; simpl.
  - rewrite Hno. simpl. simpl in Hpass.
    destruct (set_active_states (inserted g v p) v) as [g2|]; [|done].
    simpl in *. by injection Hpass as ->.
  - rewrite Hyes. rewrite reverse_cons, for_each_app in Hpass.
    destruct (for_each set_active_states gi (reverse seeds)) as [g1|] eqn:H1;
      [|done].
    rewrite (IH g1 depth) by (done || lia). simpl in *.
    destruct (set_active_states g1 v) as [g2|]; [|done].
    simpl in *. by injection Hpass as ->.
Qed.

End retries.

(** ** The properties at the stores of the source *)

(** From ["a"] to ["b"] there are two paths, of weights [4] and [-1]; the
    first is the best. *)
Example store_letters_paths :
  find_all_paths store_letters (KStr "a") (KStr "b") =
    Ok [ [KStr "a"; KStr "d"; KStr "c"; KStr "b"];
         [KStr "a"; KStr "d"; KStr "c"; KStr "e"; KStr "b"] ]
  /\ get_path_weights store_letters (KStr "a") (KStr "b") = Ok [4; -1]%Q
  /\ find_shortest_path store_letters (KStr "a") (KStr "b") =
       Ok [KStr "a"; KStr "d"; KStr "c"; KStr "b"].
Proof. split_and!; vm_compute; reflexivity. Qed.

(** In binary64 the two paths of the diamond weigh [4] each, and the one
    enumerated first is returned. *)
Example store_diamond_f_tie :
  find_all_paths store_diamond_f (KStr "3") (KStr "0") =
    Ok [ [KStr "3"; KStr "2"; KStr "0"]; [KStr "3"; KStr "1"; KStr "0"] ]
  /\ get_path_weights store_diamond_f (KStr "3") (KStr "0") =
       Ok [4; 4]%float
  /\ find_shortest_path store_diamond_f (KStr "3") (KStr "0") =
       Ok [KStr "3"; KStr "2"; KStr "0"].
Proof. split_and!; vm_compute; reflexivity. Qed.

(** C7 at the diamond in binary64, from ["3"] to ["0"]. *)
Lemma C7_find_shortest_path_first_maximal_witness :
  exists best w i,
    find_shortest_path store_diamond_f (KStr "3") (KStr "0") = Ok best
    /\ [ [KStr "3"; KStr "2"; KStr "0"]; [KStr "3"; KStr "1"; KStr "0"] ] !! i
       = Some best
    /\ weight_sum store_diamond_f best = Some w
    /\ (forall p,
          p ∈ [ [KStr "3"; KStr "2"; KStr "0"];
                [KStr "3"; KStr "1"; KStr "0"] ] ->
          exists w', weight_sum store_diamond_f p = Some w'
                     /\ PrimFloat.leb w' w = true)
    /\ (forall j p, j < i ->
          [ [KStr "3"; KStr "2"; KStr "0"];
            [KStr "3"; KStr "1"; KStr "0"] ] !! j = Some p ->
          exists w', weight_sum store_diamond_f p = Some w'
                     /\ PrimFloat.ltb w' w = true).
Proof.
  assert (He : KStr "0" ∈ vertices store_diamond_f)
    by (apply (bool_decide_unpack _); vm_compute; exact I).
  assert (Hne : [ [KStr "3"; KStr "2"; KStr "0"];
                  [KStr "3"; KStr "1"; KStr "0"] ] <> []) by discriminate.
  assert (Hnum : forall p w,
            p ∈ [ [KStr "3"; KStr "2"; KStr "0"];
                  [KStr "3"; KStr "1"; KStr "0"] ] ->
            weight_sum store_diamond_f p = Some w -> number w).
  { intros p w Hp Hw. rewrite !elem_of_cons in Hp.
    destruct Hp as [->|[->|Hp%elem_of_nil]]; [| |done];
      vm_compute in Hw; injection Hw as <-; vm_compute; reflexivity. }
  exact (C7_find_shortest_path_first_maximal store_diamond_f
           (KStr "3") (KStr "0") _ He (proj1 store_diamond_f_tie) Hne Hnum).
Defined.

(** C7 fails as stated when a summed weight is not a number.  On the
    diamond with a NaN weight on ["2"] the path through ["2"] is
    enumerated first and is returned: no weight is greater than its NaN,
    and [index] finds that NaN in the first place.  The path through
    ["1"] weighs [4], and the NaN is not at least [4]. *)
Lemma C7_weight_not_a_number_counterexample :
  find_all_paths store_nan_weight (KStr "3") (KStr "0") =
    Ok [ [KStr "3"; KStr "2"; KStr "0"]; [KStr "3"; KStr "1"; KStr "0"] ]
  /\ find_shortest_path store_nan_weight (KStr "3") (KStr "0") =
       Ok [KStr "3"; KStr "2"; KStr "0"]
  /\ exists w w',
       weight_sum store_nan_weight [KStr "3"; KStr "2"; KStr "0"] = Some w
       /\ weight_sum store_nan_weight [KStr "3"; KStr "1"; KStr "0"] = Some w'
       /\ w' = 4%float
       /\ PrimFloat.leb w' w = false.
Proof.
  split; [vm_compute; reflexivity|].
  split; [vm_compute; reflexivity|].
  eexists. eexists. split_and!; vm_compute; reflexivity.
Qed.

Example store_diamond_tie :
  find_all_paths store_diamond (KStr "3") (KStr "0") =
    Ok [ [KStr "3"; KStr "2"; KStr "0"]; [KStr "3"; KStr "1"; KStr "0"] ]
  /\ get_path_weights store_diamond (KStr "3") (KStr "0") = Ok [4; 4]%Q
  /\ find_shortest_path store_diamond (KStr "3") (KStr "0") =
       Ok [KStr "3"; KStr "2"; KStr "0"].
Proof. split_and!; vm_compute; reflexivity. Qed.

(** The threshold of [is_too_close] in binary64, on two vertices ten
    apart.  The point [(1.4, 0)] is at distance [1.4] from ["0"] and is
    not too close; the point [(1.39, 0)] is too close to ["0"]; the point
    [(9, 0)] is too close to ["1"], which is returned though ["0"] is
    visited first.  (The second coordinates are [0], so that each dot
    product is one rounded square, whatever the routine.) *)
Example is_too_close_boundary :
  is_too_close store_far (1.4, 0)%float = Ok None
  /\ is_too_close store_far (1.39, 0)%float = Ok (Some (KStr "0"))
  /\ is_too_close store_far (9, 0)%float = Ok (Some (KStr "1"))
  /\ distance (1.4, 0)%float (0, 0)%float = 1.4%float
  /\ (r * of_Q 1.4)%num = 1.4%float.
Proof. split_and!; vm_compute; reflexivity. Qed.

Lemma store_far_located : located store_far.
Proof. repeat (constructor; [by eexists|]). constructor. Qed.

(** C8 at [store_far] and the point [(1.4, 0)]. *)
Lemma C8_is_too_close_threshold_and_nearest_witness :
  is_too_close store_far (1.4, 0)%float = Ok None
  /\ (exists res, is_too_close store_far (1.4, 0)%float = Ok res)
  /\ (is_too_close store_far (1.4, 0)%float = Ok None <->
      forall vertex d l, (vertex, d) ∈ store_far -> loc d = Some l ->
        PrimFloat.leb (r * of_Q 1.4)%num (distance (1.4, 0)%float l) = true)
  /\ (forall k, is_too_close store_far (1.4, 0)%float = Ok (Some k) ->
      exists d l, (k, d) ∈ store_far /\ loc d = Some l /\
        forall vertex' d' l', (vertex', d') ∈ store_far -> loc d' = Some l' ->
          PrimFloat.leb (distance l (1.4, 0)%float)
                        (distance l' (1.4, 0)%float) = true).
Proof.
  split; [vm_compute; reflexivity|].
  assert (Hthr : number (r * of_Q 1.4 : float)%num)
    by (vm_compute; reflexivity).
  assert (Hnum : distances_are_numbers store_far (1.4, 0)%float).
  { repeat (constructor; [intros l [= <-]; split; vm_compute; reflexivity|]).
    constructor. }
  exact (C8_is_too_close_threshold_and_nearest store_far (1.4, 0)%float
           store_far_located Hthr Hnum).
Defined.

(** C8 fails as stated when a distance is not a number.  For a point with
    a NaN coordinate no comparison [norm(...) < 1.4 * r] succeeds, and
    [is_too_close] returns [False], though no vertex is at a distance of
    at least [1.4 * r]. *)
Lemma C8_distance_not_a_number_counterexample :
  is_too_close store_far (nan, 0)%float = Ok None
  /\ Forall (fun entry : key * vertex float =>
               forall l, loc entry.2 = Some l ->
                 PrimFloat.leb (r * of_Q 1.4)%num (distance (nan, 0)%float l)
                 = false) store_far.
Proof.
  split; [vm_compute; reflexivity|].
  repeat (constructor; [intros l [= <-]; vm_compute; reflexivity|]).
  constructor.
Qed.

(** One growth step on [store_line] with one retry.  The first attempt
    picks ["1"] and proposes [(5, 0)], nearest to ["2"]: it is discarded.
    The second picks ["2"], proposes [(13/2, 0)] and inserts ["3"].  Two
    passes follow, seeded at ["2"] and then at ["1"].  Had the inserting
    attempt come first, one pass would have left ["1"] at weight [1.1]
    and the root at activation [0.005]; the pass of the discarded attempt
    takes them to [1.21] and [0.01]. *)
Example growth_step_with_one_retry :
  exists gi g1 g2,
    grows store_line draws_line 1 [KStr "1"; KStr "2"] gi []
    /\ vertices gi = [KStr "0"; KStr "1"; KStr "2"; KStr "3"]
    /\ set_active_states gi (KStr "2") = Ok g1
    /\ set_active_states g1 (KStr "1") = Ok g2
    /\ make_new_vertex 2 store_line draws_line = Ok (g2, [])
    /\ make_new_vertex 1 store_line (drop 5 draws_line) = Ok (g1, [])
    /\ reading g1 (KStr "1") = Some (11 # 10, Some (1 # 200))%Q
    /\ reading g2 (KStr "1") = Some (121 # 100, Some (1 # 100))%Q
    /\ reading g1 (KStr "0") = Some (50, Some (1 # 200))%Q
    /\ reading g2 (KStr "0") = Some (50, Some (1 # 100))%Q
    /\ reading g1 (KStr "3") = Some (39 # 40, Some 0)%Q
    /\ reading g2 (KStr "3") = Some (19 # 20, Some 0)%Q.
Proof.
  eexists. eexists. eexists. split.
  { eapply grows_retry; [vm_compute; reflexivity|reflexivity|].
    eapply grows_insert; [vm_compute; reflexivity|reflexivity]. }
  split; [vm_compute; reflexivity|].
  split; [vm_compute; reflexivity|].
  split; [vm_compute; reflexivity|].
  split_and!; vm_compute; reflexivity.
Qed.

(* ===================================================================== *)
(** * Further properties of [Graph] *)
(* ===================================================================== *)

Section graph_store.
Context {num : Type} `{Number num}.
Implicit Types (g : graph num) (k : key).

(** X1.  [Graph.add_vertex] read back: a key that was in the store keeps
    its entry, the new key reads as the vertex that was given, with no
    position and no activation, and no other key appears.  A second
    [add_vertex] of the same key, with whatever arguments, changes
    nothing. *)
Theorem X1_Graph_add_vertex_lookup g k neigh w :
  (forall k',
     dict_get (Graph.add_vertex g k neigh w) k' =
     match dict_get g k' with
     | Some d => Some d
     | None =>
         if decide (k' = k)
         then Some {| weight := w; neighbors := default [] neigh;
                      loc := None; burnt := None |}
         else None
     end)
  /\ (forall neigh' w',
        Graph.add_vertex (Graph.add_vertex g k neigh w) k neigh' w' =
        Graph.add_vertex g k neigh w).
Proof.
  split.
  - intros k'. destruct (dict_mem g k) eqn:Hk.
    + rewrite Graph_add_vertex_present by done.
      destruct (dict_get g k') eqn:Hk'; [done|].
      case_decide; [subst k'|done].
      apply dict_mem_true in Hk as [? Hk]. congruence.
    + rewrite Graph_add_vertex_absent by done.
      apply dict_get_app_absent.
  - intros neigh' w'. apply Graph_add_vertex_present, dict_mem_true.
    unfold Graph.add_vertex. destruct (dict_mem g k) eqn:Hk; simpl.
    + by apply dict_mem_true.
    + rewrite dict_get_set_eq. eauto.
Qed.

(** X2.  [set_weight] raises [KeyError] for a key that is not in the
    store.  For a key of the store it writes the weight and nothing else:
    the keys and their order, the other fields of the vertex and the
    other vertices stay. *)
Theorem X2_set_weight_writes_one_field g k w :
  match dict_get g k with
  | None => set_weight g k w = Raise KeyError
  | Some d =>
      exists g', set_weight g k w = Ok g'
        /\ vertices g' = vertices g
        /\ dict_get g' k = Some {| weight := w; neighbors := neighbors d;
                                   loc := loc d; burnt := burnt d |}
        /\ forall k', k' <> k -> dict_get g' k' = dict_get g k'
  end.
Proof.
  unfold set_weight. destruct (dict_get g k) as [d|] eqn:Hd; simpl; [|done].
  eexists. split; [done|]. split_and!.
  - unfold vertices. apply dict_set_keys_present, dict_get_is_Some. eauto.
  - apply dict_get_set_eq.
  - intros. by apply dict_get_set_ne.
Qed.

(** X3.  [add_edge] raises [ValueError] unless the edge holds exactly two
    distinct vertices: a loop [(x, x)] cannot be added this way. *)
Theorem X3_add_edge_needs_two_distinct g edge swap :
  length (remove_dups edge) <> 2 ->
  add_edge g edge swap = Raise ValueError.
Proof.
  unfold add_edge. intros Hlen.
  destruct (remove_dups edge) as [|a [|b [|c l]]]; try done.
Qed.


Lemma edges_of_vertex_mono vertex (edges : list (gset key)) ns e :
  e ∈ edges -> e ∈ edges_of_vertex vertex edges ns.
Proof.
  revert edges. induction ns as [|n ns IH]; intros edges He; simpl; [done|].
  apply IH. case_decide; [done|]. apply elem_of_app. by left.
Qed.

Lemma edges_of_vertex_complete vertex (edges : list (gset key)) ns n :
  n ∈ ns -> {[vertex; n]} ∈ edges_of_vertex vertex edges ns.
Proof.
  revert edges. induction ns as [|n0 ns IH]; intros edges Hn; simpl.
  - by apply elem_of_nil in Hn.
  - apply elem_of_cons in Hn as [->|Hn]; [|by apply IH].
    apply edges_of_vertex_mono. case_decide as Hin.
    + by replace ({[vertex; n0]} : gset key) with ({[n0; vertex]} : gset key)
        by apply (comm_L (∪)).
    + apply elem_of_app. right. apply list_elem_of_here.
Qed.

Lemma generate_edges_mono g (edges : list (gset key)) e :
  e ∈ edges ->
  e ∈ foldl (fun edges entry =>
               edges_of_vertex entry.1 edges (neighbors entry.2)) edges g.
Proof.
  revert edges. induction g as [|[v d] g IH]; intros edges He; simpl; [done|].
  by apply IH, edges_of_vertex_mono.
Qed.

Lemma edges_iff g (e : gset key) :
  e ∈ edges g <-> edge_of_store g e.
Proof.
  split.
  - destruct (generate_edges_inv g g []) as [_ Hall];
      [done|apply NoDup_nil_2|done|].
    rewrite Forall_forall in Hall. apply Hall.
  - intros (v & d & n & Hv & Hn & ->). unfold edges, generate_edges.
    generalize (@nil (gset key)). induction g as [|[v0 d0] g IH];
      intros acc; [by apply elem_of_nil in Hv|].
    simpl. apply elem_of_cons in Hv as [[= <- <-]|Hv]; [|by apply IH].
    by apply generate_edges_mono, edges_of_vertex_complete.
Qed.

(** X5.  The edge list misses no link: a set is in [edges] exactly when it
    is [{vertex, neighbor}] for an entry [neighbor] of the list of
    neighbours of a vertex of the store. *)
Theorem X5_edges_exactly_the_links g (e : gset key) :
  e ∈ edges g <-> edge_of_store g e.
Proof. apply edges_iff. Qed.

End graph_store.

(** X3 at the store of the driver of [graphs.py]: the loop on ["c"]. *)
Lemma X3_add_edge_needs_two_distinct_witness :
  add_edge store_letters [KStr "c"; KStr "c"] false = Raise ValueError.
Proof.
  apply X3_add_edge_needs_two_distinct. vm_compute. lia.
Defined.


(** ** The enumerated paths are the simple paths *)

Lemma mapM_Raise_KeyError {A B : Type} (f : A -> result B) (l : list A) :
  (forall x, x ∈ l -> (exists y, f x = Ok y) \/ f x = Raise KeyError) ->
  (exists x, x ∈ l /\ f x = Raise KeyError) ->
  mapM f l = Raise KeyError.
Proof.
  induction l as [|a l IH]; intros Hall (x & Hx & Hfx).
  - by apply elem_of_nil in Hx.
  - simpl. destruct (Hall a) as [[y Hy]| ->]; [apply list_elem_of_here| |done].
    rewrite Hy. simpl. rewrite IH; [done| |].
    + intros z Hz. apply Hall. by apply list_elem_of_further.
    + apply elem_of_cons in Hx as [->|Hx]; [congruence|eauto].
Qed.

Section simple_paths.
Context {num : Type} `{Number num}.
Implicit Types (g : graph num) (path p q : list key) (s e v : key).

Lemma extend_paths_complete rec path ns acc ps :
  extend_paths rec path ns acc = Ok ps ->
  (forall x, x ∈ acc -> x ∈ ps)
  /\ forall v, v ∈ ns -> v ∉ path ->
       exists ext, rec v = Ok ext /\ forall x, x ∈ ext -> x ∈ ps.
Proof.
  revert acc. induction ns as [|v0 ns IH]; intros acc Hrun; simpl in Hrun.
  - injection Hrun as <-. split; [done|]. by intros v ?%elem_of_nil.
  - case_bool_decide as Hv0; simpl in Hrun.
    + destruct (IH _ Hrun) as [Hacc Hns]. split; [done|].
      intros v [->|Hv]%elem_of_cons Hp; [done|eauto].
    + destruct (rec v0) as [ext0|] eqn:Hext; [|done]. simpl in Hrun.
      destruct (IH _ Hrun) as [Hacc Hns]. split.
      * intros x Hx. apply Hacc, elem_of_app. by left.
      * intros v [->|Hv]%elem_of_cons Hp; [|eauto].
        exists ext0. split; [done|]. intros x Hx.
        apply Hacc, elem_of_app. by right.
Qed.

Lemma find_all_paths_rec_chain depth g s e path ps :
  find_all_paths_rec depth g s e path = Ok ps ->
  Forall (fun p => exists q, p = path ++ q /\ head q = Some s /\ chain g q) ps.
Proof.
  revert s path ps. induction depth as [|depth IH]; intros s path ps; [done|].
  simpl. case_decide as Hse.
  - intros [= <-]. apply Forall_singleton. by exists [s].
  - destruct (dict_get g s) as [d|] eqn:Hd; [|by intros [= <-]].
    intros Hrun. eapply extend_paths_Forall; [done| |done].
    intros v ext Hv _ Hext. apply IH in Hext.
    eapply Forall_impl; [done|]. simpl.
    intros p (q & -> & Hhd & Hq). exists (s :: q). split_and!.
    + by rewrite <- app_assoc.
    + done.
    + destruct q as [|v' q]; [done|]. injection Hhd as ->.
      split; [|done]. by exists d.
Qed.

Lemma find_all_paths_rec_complete depth g s e path ps p :
  find_all_paths_rec depth g s e path = Ok ps ->
  head p = Some s -> last p = Some e -> NoDup (path ++ p) -> chain g p ->
  path ++ p ∈ ps.
Proof.
  revert s path ps p. induction depth as [|depth IH];
    intros s path ps p Hrun Hhd Hlast Hnd Hch; [done|].
  destruct p as [|s' rest]; [done|]. injection Hhd as ->.
  simpl in Hrun. case_decide as Hse.
  - injection Hrun as <-. subst e. destruct rest as [|v rest].
    + apply list_elem_of_here.
    + exfalso. rewrite last_cons_cons in Hlast.
      apply last_Some_elem_of in Hlast.
      apply NoDup_app in Hnd as (_ & _ & Hp).
      by apply NoDup_cons in Hp as [Hs _].
  - destruct rest as [|v rest]; [by injection Hlast as ->|].
    destruct Hch as [(d & Hd & Hv) Hch]. rewrite Hd in Hrun.
    rewrite last_cons_cons in Hlast.
    assert (Hnd' : NoDup ((path ++ [s]) ++ v :: rest))
      by by rewrite <- app_assoc.
    destruct (extend_paths_complete _ _ _ _ _ Hrun) as [_ Hns].
    destruct (Hns v Hv) as (ext & Hext & Hsub).
    { apply NoDup_app in Hnd' as (_ & Hdisj & _).
      intros Hin. apply (Hdisj v Hin), list_elem_of_here. }
    apply Hsub. replace (path ++ s :: v :: rest)
      with ((path ++ [s]) ++ v :: rest) by by rewrite <- app_assoc.
    by apply (IH v).
Qed.

(** X6.  [find_all_paths] returns, with a nesting of at most the size of
    the store plus one, and what it returns are the simple paths from the
    start to the end: a list of vertices is enumerated exactly when it
    begins at the start, ends at the end, follows the lists of neighbours
    of the store from each vertex to the next, and holds no vertex
    twice. *)
Theorem X6_find_all_paths_exactly_simple_paths g s e :
  exists ps, find_all_paths_rec (S (length g)) g s e [] = Ok ps
    /\ find_all_paths g s e = Ok ps
    /\ forall p, p ∈ ps <-> simple_path g s e p.
Proof.
  destruct (find_all_paths_total g s e) as [ps Hps]. exists ps.
  split; [done|]. split; [done|]. intros p. split.
  - intros Hp.
    destruct (find_all_paths_spec g s e ps p Hps Hp) as (Hnd & Hhd & q & Hq & _).
    pose proof (find_all_paths_rec_chain _ _ _ _ _ _ Hps) as Hch.
    rewrite Forall_forall in Hch.
    destruct (Hch p Hp) as (q' & -> & _ & Hq'). simpl in *.
    split_and!; [done| |done|done]. rewrite Hq. apply last_snoc.
  - intros (Hhd & Hlast & Hnd & Hch).
    by apply (find_all_paths_rec_complete _ _ _ _ [] ps p Hps).
Qed.


Lemma path_weight_end_absent g q e :
  e ∉ g.*1 -> path_weight g (q ++ [e]) = Raise KeyError.
Proof.
  intros He. unfold path_weight. rewrite mapM_Raise_KeyError; [done| |].
  - intros x _. destruct (dict_get g x); simpl; eauto.
  - exists e. split; [apply elem_of_app; right; apply list_elem_of_here|].
    destruct (dict_get g e) eqn:Hd; [|done].
    exfalso. apply He, dict_get_is_Some. eauto.
Qed.

(** X8.  When the end vertex is not in the store and yet some path reaches
    it (as a neighbour that was never added, or as the start itself),
    [get_path_weights] and [find_shortest_path] raise [KeyError]. *)
Theorem X8_weights_of_paths_to_absent_end g s e paths :
  e ∉ vertices g ->
  find_all_paths g s e = Ok paths -> paths <> [] ->
  get_path_weights g s e = Raise KeyError
  /\ find_shortest_path g s e = Raise KeyError.
Proof.
  intros He Hpaths Hne.
  assert (Hw : get_path_weights g s e = Raise KeyError).
  { unfold get_path_weights. rewrite Hpaths. simpl.
    destruct paths as [|p paths]; [done|]. simpl.
    destruct (find_all_paths_spec g s e _ p Hpaths)
      as (_ & _ & q & -> & _); [apply list_elem_of_here|].
    by rewrite path_weight_end_absent. }
  split; [done|]. unfold find_shortest_path. rewrite Hpaths. simpl.
  by rewrite Hw.
Qed.

(** X9.  When no path leads from the start to the end,
    [find_shortest_path] raises [ValueError] (the [max] of an empty list),
    and so does [set_active_states] when no path leads from its vertex to
    the root ["0"]. *)
Theorem X9_no_path_is_a_ValueError g s e :
  find_all_paths g s e = Ok [] ->
  find_shortest_path g s e = Raise ValueError
  /\ (e = KStr "0" -> set_active_states g s = Raise ValueError).
Proof.
  intros Hpaths.
  assert (Hf : find_shortest_path g s e = Raise ValueError).
  { unfold find_shortest_path, get_path_weights. by rewrite Hpaths. }
  split; [done|]. intros ->. unfold set_active_states. by rewrite Hf.
Qed.

End simple_paths.


(** X8 at the store of the driver: from the missing key ["9"] to
    itself. *)
Lemma X8_weights_of_paths_to_absent_end_witness :
  get_path_weights store_burnt_root (KStr "9") (KStr "9") = Raise KeyError
  /\ find_shortest_path store_burnt_root (KStr "9") (KStr "9") =
       Raise KeyError.
Proof.
  apply (X8_weights_of_paths_to_absent_end store_burnt_root
           (KStr "9") (KStr "9") [[KStr "9"]]).
  - intros Hin. apply (bool_decide_pack _) in Hin. vm_compute in Hin.
    exact Hin.
  - reflexivity.
  - discriminate.
Defined.

(** X9 at the store of the driver of [graphs.py]: from ["a"] there is no
    path to ["f"], and none to ["0"]. *)
Lemma X9_no_path_is_a_ValueError_witness :
  find_shortest_path store_letters (KStr "a") (KStr "f") = Raise ValueError
  /\ set_active_states store_letters (KStr "a") = Raise ValueError.
Proof.
  split.
  - apply (X9_no_path_is_a_ValueError store_letters (KStr "a") (KStr "f")).
    vm_compute. reflexivity.
  - apply (X9_no_path_is_a_ValueError store_letters (KStr "a") (KStr "0"));
      [vm_compute|]; reflexivity.
Defined.

(* ===================================================================== *)
(** * Further properties of [LichtenbergGraph] *)
(* ===================================================================== *)

Section nearest.
Context {num : Type} `{NumberOrder num}.
Implicit Types (g : graph num) (new_loc : point (num:=num)).

Lemma nltb_trans (a b c : num) :
  number a -> number b -> number c ->
  nltb a b = true -> nltb b c = true -> nltb a c = true.
Proof.
  intros Ha Hb Hc. rewrite !nltb_nleb, !negb_true_iff by done.
  intros Hba Hcb. destruct (nleb c a) eqn:Hca; [|done].
  destruct (nleb_total a b) as [Hab|?]; [done..| |congruence].
  by rewrite (nleb_trans c a b) in Hcb.
Qed.

Lemma nltb_nleb_trans (a b c : num) :
  number a -> number b -> number c ->
  nltb a b = true -> nleb b c = true -> nltb a c = true.
Proof.
  intros Ha Hb Hc. rewrite !nltb_nleb, !negb_true_iff by done.
  intros Hba Hbc. destruct (nleb c a) eqn:Hca; [|done].
  by rewrite (nleb_trans b c a) in Hba.
Qed.

Lemma py_min_by_fold_first (l pre mid : list (key * num)) (e0 : key * num) :
  Forall (fun e => number e.2) (pre ++ e0 :: mid ++ l) ->
  (forall e, e ∈ pre -> nltb e0.2 e.2 = true) ->
  (forall e, e ∈ mid -> nleb e0.2 e.2 = true) ->
  let m := foldl (fun m e' => if (e'.2 <? m.2)%num then e' else m) e0 l in
  exists l1 l2, pre ++ e0 :: mid ++ l = l1 ++ m :: l2
    /\ (forall e, e ∈ l1 -> nltb m.2 e.2 = true)
    /\ (forall e, e ∈ l2 -> nleb m.2 e.2 = true).
Proof.
  revert pre mid e0. induction l as [|e1 l IH];
    intros pre mid e0 Hnum Hpre Hmid; simpl.
  - exists pre, mid. by rewrite app_nil_r.
  - pose proof Hnum as Hall. rewrite Forall_forall in Hall.
    assert (Hn0 : number e0.2).
    { apply Hall, elem_of_app. right. apply list_elem_of_here. }
    assert (Hn1 : number e1.2).
    { apply Hall, elem_of_app. right. apply list_elem_of_further, elem_of_app.
      right. apply list_elem_of_here. }
    assert (Hnpre : forall e, e ∈ pre -> number e.2).
    { intros e He. apply Hall, elem_of_app. by left. }
    assert (Hnmid : forall e, e ∈ mid -> number e.2).
    { intros e He. apply Hall, elem_of_app. right.
      apply list_elem_of_further, elem_of_app. by left. }
    destruct (nltb e1.2 e0.2) eqn:Hlt.
    + destruct (IH (pre ++ e0 :: mid) [] e1) as (l1 & l2 & Heq & H1 & H2).
      * simpl. by rewrite <- app_assoc.
      * intros e [He|[->|He]%elem_of_cons]%elem_of_app.
        -- apply (nltb_trans _ e0.2); auto.
        -- done.
        -- apply (nltb_nleb_trans _ e0.2); auto.
      * by intros e ?%elem_of_nil.
      * exists l1, l2. split; [|done]. rewrite <- Heq. simpl.
        by rewrite <- app_assoc.
    + destruct (IH pre (mid ++ [e1]) e0) as (l1 & l2 & Heq & H1 & H2).
      * by rewrite <- app_assoc.
      * done.
      * intros e [He| ->%list_elem_of_singleton]%elem_of_app; [by apply Hmid|].
        by apply nltb_false_nleb.
      * exists l1, l2. split; [|done]. rewrite <- Heq.
        by rewrite <- app_assoc.
Qed.

(** X10.  [get_nearest_vertex] raises [ValueError] on the empty store.  On
    a store whose vertices all have a position, and for a point whose
    distances to them are numbers, it returns the first of the nearest
    vertices: every vertex before it in the store is strictly farther
    from the point, and every vertex after it is at least as far.  The
    distances are the computed ones. *)
Theorem X10_get_nearest_vertex_first_minimum g new_loc :
  located g ->
  distances_are_numbers g new_loc ->
  match g with
  | [] => get_nearest_vertex g new_loc = Raise ValueError
  | _ :: _ =>
      exists g1 k d l g2,
        get_nearest_vertex g new_loc = Ok k
        /\ g = g1 ++ (k, d) :: g2 /\ loc d = Some l
        /\ (forall e l', e ∈ g1 -> loc e.2 = Some l' ->
              nltb (distance l new_loc) (distance l' new_loc) = true)
        /\ (forall e l', e ∈ g2 -> loc e.2 = Some l' ->
              nleb (distance l new_loc) (distance l' new_loc) = true)
  end.
Proof.
  intros Hloc Hnum. destruct g as [|e0 g]; [done|].
  unfold get_nearest_vertex.
  destruct (mapM_total (dist_entry new_loc) (e0 :: g)) as [dists Hd].
  { eapply Forall_impl; [exact Hloc|]. simpl.
    intros [v d] [l Hl]. unfold dist_entry. simpl in *. rewrite Hl.
    by eexists. }
  unfold dist_entry in Hd. rewrite Hd. simpl.
  apply mapM_Ok in Hd.
  assert (Hnums : Forall (fun e : key * num => number e.2) dists).
  { apply Forall_forall. intros e [i Hi]%list_elem_of_lookup.
    destruct (Forall2_lookup_r _ _ _ _ _ Hd Hi) as ([v d] & Hg & He).
    simpl in He. destruct (loc d) as [l|] eqn:Hl; [|done]. simpl in He.
    injection He as <-. unfold distances_are_numbers in Hnum.
    rewrite Forall_forall in Hnum.
    apply (Hnum (v, d)); [by eapply list_elem_of_lookup_2|done]. }
  destruct dists as [|d0 dists].
  { by apply Forall2_nil_inv_r in Hd. }
  simpl.
  destruct (py_min_by_fold_first dists [] [] d0)
    as (l1 & l2 & Heq & H1 & H2); [done|by intros ? ?%elem_of_nil..|].
  simpl in Heq. set (m := foldl _ d0 dists) in *. rewrite Heq in Hd.
  apply Forall2_app_inv_r in Hd as (g1 & g2' & Hg1 & Hg2 & Hg).
  apply Forall2_cons_inv_r in Hg2 as ([k d] & g2 & Hkd & Hg2 & ->).
  simpl in Hkd. destruct (loc d) as [l|] eqn:Hl; [|done]. simpl in Hkd.
  injection Hkd as Hm.
  exists g1, k, d, l, g2. rewrite <- Hm. simpl. split_and!; [done..| |].
  - intros e l' [i Hi]%list_elem_of_lookup Hl'.
    destruct (Forall2_lookup_l _ _ _ _ _ Hg1 Hi) as (x & Hx & Hex).
    rewrite Hl' in Hex. simpl in Hex. injection Hex as <-.
    specialize (H1 _ (proj2 (list_elem_of_lookup _ _) (ex_intro _ i Hx))).
    by rewrite <- Hm in H1.
  - intros e l' [i Hi]%list_elem_of_lookup Hl'.
    destruct (Forall2_lookup_l _ _ _ _ _ Hg2 Hi) as (x & Hx & Hex).
    rewrite Hl' in Hex. simpl in Hex. injection Hex as <-.
    specialize (H2 _ (proj2 (list_elem_of_lookup _ _) (ex_intro _ i Hx))).
    by rewrite <- Hm in H2.
Qed.

End nearest.

(** X10 at two vertices at the same distance from the origin, in
    binary64: the one that comes first in the store is returned. *)
Lemma X10_get_nearest_vertex_first_minimum_witness :
  get_nearest_vertex store_tie_f (0, 0)%float = Ok (KStr "0")
  /\ get_nearest_vertex (reverse store_tie_f) (0, 0)%float = Ok (KStr "1")
  /\ exists g1 k d l g2,
       get_nearest_vertex store_tie_f (0, 0)%float = Ok k
       /\ store_tie_f = g1 ++ (k, d) :: g2 /\ loc d = Some l
       /\ (forall e l', e ∈ g1 -> loc e.2 = Some l' ->
             PrimFloat.ltb (distance l (0, 0)%float)
                           (distance l' (0, 0)%float) = true)
       /\ (forall e l', e ∈ g2 -> loc e.2 = Some l' ->
             PrimFloat.leb (distance l (0, 0)%float)
                           (distance l' (0, 0)%float) = true).
Proof.
  split; [vm_compute; reflexivity|].
  split; [vm_compute; reflexivity|].
  assert (Hl : located store_tie_f).
  { unfold located. repeat constructor; by eexists. }
  assert (Hnum : distances_are_numbers store_tie_f (0, 0)%float).
  { repeat (constructor; [intros l [= <-]; split; vm_compute; reflexivity|]).
    constructor. }
  exact (X10_get_nearest_vertex_first_minimum store_tie_f (0, 0)%float
           Hl Hnum).
Defined.

(** ** Inserts and the keys of the store *)

Lemma mapM_snoc {A B : Type} (f : A -> result B) (l : list A) (a : A) :
  mapM f (l ++ [a]) = (ls ← mapM f l; y ← f a; mret (ls ++ [y])).
Proof.
  induction l as [|x l IH]; simpl.
  - by destruct (f a).
  - destruct (f x) as [y|]; simpl; [|done]. rewrite IH.
    destruct (mapM f l) as [ls|]; simpl; [|done]. by destruct (f a).
Qed.

Lemma str_of_nat_inj (n m : nat) : str_of_nat n = str_of_nat m -> n = m.
Proof.
  unfold str_of_nat. intros Heq.
  apply (f_equal NilEmpty.uint_of_string) in Heq.
  rewrite !NilEmpty.usu in Heq. injection Heq as Heq.
  by apply Unsigned.to_uint_inj.
Qed.

Lemma Forall_dict_set {V : Type} (Q : V -> Prop) (d : list (key * V)) k v :
  Forall (fun e => Q e.2) d -> Q v -> Forall (fun e => Q e.2) (dict_set d k v).
Proof.
  intros Hd Hv. induction Hd as [|[k0 v0] d H0 Hd IH]; simpl.
  - by constructor.
  - case_decide; constructor; done.
Qed.

Section inserts.
Context {num : Type} `{Number num}.
Implicit Types (g : graph num) (k v : key) (tape : list num).

(** X11.  [LichtenbergGraph.add_vertex] of a key that is not in the store
    appends one vertex, with the weight and the neighbours that were
    given, activation [0], and the position that was given or the origin.
    The other vertices read as before, and [locations] grows by that
    position at its end. *)
Theorem X11_add_vertex_new_key g k neigh pos w :
  dict_mem g k = false ->
  let d := {| weight := w; neighbors := default [] neigh;
              loc := Some (default (of_Q 0, of_Q 0) pos);
              burnt := Some (of_Q 0) |} in
  LichtenbergGraph.add_vertex g k neigh pos w = g ++ [(k, d)]
  /\ (forall k', dict_get (LichtenbergGraph.add_vertex g k neigh pos w) k' =
                 if decide (k' = k) then Some d else dict_get g k')
  /\ locations (LichtenbergGraph.add_vertex g k neigh pos w) =
       (ls ← locations g; mret (ls ++ [default (of_Q 0, of_Q 0) pos])).
Proof.
  intros Hk d. rewrite add_vertex_absent by done. fold d.
  split_and!; [done| |].
  - intros k'. rewrite dict_get_app_absent.
    case_decide as Hkk; [subst k'|by destruct (dict_get g k')].
    apply dict_mem_false in Hk. by rewrite Hk.
  - unfold locations. rewrite mapM_snoc. simpl.
    by destruct (mapM _ g).
Qed.

Lemma add_vertex_present_keys g k neigh pos w :
  dict_mem g k = true ->
  (LichtenbergGraph.add_vertex g k neigh pos w).*1 = g.*1.
Proof.
  intros Hk. unfold LichtenbergGraph.add_vertex.
  rewrite Graph_add_vertex_present by done.
  apply dict_mem_true in Hk as [d Hd]. rewrite Hd.
  assert (Hin : k ∈ g.*1) by (apply dict_get_is_Some; eauto).
  rewrite !dict_set_keys_present; [done..|].
  by rewrite dict_set_keys_present.
Qed.

Lemma inserted_keys g v (p : point) :
  vertices (inserted g v p) =
  if dict_mem g (fresh_key g) then vertices g
  else vertices g ++ [fresh_key g].
Proof.
  unfold inserted, vertices. destruct (dict_mem g (fresh_key g)) eqn:Hk.
  - by apply add_vertex_present_keys.
  - by rewrite add_vertex_absent, fmap_app.
Qed.

Lemma make_new_vertex_keys depth g tape g' tape' :
  make_new_vertex depth g tape = Ok (g', tape') ->
  exists v (p : point), vertices g' = vertices (inserted g v p).
Proof.
  revert tape g' tape'. induction depth as [|depth IH];
    intros tape g' tape' Hrun; [done|].
  apply make_new_vertex_inv in Hrun as (v & p & near & t1 & _ & Hcase).
  destruct Hcase as [(_ & Hs & _)|(_ & g1 & Hrec & Hs)].
  - exists v, p. by apply set_active_states_same_shape in Hs as [? _].
  - destruct (IH _ _ _ Hrec) as (v' & p' & Hk). exists v', p'.
    rewrite <- Hk. by apply set_active_states_same_shape in Hs as [? _].
Qed.

(** X12.  A call of [make_new_vertex] that returns has put at most one
    key into the store, whatever the number of its retries: the key
    [str(len)], at the end, when it was not there yet, and none when it
    was.  The keys that were there stay in their order. *)
Theorem X12_growth_adds_the_key_str_len depth g tape g' tape' :
  make_new_vertex depth g tape = Ok (g', tape') ->
  vertices g' =
  if dict_mem g (fresh_key g) then vertices g
  else vertices g ++ [fresh_key g].
Proof.
  intros (v & p & ->)%make_new_vertex_keys. apply inserted_keys.
Qed.

Lemma numeral_keys_fresh g :
  numeral_keys g -> dict_mem g (fresh_key g) = false.
Proof.
  unfold numeral_keys, vertices, dict_mem. intros Hk.
  apply bool_decide_eq_false_2. rewrite Hk.
  intros (i & Hi & Hin)%list_elem_of_fmap.
  apply elem_of_seq in Hin. injection Hi as Hi%str_of_nat_inj. lia.
Qed.

(** X13.  On a store whose keys are the numerals ["0"], ..., ["n-1"] in
    order, a call of [make_new_vertex] that returns adds exactly one
    vertex, with the key ["n"], and the keys of the store are again the
    numerals in order: the key of a new vertex never collides with a key
    of the store. *)
Theorem X13_numeral_keys_are_kept depth g tape g' tape' :
  numeral_keys g ->
  make_new_vertex depth g tape = Ok (g', tape') ->
  vertices g' = vertices g ++ [KStr (str_of_nat (length g))]
  /\ length g' = S (length g)
  /\ numeral_keys g'.
Proof.
  intros Hk Hrun.
  assert (Hv : vertices g' = vertices g ++ [fresh_key g]).
  { apply make_new_vertex_keys in Hrun as (v & p & ->).
    by rewrite inserted_keys, numeral_keys_fresh. }
  assert (Hlen : length g' = S (length g)).
  { apply (f_equal length) in Hv. unfold vertices in Hv.
    rewrite length_app, !length_fmap in Hv. simpl in Hv. lia. }
  split_and!; [done..|]. unfold numeral_keys.
  rewrite Hv, Hlen, seq_S, fmap_app, <- Hk. done.
Qed.

Lemma add_vertex_complete g k neigh pos w :
  complete_store g ->
  complete_store (LichtenbergGraph.add_vertex g k neigh pos w).
Proof.
  intros Hg. destruct (dict_mem g k) eqn:Hk.
  - unfold LichtenbergGraph.add_vertex.
    rewrite Graph_add_vertex_present by done.
    destruct (dict_get g k) as [d|] eqn:Hd; [|done].
    apply (Forall_dict_set (fun d => is_Some (loc d) /\ is_Some (burnt d)));
      [|by split].
    apply (Forall_dict_set (fun d => is_Some (loc d) /\ is_Some (burnt d)));
      [done|].
    apply dict_get_Some_elem in Hd. unfold complete_store in Hg.
    rewrite Forall_forall in Hg. destruct (Hg _ Hd) as [? _]. by split.
  - rewrite add_vertex_absent by done. apply Forall_app. split; [done|].
    apply Forall_singleton. by split.
Qed.

Lemma set_active_states_complete g seed g' :
  complete_store g -> set_active_states g seed = Ok g' -> complete_store g'.
Proof.
  intros Hg. unfold set_active_states.
  destruct (find_shortest_path g seed (KStr "0")) as [path|]; [|done].
  simpl. destruct (for_each reinforce_vertex g path) as [g1|] eqn:H1; [|done].
  simpl. intros H2.
  eapply (for_each_inv complete_store) in H1; [|clear H1 H2|done].
  - eapply (for_each_inv complete_store) in H2; [done| |exact H1].
    intros ga x gb Hs _ (d & Hd & [->| ->])%decay_vertex_Ok; [|done].
    apply dict_get_Some_elem in Hd. pose proof Hs as Hall.
    unfold complete_store in Hall. rewrite Forall_forall in Hall.
    destruct (Hall _ Hd) as [? ?].
    by apply (Forall_dict_set
                (fun d => is_Some (loc d) /\ is_Some (burnt d))).
  - intros ga x gb Hs _ (d & b & Hd & _ & ->)%reinforce_vertex_Ok.
    apply dict_get_Some_elem in Hd. pose proof Hs as Hall.
    unfold complete_store in Hall. rewrite Forall_forall in Hall.
    destruct (Hall _ Hd) as [? _].
    by apply (Forall_dict_set
                (fun d => is_Some (loc d) /\ is_Some (burnt d))).
Qed.

(** X14.  The growth keeps the store complete: when every vertex has a
    position and an activation, so does every vertex after a call of
    [make_new_vertex], the new one included. *)
Theorem X14_growth_keeps_positions_and_activations depth g tape g' tape' :
  complete_store g ->
  make_new_vertex depth g tape = Ok (g', tape') ->
  complete_store g'.
Proof.
  revert tape g' tape'. induction depth as [|depth IH];
    intros tape g' tape' Hg Hrun; [done|].
  apply make_new_vertex_inv in Hrun as (v & p & near & t1 & _ & Hcase).
  destruct Hcase as [(_ & Hs & _)|(_ & g1 & Hrec & Hs)].
  - eapply set_active_states_complete; [|done]. by apply add_vertex_complete.
  - eapply set_active_states_complete; [|done]. by eapply IH.
Qed.

End inserts.

(** ** What a reinforcement writes *)

Lemma dict_set_same {V : Type} (d : list (key * V)) k v :
  dict_get d k = Some v -> dict_set d k v = d.
Proof.
  induction d as [|[k0 v0] d IH]; simpl; [done|].
  case_decide as Hk; [by intros [= ->]|]. intros Hd. f_equal. auto.
Qed.

(** *** The arrays of [setdiff1d] *)

Lemma rstrip_nul_idem s : rstrip_nul (rstrip_nul s) = rstrip_nul s.
Proof.
  induction s as [|c s IH]; [done|]. simpl.
  destruct (rstrip_nul s) as [|c' t] eqn:Ht.
  - destruct (Ascii.eqb c "000"%char) eqn:Hc; simpl; [done|]. by rewrite Hc.
  - simpl in *. by rewrite IH.
Qed.

Lemma rstrip_nul_cons c s :
  Ascii.eqb c "000"%char = false -> rstrip_nul s = s ->
  rstrip_nul (String c s) = String c s.
Proof. intros Hc Hs. simpl. rewrite Hs, Hc. by destruct s. Qed.

Lemma rstrip_nul_uint (d : Decimal.uint) :
  rstrip_nul (NilEmpty.string_of_uint d) = NilEmpty.string_of_uint d.
Proof. induction d; [done|by apply rstrip_nul_cons..]. Qed.

Lemma rstrip_nul_nat n : rstrip_nul (str_of_nat n) = str_of_nat n.
Proof. apply rstrip_nul_uint. Qed.

Lemma rstrip_nul_uint0 (d : Decimal.uint) :
  rstrip_nul (NilZero.string_of_uint d) = NilZero.string_of_uint d.
Proof. destruct d; [done|apply (rstrip_nul_uint (_ d))..]. Qed.

Lemma rstrip_nul_Z n : rstrip_nul (str_of_Z n) = str_of_Z n.
Proof.
  unfold str_of_Z. destruct (Z.to_int n) as [d|d];
    unfold NilZero.string_of_int.
  - apply rstrip_nul_uint0.
  - apply rstrip_nul_cons; [done|apply rstrip_nul_uint0].
Qed.

Lemma np_item_idem k : np_item (np_item k) = np_item k.
Proof.
  destruct k as [n|s]; simpl; f_equal;
    [apply rstrip_nul_Z|apply rstrip_nul_idem].
Qed.

Lemma plain_key_np_item k : plain_key k = true -> np_item k = k.
Proof.
  destruct k as [n|s]; [done|]. simpl. by intros ->%String.eqb_eq.
Qed.

Lemma np_array_plain both l :
  Forall (fun k => plain_key k = true) l -> np_array both l = l.
Proof.
  intros Hl. unfold np_array. destruct (existsb is_str both); [|done].
  induction Hl as [|k l Hk _ IH]; [done|].
  rewrite fmap_cons, IH. by rewrite plain_key_np_item.
Qed.

Lemma setdiff1d_plain ar1 ar2 :
  Forall (fun k => plain_key k = true) ar1 ->
  Forall (fun k => plain_key k = true) ar2 ->
  setdiff1d ar1 ar2 = list_difference (remove_dups ar1) ar2.
Proof. intros H1 H2. unfold setdiff1d. by rewrite !np_array_plain. Qed.

Lemma setdiff1d_not_in ar1 ar2 x : x ∈ ar2 -> x ∉ setdiff1d ar1 ar2.
Proof.
  intros Hx. unfold setdiff1d, np_array.
  destruct (existsb is_str (ar1 ++ ar2)).
  - intros [Hin Hnot]%list_elem_of_difference. apply Hnot.
    apply elem_of_remove_dups, list_elem_of_fmap in Hin as (y & -> & _).
    apply list_elem_of_fmap. exists (np_item y).
    by rewrite np_item_idem.
  - by intros [_ ?]%list_elem_of_difference.
Qed.

Lemma setdiff1d_NoDup ar1 ar2 : NoDup (setdiff1d ar1 ar2).
Proof. apply NoDup_list_difference, NoDup_remove_dups. Qed.

Lemma plain_key_numeral n : plain_key (KStr (str_of_nat n)) = true.
Proof. simpl. apply String.eqb_eq, rstrip_nul_nat. Qed.

Section reinforcement_entries.
Context {num : Type} `{Number num}.
Implicit Types (g : graph num) (k seed : key) (path l : list key).

Lemma for_each_update (F : key -> vertex num -> vertex num) body g l g' :
  (forall g1 k g2, body g1 k = Ok g2 ->
     exists d, dict_get g1 k = Some d /\ g2 = dict_set g1 k (F k d)) ->
  NoDup l -> for_each body g l = Ok g' ->
  g'.*1 = g.*1
  /\ forall k, dict_get g' k =
       if bool_decide (k ∈ l) then F k <$> dict_get g k else dict_get g k.
Proof.
  intros Hbody. revert g. induction l as [|x l IH]; intros g Hnd; simpl.
  - by intros [= <-].
  - apply NoDup_cons in Hnd as [Hx Hnd].
    destruct (body g x) as [g1|] eqn:Hb; [|done]. simpl. intros Hrun.
    destruct (IH g1 Hnd Hrun) as [Hkeys Hall].
    apply Hbody in Hb as (d & Hd & ->). split.
    + rewrite Hkeys. apply dict_set_keys_present, dict_get_is_Some. eauto.
    + intros k. rewrite Hall, dict_get_set.
      destruct (decide (k = x)) as [->|Hne].
      * rewrite (bool_decide_eq_false_2 _ Hx), bool_decide_eq_true_2
          by apply list_elem_of_here.
        by rewrite Hd.
      * case_bool_decide as Hk.
        -- rewrite bool_decide_eq_true_2; [done|].
           by apply list_elem_of_further.
        -- rewrite bool_decide_eq_false_2; [done|].
           by intros [?|?]%elem_of_cons.
Qed.

Lemma reinforce_vertex_entry g k g' :
  reinforce_vertex g k = Ok g' ->
  exists d, dict_get g k = Some d /\ g' = dict_set g k (reinforced k d).
Proof.
  intros (d & b & Hd & Hb & ->)%reinforce_vertex_Ok. exists d.
  split; [done|]. unfold reinforced. by rewrite Hb.
Qed.

Lemma decay_vertex_entry g k g' :
  decay_vertex g k = Ok g' ->
  exists d, dict_get g k = Some d /\ g' = dict_set g k (decayed d).
Proof.
  unfold decay_vertex, decayed, decay.
  destruct (dict_get g k) as [d|] eqn:Hd; [|done]. simpl.
  destruct (nltb _ _) eqn:Hlt; intros [= <-]; exists d; rewrite Hlt;
    (split; [done|]); [done|].
  symmetry. apply dict_set_same. by destruct d.
Qed.

Lemma find_shortest_path_enumerated g s e p :
  find_shortest_path g s e = Ok p ->
  exists paths, find_all_paths g s e = Ok paths /\ p ∈ paths.
Proof.
  unfold find_shortest_path. intros Hp.
  destruct (find_all_paths g s e) as [paths|] eqn:Hps; [|done].
  simpl in Hp. destruct (get_path_weights _ _ _) as [ws|]; [|done].
  simpl in Hp. destruct (py_max ws) as [m|]; [|done]. simpl in Hp.
  destruct (py_index ws m) as [i|]; [|done]. simpl in Hp.
  destruct (paths !! i) as [p'|] eqn:Hi; [|done]. injection Hp as <-.
  exists paths. split; [done|]. apply list_elem_of_lookup. eauto.
Qed.

(** The best path is simple, ends at the root and lies in the store but
    perhaps for the root. *)
Lemma find_shortest_path_shape g s e p :
  find_shortest_path g s e = Ok p ->
  NoDup p /\ e ∈ p /\ Forall (fun k => k ∈ vertices g \/ k = e) p.
Proof.
  intros (paths & Hps & Hin)%find_shortest_path_enumerated.
  destruct (find_all_paths_spec g _ _ _ _ Hps Hin) as (Hnd & _ & q & -> & Hq).
  split_and!; [done| |].
  - apply elem_of_app. right. apply list_elem_of_here.
  - apply Forall_app. split; [|apply Forall_singleton; by right].
    eapply Forall_impl; [done|]. by left.
Qed.

(** What [set_active_states] leaves on the best path, whatever the keys
    of the store are: the entries put through the update of the path.
    Off the path an entry is kept or decayed. *)
Lemma set_active_states_path g seed g' :
  set_active_states g seed = Ok g' ->
  exists path, find_shortest_path g seed (KStr "0") = Ok path
    /\ NoDup path /\ KStr "0" ∈ path
    /\ vertices g' = vertices g
    /\ (forall k, k ∈ path -> dict_get g' k = reinforced k <$> dict_get g k)
    /\ (forall k, k ∉ path ->
          dict_get g' k = dict_get g k
          \/ dict_get g' k = decayed <$> dict_get g k).
Proof.
  unfold set_active_states.
  destruct (find_shortest_path g seed (KStr "0")) as [path|] eqn:Hp; [|done].
  simpl. destruct (for_each reinforce_vertex g path) as [g1|] eqn:H1; [|done].
  simpl. intros H2. exists path.
  destruct (find_shortest_path_shape _ _ _ _ Hp) as (Hnd & Hroot & _).
  apply (for_each_update reinforced) in H1 as [Hk1 Hall1];
    [|by intros; apply reinforce_vertex_entry|done].
  apply (for_each_update (fun _ => decayed)) in H2 as [Hk2 Hall2];
    [|by intros; apply decay_vertex_entry|apply setdiff1d_NoDup].
  split_and!; [done|done|done| | |].
  - unfold vertices. by rewrite Hk2.
  - intros k Hk. rewrite Hall2, Hall1.
    rewrite (bool_decide_eq_false_2 _ (setdiff1d_not_in _ _ _ Hk)).
    by rewrite bool_decide_eq_true_2.
  - intros k Hk. rewrite Hall2, Hall1.
    rewrite (bool_decide_eq_false_2 _ Hk). case_bool_decide; auto.
Qed.

(** On a store with plain keys every entry off the best path is decayed. *)
Lemma set_active_states_entries g seed g' :
  plain_keys g ->
  set_active_states g seed = Ok g' ->
  exists path, find_shortest_path g seed (KStr "0") = Ok path
    /\ NoDup path /\ KStr "0" ∈ path
    /\ vertices g' = vertices g
    /\ forall k, dict_get g' k =
         (fun d => if bool_decide (k ∈ path) then reinforced k d
                   else decayed d) <$> dict_get g k.
Proof.
  intros Hplain. unfold set_active_states.
  destruct (find_shortest_path g seed (KStr "0")) as [path|] eqn:Hp; [|done].
  simpl. destruct (for_each reinforce_vertex g path) as [g1|] eqn:H1; [|done].
  simpl. intros H2. exists path.
  destruct (find_shortest_path_shape _ _ _ _ Hp) as (Hnd & Hroot & Hin).
  rewrite setdiff1d_plain in H2; [|done|].
  2:{ eapply Forall_impl; [exact Hin|]. simpl. intros k [Hk| ->]; [|done].
      unfold plain_keys in Hplain. rewrite Forall_forall in Hplain. auto. }
  apply (for_each_update reinforced) in H1 as [Hk1 Hall1];
    [|by intros; apply reinforce_vertex_entry|done].
  apply (for_each_update (fun _ => decayed)) in H2 as [Hk2 Hall2];
    [|by intros; apply decay_vertex_entry|].
  2:{ apply NoDup_list_difference, NoDup_remove_dups. }
  split_and!; [done|done|done|by unfold vertices; rewrite Hk2|].
  intros k. rewrite Hall2, Hall1.
  case_bool_decide as Hnot.
  - apply list_elem_of_difference in Hnot as [_ Hnp].
    rewrite !(bool_decide_eq_false_2 _ Hnp). by destruct (dict_get g k).
  - case_bool_decide as Hkp; [done|].
    destruct (dict_get g k) as [d|] eqn:Hd; [|done].
    exfalso. apply Hnot, list_elem_of_difference. split; [|done].
    apply elem_of_remove_dups, dict_get_is_Some. eauto.
Qed.

(** X15.  What a call of [set_active_states] that returns leaves in a
    store whose keys are plain strings.  The keys and their order stay.
    With [path] the best path from the vertex to the root: an entry on the
    path has its activation put through [bump] and its weight through
    [strengthen]; every other entry has its weight put through [decay];
    neighbours and positions stay. *)
Theorem X15_set_active_states_entries g seed g' :
  plain_keys g ->
  set_active_states g seed = Ok g' ->
  exists path, find_shortest_path g seed (KStr "0") = Ok path
    /\ vertices g' = vertices g
    /\ forall k, dict_get g' k =
         (fun d => if bool_decide (k ∈ path) then reinforced k d
                   else decayed d) <$> dict_get g k.
Proof.
  intros Hplain Hrun.
  destruct (set_active_states_entries _ _ _ Hplain Hrun)
    as (path & ? & _ & _ & ? & ?).
  eauto.
Qed.

(** X16.  The weight of the root ["0"] is never written by
    [set_active_states]: the root is on every best path, and the update of
    the weights on the path leaves it out. *)
Theorem X16_root_weight_is_kept g seed g' :
  set_active_states g seed = Ok g' ->
  weight_at g' (KStr "0") = weight_at g (KStr "0").
Proof.
  intros (path & _ & _ & Hroot & _ & Hall & _)%set_active_states_path.
  unfold weight_at. rewrite (Hall _ Hroot).
  destruct (dict_get g (KStr "0")) as [d|]; [|done]. simpl.
  unfold strengthen. by rewrite decide_False by (by intros ?).
Qed.

End reinforcement_entries.

(** ** The keys of the forces *)

Lemma net_forces_keys {num : Type} `{Number num} (g : graph num) forces :
  net_forces g = Ok forces -> forces.*1 = vertices g.
Proof.
  unfold net_forces, vertices. intros Hf%mapM_Ok.
  set (body := fun entry : key * vertex num => _) in Hf.
  assert (forall l, Forall2 body l forces -> forces.*1 = l.*1) as Hgen;
    [|by apply Hgen].
  clear Hf. intros l Hl.
  induction Hl as [|x y l forces Hx _ IH]; [done|].
  rewrite !fmap_cons, IH. f_equal. unfold body in Hx.
  destruct (net_force g x.1); [|done]. by injection Hx as <-.
Qed.

(** ** The new vertex is connected to the root *)

Section connectivity.
Context {num : Type} `{Number num}.
Implicit Types (g gi : graph num) (path p l : list key) (s e v a b : key).
Implicit Types (tape : list num).

Lemma find_all_paths_simple g s e ps p :
  find_all_paths g s e = Ok ps -> p ∈ ps -> simple_path g s e p.
Proof.
  intros Hps Hp.
  destruct (find_all_paths_spec g s e ps p Hps Hp) as (Hnd & Hhd & q & Hq & _).
  pose proof (find_all_paths_rec_chain _ _ _ _ _ _ Hps) as Hch.
  rewrite Forall_forall in Hch.
  destruct (Hch p Hp) as (q' & -> & _ & Hq'). simpl in *.
  split_and!; [done| |done|done]. rewrite Hq. apply last_snoc.
Qed.

Lemma simple_path_enumerated g s e ps p :
  find_all_paths g s e = Ok ps -> simple_path g s e p -> p ∈ ps.
Proof.
  intros Hps (Hhd & Hlast & Hnd & Hch).
  by apply (find_all_paths_rec_complete _ _ _ _ [] ps p Hps).
Qed.

Lemma same_shape_trans g1 g2 g3 :
  same_shape g1 g2 -> same_shape g2 g3 -> same_shape g1 g3.
Proof.
  intros [Hk1 Hs1] [Hk2 Hs2]. split; [congruence|]. intros k.
  destruct (Hs1 k) as [? ?], (Hs2 k) as [? ?]. split; congruence.
Qed.

Lemma same_shape_linked g g' a b :
  same_shape g g' -> linked g a b -> linked g' a b.
Proof.
  intros [_ Hs] (d & Hd & Hb). destruct (Hs a) as [Hn _].
  rewrite Hd in Hn. simpl in Hn.
  destruct (dict_get g' a) as [d'|] eqn:Hd'; [|done]. injection Hn as Hn.
  exists d'. by rewrite Hn.
Qed.

Lemma same_shape_chain g g' l :
  same_shape g g' -> chain g l -> chain g' l.
Proof.
  intros Hs. induction l as [|a [|b l] IH]; [done|done|].
  intros [Hab Hl]. split; [by eapply same_shape_linked|by apply IH].
Qed.

Lemma same_shape_simple_path g g' s e l :
  same_shape g g' -> simple_path g s e l -> simple_path g' s e l.
Proof.
  intros Hs (? & ? & ? & ?). split_and!; [done..|by eapply same_shape_chain].
Qed.

Lemma chain_app_r g l1 l2 : chain g (l1 ++ l2) -> chain g l2.
Proof.
  induction l1 as [|a l1 IH]; [done|]. intros Hc. apply IH.
  destruct l1 as [|b l1]; simpl in *; [by destruct l2 as [|? ?]; [|destruct Hc]|].
  by destruct Hc.
Qed.

Lemma attempt_in_store g tape v (p : point) near tape1 :
  attempt g tape = Ok (v, p, near, tape1) -> is_Some (dict_get g v).
Proof.
  unfold attempt. intros Hatt.
  destruct (pick_expansion_vertex g tape) as [[v0 t0]|]; [|done].
  simpl in Hatt.
  destruct (pick_expansion_point g v0 t0) as [[p0 t2]|] eqn:Hp; [|done].
  simpl in Hatt. destruct (is_too_close g p0); [|done].
  injection Hatt as -> _ _ _. by eapply pick_expansion_point_in_store.
Qed.

Lemma make_new_vertex_last depth g tape g' tape' :
  make_new_vertex depth g tape = Ok (g', tape') ->
  exists v (p : point) g1,
    is_Some (dict_get g v)
    /\ set_active_states (inserted g v p) v = Ok g1
    /\ same_shape (inserted g v p) g'.
Proof.
  revert tape g' tape'. induction depth as [|depth IH];
    intros tape g' tape' Hrun; [done|].
  apply make_new_vertex_inv in Hrun as (v & p & near & t1 & Hatt & Hcase).
  destruct Hcase as [(_ & Hs & _)|(_ & g1 & Hrec & Hs)].
  - exists v, p, g'. split_and!; [by eapply attempt_in_store|done|].
    by eapply set_active_states_same_shape.
  - destruct (IH _ _ _ Hrec) as (v' & p' & g2 & ? & ? & Hshape).
    exists v', p', g2. split_and!; [done|done|].
    eapply same_shape_trans; [done|]. by eapply set_active_states_same_shape.
Qed.

Lemma fresh_key_off_path g v (p : point) path :
  dict_mem g (fresh_key g) = false ->
  is_Some (dict_get g v) ->
  simple_path (inserted g v p) v (KStr "0") path ->
  fresh_key g ∉ path.
Proof.
  intros Hnew Hv (Hhd & Hlast & Hnd & Hch) Hin.
  assert (Hne : v <> fresh_key g).
  { intros ->. apply dict_mem_false in Hnew. rewrite Hnew in Hv.
    by destruct Hv. }
  apply list_elem_of_split in Hin as (l1 & l2 & ->).
  destruct l2 as [|y l2].
  - rewrite last_snoc in Hlast. injection Hlast as Hlast.
    apply (str_of_nat_inj _ 0) in Hlast. destruct g; [|done].
    by destruct Hv.
  - apply chain_app_r in Hch. destruct Hch as [(d & Hd & Hy) _].
    unfold inserted in Hd. rewrite add_vertex_absent in Hd by done.
    rewrite dict_get_app_absent in Hd. apply dict_mem_false in Hnew.
    rewrite Hnew, decide_True in Hd by done. injection Hd as <-.
    simpl in Hy. apply list_elem_of_singleton in Hy as ->.
    destruct l1 as [|x l1]; simpl in Hhd; injection Hhd as Hhd;
      [by symmetry in Hhd|subst x].
    simpl in Hnd. apply NoDup_cons in Hnd as [Hnd _]. apply Hnd.
    apply elem_of_app. right. apply list_elem_of_further, list_elem_of_here.
Qed.

(** X20.  After a growth step the new vertex is connected to the root.
    When the key [str(len)] is new, a call of [make_new_vertex] that
    returns leaves a store in which the new vertex is linked to a vertex
    [v] of the old store, there is a path from [v] to ["0"] that does not
    enter the new vertex, and [find_all_paths] from the new vertex to
    ["0"] enumerates that path with the new vertex in front: its result
    is not empty. *)
Theorem X20_new_vertex_reaches_the_root depth g tape g' tape' :
  dict_mem g (fresh_key g) = false ->
  make_new_vertex depth g tape = Ok (g', tape') ->
  exists v path paths,
    is_Some (dict_get g v)
    /\ linked g' (fresh_key g) v
    /\ simple_path g' v (KStr "0") path
    /\ (fresh_key g ∉ path)
    /\ find_all_paths g' (fresh_key g) (KStr "0") = Ok paths
    /\ (fresh_key g :: path) ∈ paths.
Proof.
  intros Hnew (v & p & g1 & Hv & Hs & Hshape)%make_new_vertex_last.
  apply set_active_states_path in Hs as (path & Hp & _).
  apply find_shortest_path_enumerated in Hp as (ps & Hps & Hin).
  pose proof (find_all_paths_simple _ _ _ _ _ Hps Hin) as Hpath.
  pose proof (fresh_key_off_path g v p path Hnew Hv Hpath) as Hoff.
  assert (Hlink : linked (inserted g v p) (fresh_key g) v).
  { unfold inserted. rewrite add_vertex_absent by done.
    eexists. rewrite dict_get_app_absent.
    apply dict_mem_false in Hnew. rewrite Hnew, decide_True by done.
    split; [done|]. simpl. apply list_elem_of_here. }
  destruct (find_all_paths_total g' (fresh_key g) (KStr "0")) as [paths Hpaths].
  exists v, path, paths. split_and!; [done| | |done|done|].
  - by eapply same_shape_linked.
  - by eapply same_shape_simple_path.
  - eapply simple_path_enumerated; [done|].
    eapply same_shape_simple_path; [done|].
    destruct Hpath as (Hhd & Hlast & Hnd & Hch).
    destruct path as [|x path]; [done|]. injection Hhd as ->.
    split_and!; [done|by rewrite last_cons_cons|by apply NoDup_cons|done].
Qed.

End connectivity.

(** ** The passes of [set_active_states] return *)

Section rooted_stores.
Context {num : Type} `{Number num}.
Implicit Types (g gi : graph num) (path p l : list key) (s e v a b : key).
Implicit Types (tape : list num).

Lemma simple_path_in_store g s e p :
  e ∈ vertices g -> simple_path g s e p ->
  Forall (fun k => k ∈ vertices g) p.
Proof.
  intros He (_ & Hlast & _ & Hch). clear s.
  induction p as [|a [|b p] IH]; [done| |].
  - injection Hlast as ->. by apply Forall_singleton.
  - destruct Hch as [(d & Hd & _) Hch]. constructor.
    + apply dict_get_is_Some. by rewrite Hd.
    + apply IH; [by rewrite last_cons_cons in Hlast|done].
Qed.

Lemma linked_inserted g v (pos : point) a b :
  dict_mem g (fresh_key g) = false ->
  linked g a b -> linked (inserted g v pos) a b.
Proof.
  intros Hnew (d & Hd & Hb). exists d. split; [|done].
  unfold inserted. rewrite add_vertex_absent by done.
  by rewrite dict_get_app_absent, Hd.
Qed.

Lemma chain_inserted g v (pos : point) l :
  dict_mem g (fresh_key g) = false ->
  chain g l -> chain (inserted g v pos) l.
Proof.
  intros Hnew. induction l as [|a [|b l] IH]; [done|done|].
  intros [Hab Hl]. split; [by apply linked_inserted|by apply IH].
Qed.

Lemma rooted_inserted g v (pos : point) :
  dict_mem g (fresh_key g) = false -> v ∈ vertices g ->
  rooted g -> rooted (inserted g v pos).
Proof.
  intros Hnew Hv [Hroot Hall]. unfold rooted.
  rewrite inserted_keys, Hnew. split; [apply elem_of_app; by left|].
  intros k [Hk|Hk%list_elem_of_singleton]%elem_of_app.
  - destruct (Hall k Hk) as (p & ? & ? & ? & ?). exists p.
    split_and!; [done..|by apply chain_inserted].
  - subst k. destruct (Hall v Hv) as (p & Hp).
    pose proof (simple_path_in_store _ _ _ _ Hroot Hp) as Hin.
    destruct Hp as (Hhd & Hlast & Hnd & Hch).
    destruct p as [|x p]; [done|]. injection Hhd as ->.
    exists (fresh_key g :: v :: p). split_and!.
    + done.
    + by rewrite last_cons_cons.
    + apply NoDup_cons. split; [|done]. intros Hf.
      rewrite Forall_forall in Hin. apply Hin in Hf.
      apply dict_mem_false in Hnew. apply dict_get_is_Some in Hf.
      rewrite Hnew in Hf. by destruct Hf.
    + split; [|by apply chain_inserted].
      unfold inserted. rewrite add_vertex_absent by done.
      eexists. rewrite dict_get_app_absent.
      apply dict_mem_false in Hnew. rewrite Hnew, decide_True by done.
      split; [done|]. apply list_elem_of_here.
Qed.

Lemma rooted_same_shape g g' : same_shape g g' -> rooted g -> rooted g'.
Proof.
  intros Hs [Hroot Hall]. pose proof Hs as [Hkeys _].
  unfold rooted, vertices in *. rewrite Hkeys. split; [done|].
  intros k Hk. destruct (Hall k Hk) as [p Hp]. exists p.
  by eapply same_shape_simple_path.
Qed.

Lemma for_each_total (P : graph num -> Prop) body g l :
  P g ->
  (forall g1 x, P g1 -> x ∈ l -> exists g2, body g1 x = Ok g2 /\ P g2) ->
  exists g', for_each body g l = Ok g' /\ P g'.
Proof.
  revert g. induction l as [|x l IH]; intros g Hg Hbody; simpl; [eauto|].
  destruct (Hbody g x Hg) as (g2 & -> & Hg2); [apply list_elem_of_here|].
  simpl. apply IH; [done|]. intros g1 y Hg1 Hy. apply Hbody; [done|].
  by apply list_elem_of_further.
Qed.

Lemma reinforce_vertex_total g0 g k :
  complete_store g /\ g.*1 = g0.*1 -> k ∈ g0.*1 ->
  exists g', reinforce_vertex g k = Ok g'
    /\ complete_store g' /\ g'.*1 = g0.*1.
Proof.
  intros [Hc Hkeys] Hk. rewrite <- Hkeys in Hk.
  pose proof Hk as [d Hd]%dict_get_is_Some.
  pose proof (dict_get_Some_elem _ _ _ Hd) as Hin.
  pose proof Hc as Hall. unfold complete_store in Hall.
  rewrite Forall_forall in Hall. destruct (Hall _ Hin) as [Hloc [b Hb]].
  simpl in Hloc, Hb. unfold reinforce_vertex. rewrite Hd. simpl.
  rewrite Hb. simpl. eexists. split; [done|]. split.
  - by apply (Forall_dict_set
                (fun d => is_Some (loc d) /\ is_Some (burnt d))).
  - by rewrite dict_set_keys_present.
Qed.

Lemma decay_vertex_total g0 g k :
  complete_store g /\ g.*1 = g0.*1 -> k ∈ g0.*1 ->
  exists g', decay_vertex g k = Ok g'
    /\ complete_store g' /\ g'.*1 = g0.*1.
Proof.
  intros [Hc Hkeys] Hk. rewrite <- Hkeys in Hk.
  pose proof Hk as [d Hd]%dict_get_is_Some.
  pose proof (dict_get_Some_elem _ _ _ Hd) as Hin.
  pose proof Hc as Hall. unfold complete_store in Hall.
  rewrite Forall_forall in Hall. destruct (Hall _ Hin) as [Hloc Hb].
  simpl in Hloc, Hb. unfold decay_vertex. rewrite Hd. simpl.
  destruct (nltb _ _); simpl; eexists; (split; [done|]); [|done].
  split.
  - by apply (Forall_dict_set
                (fun d => is_Some (loc d) /\ is_Some (burnt d))).
  - by rewrite dict_set_keys_present.
Qed.

End rooted_stores.

Section progress.
Context {num : Type} `{NumberOrder num}.
Implicit Types (g gi : graph num) (path p l : list key) (s e v seed : key).
Implicit Types (tape : list num).

Lemma find_shortest_path_total g s e paths :
  e ∈ vertices g -> find_all_paths g s e = Ok paths -> paths <> [] ->
  exists best, find_shortest_path g s e = Ok best /\ best ∈ paths.
Proof.
  intros He Hpaths Hne. unfold vertices in He.
  assert (Hdef : Forall (fun p => exists w, path_weight g p = Ok w) paths).
  { apply Forall_forall. intros p Hp.
    destruct (find_all_paths_spec g s e paths p Hpaths Hp)
      as (_ & _ & q & -> & Hq).
    apply path_weight_total, Forall_app. split; [done|].
    by apply Forall_singleton. }
  destruct (mapM_total _ _ Hdef) as [ws Hws].
  pose proof Hws as Hall. apply mapM_Ok in Hall.
  assert (Hwne : ws <> []).
  { intros ->. apply Forall2_nil_inv_r in Hall. done. }
  destruct (py_max_spec ws Hwne) as (m & Hm & Hmin & _).
  destruct (py_index_spec ws m Hmin) as (i & w & Hi & Hw & _).
  destruct (Forall2_lookup_r _ _ _ _ _ Hall Hw) as (best & Hbest & _).
  exists best. split; [|by eapply list_elem_of_lookup_2].
  unfold find_shortest_path, get_path_weights.
  rewrite Hpaths. simpl. rewrite Hws. simpl. rewrite Hm. simpl.
  rewrite Hi. simpl. by rewrite Hbest.
Qed.

Lemma set_active_states_total g seed p :
  plain_keys g -> complete_store g -> KStr "0" ∈ vertices g ->
  simple_path g seed (KStr "0") p ->
  exists g', set_active_states g seed = Ok g'.
Proof.
  intros Hplain Hc Hroot Hp.
  destruct (find_all_paths_total g seed (KStr "0")) as [paths Hpaths].
  pose proof (simple_path_enumerated _ _ _ _ _ Hpaths Hp) as Hin.
  destruct (find_shortest_path_total g seed (KStr "0") paths)
    as (best & Hbest & Hbin); [done|done|by intros ->; inversion Hin|].
  pose proof (find_all_paths_simple _ _ _ _ _ Hpaths Hbin) as Hsimple.
  pose proof (simple_path_in_store _ _ _ _ Hroot Hsimple) as Hkeys.
  unfold set_active_states. rewrite Hbest. simpl.
  rewrite setdiff1d_plain; [|done|].
  2:{ eapply Forall_impl; [exact Hkeys|]. simpl. intros k Hk.
      unfold plain_keys in Hplain. rewrite Forall_forall in Hplain. auto. }
  rewrite Forall_forall in Hkeys.
  destruct (for_each_total
              (fun g1 => complete_store g1 /\ g1.*1 = g.*1)
              reinforce_vertex g best) as (g1 & -> & Hg1); [done| |].
  { intros ga x Ha Hx. apply reinforce_vertex_total; [done|].
    by apply Hkeys. }
  simpl.
  destruct (for_each_total
              (fun g2 => complete_store g2 /\ g2.*1 = g.*1)
              decay_vertex g1
              (list_difference (remove_dups (vertices g)) best))
    as (g2 & -> & _); [done| |by eexists].
  intros ga x Ha Hx. apply decay_vertex_total; [done|].
  apply list_elem_of_difference in Hx as [Hx _].
  by rewrite elem_of_remove_dups in Hx.
Qed.

Lemma plain_keys_inserted g v (pos : point) :
  plain_keys g -> plain_keys (inserted g v pos).
Proof.
  unfold plain_keys. rewrite inserted_keys. intros Hg.
  destruct (dict_mem g (fresh_key g)); [done|].
  apply Forall_app. split; [done|]. apply Forall_singleton.
  apply plain_key_numeral.
Qed.

Lemma plain_keys_same_shape g g' :
  same_shape g g' -> plain_keys g -> plain_keys g'.
Proof. intros [Hk _]. unfold plain_keys, vertices. by rewrite Hk. Qed.

Lemma grows_returns g tape k seeds gi tape' :
  plain_keys g -> complete_store g -> rooted g ->
  dict_mem g (fresh_key g) = false ->
  grows g tape k seeds gi tape' ->
  exists g', make_new_vertex (S k) g tape = Ok (g', tape')
    /\ plain_keys g' /\ complete_store g' /\ rooted g'
    /\ forall v, v ∈ vertices g -> v ∈ vertices g'.
Proof.
  intros Hplain Hc Hr Hnew Hg.
  induction Hg as [tape v pos near tape' Hatt Hno
                  |tape v pos near tape1 k seeds gi tape' Hatt Hyes _ IH];
    rewrite make_new_vertex_unfold, Hatt.
  - simpl. rewrite Hno. simpl.
    assert (Hv : v ∈ vertices g)
      by (apply dict_get_is_Some; by eapply attempt_in_store).
    pose proof (add_vertex_complete g (fresh_key g) (Some [v]) (Some pos)
                  (of_Q 1) Hc) as Hci. fold (inserted g v pos) in Hci.
    pose proof (rooted_inserted g v pos Hnew Hv Hr) as Hri.
    pose proof (plain_keys_inserted g v pos Hplain) as Hpi.
    assert (Hsub : forall x, x ∈ vertices g -> x ∈ vertices (inserted g v pos)).
    { intros x Hx. rewrite inserted_keys, Hnew. apply elem_of_app. by left. }
    destruct Hri as [Hroot Hall]. destruct (Hall v (Hsub v Hv)) as [p Hp].
    destruct (set_active_states_total _ v p Hpi Hci Hroot Hp) as [g' Hg'].
    rewrite Hg'. simpl. exists g'. split; [done|].
    pose proof (set_active_states_same_shape _ _ _ Hg') as Hshape.
    split_and!.
    + by eapply plain_keys_same_shape.
    + by eapply set_active_states_complete.
    + eapply rooted_same_shape; [done|]. by split.
    + intros x Hx. destruct Hshape as [Hk _].
      unfold vertices in *. rewrite Hk. by apply Hsub.
  - destruct IH as (g1 & Hrec & Hp1 & Hc1 & Hr1 & Hsub).
    cbn [mbind result_bind]. rewrite Hyes, Hrec. simpl.
    assert (Hv : v ∈ vertices g)
      by (apply dict_get_is_Some; by eapply attempt_in_store).
    destruct Hr1 as [Hroot Hall]. destruct (Hall v (Hsub v Hv)) as [p Hp].
    destruct (set_active_states_total _ v p Hp1 Hc1 Hroot Hp) as [g' Hg'].
    rewrite Hg'. simpl. exists g'. split; [done|].
    pose proof (set_active_states_same_shape _ _ _ Hg') as Hshape.
    split_and!.
    + by eapply plain_keys_same_shape.
    + by eapply set_active_states_complete.
    + eapply rooted_same_shape; [done|]. by split.
    + intros x Hx. destruct Hshape as [Hk _].
      unfold vertices in *. rewrite Hk. by apply Hsub.
Qed.

(** X21.  [set_active_states] returns whenever the keys of the store are
    plain strings, every vertex has a position and an activation, the
    root ["0"] is a vertex and some simple path leads from the seed to
    the root: no lookup of a vertex, a weight or an activation fails, and
    the list of paths handed to [max] is not empty.  (The weights may be
    any values, NaN included: [max] returns one of its items and [index]
    finds it.) *)
Theorem X21_set_active_states_returns g seed p :
  plain_keys g -> complete_store g -> KStr "0" ∈ vertices g ->
  simple_path g seed (KStr "0") p ->
  exists g', set_active_states g seed = Ok g'.
Proof. apply set_active_states_total. Qed.

(** X22.  The growth keeps the store rooted: when the root is a vertex and
    every vertex has a simple path to it, and the key [str(len)] is new,
    the same holds after a call of [make_new_vertex] that returns. *)
Theorem X22_growth_keeps_the_store_rooted depth g tape g' tape' :
  rooted g -> dict_mem g (fresh_key g) = false ->
  make_new_vertex depth g tape = Ok (g', tape') ->
  rooted g'.
Proof.
  intros Hg Hnew (v & pos & g1 & Hv & _ & Hshape)%make_new_vertex_last.
  eapply rooted_same_shape; [done|].
  apply rooted_inserted; [done| |done]. by apply dict_get_is_Some.
Qed.

(** X23.  On a complete and rooted store whose keys are plain strings,
    with a new key [str(len)]: once the draws lead to an accepted point
    after [k] discarded attempts, the call of [make_new_vertex] returns,
    its own calls nested [k + 1] deep (beneath each pass
    [find_all_paths] nests at most the size of the store plus one).  None
    of the [k + 1] passes of [set_active_states] raises. *)
Theorem X23_growth_returns_once_a_point_is_accepted
    g tape k seeds gi tape' :
  plain_keys g -> complete_store g -> rooted g ->
  dict_mem g (fresh_key g) = false ->
  grows g tape k seeds gi tape' ->
  exists g', make_new_vertex (S k) g tape = Ok (g', tape').
Proof.
  intros Hplain Hc Hr Hnew Hg.
  destruct (grows_returns _ _ _ _ _ _ Hplain Hc Hr Hnew Hg) as (g' & ? & _).
  by exists g'.
Qed.

End progress.

(** ** The further properties at the stores of the drivers *)

Lemma store_driver_complete : complete_store store_driver.
Proof. repeat (constructor; [split; by eexists|]). constructor. Qed.

Lemma store_line_complete : complete_store store_line.
Proof. repeat (constructor; [split; by eexists|]). constructor. Qed.

Lemma store_driver_plain : plain_keys store_driver.
Proof. repeat (constructor; [reflexivity|]). constructor. Qed.

Lemma store_line_plain : plain_keys store_line.
Proof. repeat (constructor; [reflexivity|]). constructor. Qed.

Lemma store_line_rooted : rooted store_line.
Proof.
  split; [apply (bool_decide_unpack _); vm_compute; exact I|].
  intros k Hk. unfold vertices in Hk. simpl in Hk.
  rewrite !elem_of_cons in Hk.
  destruct Hk as [->|[->|[->|Hk%elem_of_nil]]]; [| | |done].
  - exists [KStr "0"]. split_and!; [done|done| |done].
    apply (bool_decide_unpack _). vm_compute. exact I.
  - exists [KStr "1"; KStr "0"]. split_and!; [done|done| |].
    + apply (bool_decide_unpack _). vm_compute. exact I.
    + split; [|done]. eexists. split; [reflexivity|]. apply list_elem_of_here.
  - exists [KStr "2"; KStr "1"; KStr "0"]. split_and!; [done|done| |].
    + apply (bool_decide_unpack _). vm_compute. exact I.
    + split; [|split; [|done]];
        (eexists; split; [reflexivity|]; apply list_elem_of_here).
Qed.

(** X11 at [store_burnt_root]: the insert of the new key ["2"]. *)
Lemma X11_add_vertex_new_key_witness :
  let d := {| weight := 1%Q; neighbors := [KStr "1"];
              loc := Some (2, 2)%Q; burnt := Some 0%Q |} in
  LichtenbergGraph.add_vertex store_burnt_root (KStr "2")
    (Some [KStr "1"]) (Some (2, 2)%Q) 1%Q = store_burnt_root ++ [(KStr "2", d)]
  /\ (forall k',
        dict_get (LichtenbergGraph.add_vertex store_burnt_root (KStr "2")
                    (Some [KStr "1"]) (Some (2, 2)%Q) 1%Q) k' =
        if decide (k' = KStr "2") then Some d
        else dict_get store_burnt_root k')
  /\ locations (LichtenbergGraph.add_vertex store_burnt_root (KStr "2")
                  (Some [KStr "1"]) (Some (2, 2)%Q) 1%Q) =
       (ls ← locations store_burnt_root; mret (ls ++ [(2, 2)%Q])).
Proof.
  exact (X11_add_vertex_new_key store_burnt_root (KStr "2")
           (Some [KStr "1"]) (Some (2, 2)%Q) 1%Q eq_refl).
Defined.

(** X12 at the store of the driver, all draws [0.5]. *)
Lemma X12_growth_adds_the_key_str_len_witness :
  exists g', make_new_vertex 1 store_driver draws_half = Ok (g', [])
    /\ vertices g' = [KStr "0"; KStr "1"; KStr "2"].
Proof.
  destruct (make_new_vertex 1 store_driver draws_half)
    as [[g' t']|] eqn:Hrun; [|vm_compute in Hrun; discriminate].
  assert (Ht : t' = []) by (vm_compute in Hrun; by injection Hrun).
  subst t'. exists g'. split; [done|].
  exact (X12_growth_adds_the_key_str_len 1 store_driver draws_half g' [] Hrun).
Defined.

(** X13 at the store of the driver, all draws [0.5]. *)
Lemma X13_numeral_keys_are_kept_witness :
  exists g', make_new_vertex 1 store_driver draws_half = Ok (g', [])
    /\ vertices g' = [KStr "0"; KStr "1"; KStr "2"]
    /\ length g' = 3
    /\ numeral_keys g'.
Proof.
  destruct (make_new_vertex 1 store_driver draws_half)
    as [[g' t']|] eqn:Hrun; [|vm_compute in Hrun; discriminate].
  assert (Ht : t' = []) by (vm_compute in Hrun; by injection Hrun).
  subst t'. exists g'. split; [done|].
  exact (X13_numeral_keys_are_kept 1 store_driver draws_half g' []
           eq_refl Hrun).
Defined.

(** X14 at the store of the driver, all draws [0.5]. *)
Lemma X14_growth_keeps_positions_and_activations_witness :
  exists g', make_new_vertex 1 store_driver draws_half = Ok (g', [])
    /\ complete_store g'.
Proof.
  destruct (make_new_vertex 1 store_driver draws_half)
    as [[g' t']|] eqn:Hrun; [|vm_compute in Hrun; discriminate].
  assert (Ht : t' = []) by (vm_compute in Hrun; by injection Hrun).
  subst t'. exists g'. split; [done|].
  exact (X14_growth_keeps_positions_and_activations 1 store_driver
           draws_half g' [] store_driver_complete Hrun).
Defined.

(** X15 at the store of the driver, seeded at ["1"]. *)
Lemma X15_set_active_states_entries_witness :
  exists g' path,
    set_active_states store_driver (KStr "1") = Ok g'
    /\ find_shortest_path store_driver (KStr "1") (KStr "0") = Ok path
    /\ vertices g' = vertices store_driver
    /\ forall k, dict_get g' k =
         (fun d => if bool_decide (k ∈ path) then reinforced k d
                   else decayed d) <$> dict_get store_driver k.
Proof.
  destruct (set_active_states store_driver (KStr "1")) as [g'|] eqn:Hrun;
    [|vm_compute in Hrun; discriminate].
  destruct (X15_set_active_states_entries store_driver (KStr "1") g'
              store_driver_plain Hrun) as (path & Hp).
  by exists g', path.
Defined.

(** X16 at the store of the driver, seeded at ["1"]. *)
Lemma X16_root_weight_is_kept_witness :
  exists g', set_active_states store_driver (KStr "1") = Ok g'
    /\ weight_at g' (KStr "0") = Some 5%float.
Proof.
  destruct (set_active_states store_driver (KStr "1")) as [g'|] eqn:Hrun;
    [|vm_compute in Hrun; discriminate].
  exists g'. split; [done|].
  exact (X16_root_weight_is_kept store_driver (KStr "1") g' Hrun).
Defined.

(** X20 at the store of the driver, all draws [0.5]: the new vertex
    ["2"]. *)
Lemma X20_new_vertex_reaches_the_root_witness :
  exists g' v path paths,
    make_new_vertex 1 store_driver draws_half = Ok (g', [])
    /\ is_Some (dict_get store_driver v)
    /\ linked g' (KStr "2") v
    /\ simple_path g' v (KStr "0") path
    /\ (KStr "2" ∉ path)
    /\ find_all_paths g' (KStr "2") (KStr "0") = Ok paths
    /\ (KStr "2" :: path) ∈ paths.
Proof.
  destruct (make_new_vertex 1 store_driver draws_half)
    as [[g' t']|] eqn:Hrun; [|vm_compute in Hrun; discriminate].
  assert (Ht : t' = []) by (vm_compute in Hrun; by injection Hrun).
  subst t'.
  destruct (X20_new_vertex_reaches_the_root 1 store_driver draws_half g' []
              eq_refl Hrun) as (v & path & paths & Hall).
  by exists g', v, path, paths.
Defined.

(** X21 at [store_line], seeded at ["2"]. *)
Lemma X21_set_active_states_returns_witness :
  exists g', set_active_states store_line (KStr "2") = Ok g'.
Proof.
  apply (X21_set_active_states_returns store_line (KStr "2")
           [KStr "2"; KStr "1"; KStr "0"] store_line_plain
           store_line_complete).
  - apply store_line_rooted.
  - split_and!; [done|done| |].
    + apply (bool_decide_unpack _). vm_compute. exact I.
    + split; [|split; [|done]];
        (eexists; split; [reflexivity|]; apply list_elem_of_here).
Defined.

(** X22 at [store_line] with the draws of the step with one retry. *)
Lemma X22_growth_keeps_the_store_rooted_witness :
  exists g', make_new_vertex 2 store_line draws_line = Ok (g', [])
    /\ rooted g'.
Proof.
  destruct (make_new_vertex 2 store_line draws_line)
    as [[g' t']|] eqn:Hrun; [|vm_compute in Hrun; discriminate].
  assert (Ht : t' = []) by (vm_compute in Hrun; by injection Hrun).
  subst t'. exists g'. split; [done|].
  exact (X22_growth_keeps_the_store_rooted 2 store_line draws_line g' []
           store_line_rooted eq_refl Hrun).
Defined.

(** X23 at [store_line] with the draws of the step with one retry. *)
Lemma X23_growth_returns_once_a_point_is_accepted_witness :
  exists g', make_new_vertex 2 store_line draws_line = Ok (g', []).
Proof.
  assert (Hg : exists gi,
             grows store_line draws_line 1 [KStr "1"; KStr "2"] gi []).
  { eexists.
    eapply grows_retry; [vm_compute; reflexivity|reflexivity|].
    eapply grows_insert; [vm_compute; reflexivity|reflexivity]. }
  destruct Hg as [gi Hg].
  exact (X23_growth_returns_once_a_point_is_accepted store_line draws_line
           1 [KStr "1"; KStr "2"] gi [] store_line_plain
           store_line_complete store_line_rooted eq_refl Hg).
Defined.

(** ** The forces on a store with positions *)

Section forces.
Context {num : Type} `{Number num}.
Implicit Types (g todo : graph num) (F : point (num:=num)) (v a b : key).
Implicit Types (tape : list num).

Lemma located_loc g k : located g -> k ∈ vertices g ->
  exists d l, dict_get g k = Some d /\ loc d = Some l.
Proof.
  intros Hloc [d Hd]%dict_get_is_Some.
  pose proof (dict_get_Some_elem _ _ _ Hd) as Hin.
  unfold located in Hloc. rewrite Forall_forall in Hloc.
  destruct (Hloc _ Hin) as [l Hl]. by exists d, l.
Qed.

Lemma force_total g a b :
  located g -> a ∈ vertices g -> b ∈ vertices g ->
  exists f, force g a b = Ok f.
Proof.
  intros Hloc Ha Hb.
  destruct (located_loc g a Hloc Ha) as (d1 & l1 & Hd1 & Hl1).
  destruct (located_loc g b Hloc Hb) as (d2 & l2 & Hd2 & Hl2).
  unfold force. rewrite Hd2. simpl. rewrite Hl2. simpl.
  rewrite Hd1. simpl. rewrite Hl1. simpl. by eexists.
Qed.

Lemma net_force_loop_total g v F todo :
  located g -> v ∈ vertices g ->
  Forall (fun entry => entry.1 ∈ vertices g) todo ->
  exists F', net_force_loop g v F todo = Ok F'.
Proof.
  intros Hloc Hv Htodo. revert F.
  induction Htodo as [|[k d] todo Hk _ IH]; intros F; simpl; [by eexists|].
  case_decide; [|done].
  destruct (force_total g k v Hloc Hk Hv) as [f ->]. simpl. apply IH.
Qed.

Lemma net_force_total g v :
  located g -> v ∈ vertices g -> exists F, net_force g v = Ok F.
Proof.
  intros Hloc Hv. apply net_force_loop_total; [done|done|].
  apply Forall_forall. intros [k d] Hin. simpl.
  apply list_elem_of_fmap. by exists (k, d).
Qed.

Lemma net_forces_total g :
  located g -> exists forces, net_forces g = Ok forces.
Proof.
  intros Hloc. apply mapM_total. apply Forall_forall. intros [k d] Hin.
  simpl. destruct (net_force_total g k Hloc) as [F ->]; [|by eexists].
  apply list_elem_of_fmap. by exists (k, d).
Qed.

Lemma net_force_absent g v :
  v ∉ vertices g -> g <> [] -> net_force g v = Raise KeyError.
Proof.
  intros Hv Hne. destruct g as [|[k d] g]; [done|].
  unfold net_force. simpl. rewrite decide_True.
  - unfold force.
    assert (Hnone : dict_get ((k, d) :: g) v = None).
    { apply eq_None_not_Some. by rewrite dict_get_is_Some. }
    by rewrite Hnone.
  - intros ->. apply Hv. apply list_elem_of_here.
Qed.

Lemma pick_expansion_point_total g v u1 u2 u3 u4 tape :
  located g -> v ∈ vertices g ->
  exists p : point,
    pick_expansion_point g v (u1 :: u2 :: u3 :: u4 :: tape) = Ok (p, tape).
Proof.
  intros Hloc Hv. destruct (net_force_total g v Hloc Hv) as [F HF].
  destruct (located_loc g v Hloc Hv) as (d & l & Hd & Hl).
  unfold pick_expansion_point. rewrite HF. simpl.
  unfold loc_of. rewrite Hd. simpl. rewrite Hl. simpl. by eexists.
Qed.

(** X24.  On a store in which every vertex has a position, no lookup of
    the force computations fails: [net_force] returns for every vertex,
    and [net_forces] returns one force per vertex, under the keys of the
    store in their order. *)
Theorem X24_net_forces_on_located_store g :
  located g ->
  (forall v, v ∈ vertices g -> exists F, net_force g v = Ok F)
  /\ exists forces, net_forces g = Ok forces /\ forces.*1 = vertices g.
Proof.
  intros Hloc. split; [intros v Hv; by apply net_force_total|].
  destruct (net_forces_total g Hloc) as [forces Hf]. exists forces.
  split; [done|]. by apply net_forces_keys.
Qed.

(** X25.  A vertex that is not a key of the store cannot be expanded: on a
    store that is not empty [net_force] and [pick_expansion_point] raise
    [KeyError] at the first other vertex, before any draw is read; so a
    call of [make_new_vertex] whose [pick_expansion_vertex] returns such a
    value, as its fallback [0] is on a store with string keys, raises
    [KeyError]. *)
Theorem X25_absent_expansion_vertex_is_a_KeyError g v depth tape0 tape :
  v ∉ vertices g -> g <> [] ->
  net_force g v = Raise KeyError
  /\ pick_expansion_point g v tape = Raise KeyError
  /\ (pick_expansion_vertex g tape0 = Ok (v, tape) ->
      make_new_vertex (S depth) g tape0 = Raise KeyError).
Proof.
  intros Hv Hne. pose proof (net_force_absent g v Hv Hne) as HF.
  assert (Hp : pick_expansion_point g v tape = Raise KeyError).
  { unfold pick_expansion_point. by rewrite HF. }
  split_and!; [done|done|].
  intros Hpick. rewrite make_new_vertex_unfold. unfold attempt.
  rewrite Hpick. simpl. by rewrite Hp.
Qed.

End forces.

Section attempts.
Context {num : Type} `{Number num}.
Implicit Types (g : graph num) (tape : list num).

Lemma roulette_in (P : num) (forces : list (key * point)) v :
  roulette P forces = Some v -> v ∈ forces.*1.
Proof.
  revert P. induction forces as [|[v0 F0] forces IH]; intros P; [done|].
  simpl. destruct (nleb _ _).
  - intros [= <-]. apply list_elem_of_here.
  - intros Hr. apply list_elem_of_further. by eapply IH.
Qed.

(** X26.  The attempt of a growth step on a store that is not empty and
    in which every vertex has a position, with five draws at hand.
    [pick_expansion_vertex] returns and reads one draw.  When what it
    returns is a key of the store, [pick_expansion_point] and
    [is_too_close] return too, and four more draws are read.  The one
    other value it can return is its fallback [0]; when that is not a
    key, the attempt raises [KeyError]. *)
Theorem X26_attempt_returns_or_hits_the_fallback g u u1 u2 u3 u4 tape :
  located g -> g <> [] ->
  exists v,
    pick_expansion_vertex g (u :: u1 :: u2 :: u3 :: u4 :: tape) =
      Ok (v, u1 :: u2 :: u3 :: u4 :: tape)
    /\ ((v ∈ vertices g
         /\ exists (p : point) near,
              attempt g (u :: u1 :: u2 :: u3 :: u4 :: tape) =
                Ok (v, p, near, tape))
        \/ (v = KInt 0 /\ (v ∉ vertices g)
            /\ attempt g (u :: u1 :: u2 :: u3 :: u4 :: tape) =
                 Raise KeyError)).
Proof.
  intros Hloc Hne.
  destruct (net_forces_total g Hloc) as [forces Hf].
  assert (Hpick : exists v,
            pick_expansion_vertex g (u :: u1 :: u2 :: u3 :: u4 :: tape) =
              Ok (v, u1 :: u2 :: u3 :: u4 :: tape)
            /\ (v ∈ vertices g \/ v = KInt 0)).
  { unfold pick_expansion_vertex. rewrite Hf. simpl.
    destruct (roulette _ forces) as [v|] eqn:Hr; simpl.
    - exists v. split; [done|]. left.
      rewrite <- (net_forces_keys g forces Hf). by eapply roulette_in.
    - exists (KInt 0). by split; [|right]. }
  destruct Hpick as (v & Hpick & Hv). exists v. split; [done|].
  destruct (decide (v ∈ vertices g)) as [Hin|Hout].
  - left. split; [done|].
    destruct (pick_expansion_point_total g v u1 u2 u3 u4 tape Hloc Hin)
      as [p Hp].
    destruct (is_too_close_total g p Hloc) as [near Hnear].
    exists p, near. unfold attempt. rewrite Hpick. simpl. rewrite Hp. simpl.
    by rewrite Hnear.
  - right. destruct Hv as [?|Hv]; [done|]. subst v.
    split_and!; [done..|].
    unfold attempt. rewrite Hpick. simpl.
    unfold pick_expansion_point. by rewrite net_force_absent.
Qed.

End attempts.

Lemma store_line_located : located store_line.
Proof. repeat (constructor; [by eexists|]). constructor. Qed.

(** X24 at [store_line]. *)
Lemma X24_net_forces_on_located_store_witness :
  (forall v, v ∈ vertices store_line -> exists F, net_force store_line v = Ok F)
  /\ exists forces, net_forces store_line = Ok forces
       /\ forces.*1 = vertices store_line.
Proof.
  exact (X24_net_forces_on_located_store store_line store_line_located).
Defined.

(** X25 at [store_coincident] with the draw [0.5]: the fallback [0] of
    [pick_expansion_vertex] ends the growth step with a [KeyError]. *)
Lemma X25_absent_expansion_vertex_is_a_KeyError_witness :
  pick_expansion_vertex store_coincident [0.5%float] = Ok (KInt 0, [])
  /\ make_new_vertex 1 store_coincident [0.5%float] = Raise KeyError.
Proof.
  assert (Hpick : pick_expansion_vertex store_coincident [0.5%float]
                  = Ok (KInt 0, [])) by (vm_compute; reflexivity).
  split; [exact Hpick|].
  assert (Hv : KInt 0 ∉ vertices store_coincident).
  { intros Hin. apply (bool_decide_pack _) in Hin. vm_compute in Hin.
    exact Hin. }
  assert (Hne : store_coincident <> []) by discriminate.
  exact (proj2 (proj2 (X25_absent_expansion_vertex_is_a_KeyError
                         store_coincident (KInt 0) 0 [0.5%float] []
                         Hv Hne)) Hpick).
Defined.

Lemma store_driver_located : located store_driver.
Proof. repeat (constructor; [by eexists|]). constructor. Qed.

Lemma store_coincident_located : located store_coincident.
Proof. repeat (constructor; [by eexists|]). constructor. Qed.

(** X26 in binary64: at the store of the driver with all draws [0.5] the
    attempt returns, with the root as the expansion vertex; at
    [store_coincident] it hits the fallback. *)
Lemma X26_attempt_returns_or_hits_the_fallback_witness :
  (exists (p : point) near,
     attempt store_driver draws_half = Ok (KStr "0", p, near, []))
  /\ attempt store_coincident draws_half = Raise KeyError
  /\ (exists v,
        pick_expansion_vertex store_driver draws_half =
          Ok (v, [0.5; 0.5; 0.5; 0.5]%float)
        /\ ((v ∈ vertices store_driver
             /\ exists (p : point) near,
                  attempt store_driver draws_half = Ok (v, p, near, []))
            \/ (v = KInt 0 /\ (v ∉ vertices store_driver)
                /\ attempt store_driver draws_half = Raise KeyError)))
  /\ (exists v,
        pick_expansion_vertex store_coincident draws_half =
          Ok (v, [0.5; 0.5; 0.5; 0.5]%float)
        /\ ((v ∈ vertices store_coincident
             /\ exists (p : point) near,
                  attempt store_coincident draws_half = Ok (v, p, near, []))
            \/ (v = KInt 0 /\ (v ∉ vertices store_coincident)
                /\ attempt store_coincident draws_half = Raise KeyError))).
Proof.
  split; [eexists; eexists; vm_compute; reflexivity|].
  split; [vm_compute; reflexivity|].
  assert (H1 : store_driver <> []) by discriminate.
  assert (H2 : store_coincident <> []) by discriminate.
  split.
  - exact (X26_attempt_returns_or_hits_the_fallback store_driver
             0.5%float 0.5%float 0.5%float 0.5%float 0.5%float []
             store_driver_located H1).
  - exact (X26_attempt_returns_or_hits_the_fallback store_coincident
             0.5%float 0.5%float 0.5%float 0.5%float 0.5%float []
             store_coincident_located H2).
Defined.

(* ===================================================================== *)
(** * The growth step, attempt by attempt and pass by pass *)
(* ===================================================================== *)

Section growth_step.
Context {num : Type} `{Number num}.
Implicit Types (g gi : graph num) (tape : list num) (seeds l : list key).
Implicit Types (k v seed : key).

(** The store after the attempts is the store of the call with the new
    vertex inserted, next to the expansion vertex of the last attempt. *)
Lemma grows_inserted g tape n seeds gi tape' :
  grows g tape n seeds gi tape' ->
  exists v (p : point),
    gi = inserted g v p /\ last seeds = Some v /\ is_Some (dict_get g v).
Proof.
  induction 1 as [tape v p near tape' Hatt Hno
                 |tape v p near tape1 n seeds gi tape' Hatt Hyes Hg IH].
  - exists v, p. split_and!; [done|done|by eapply attempt_in_store].
  - destruct IH as (v' & p' & -> & Hlast & Hv'). exists v', p'.
    split_and!; [done| |done].
    destruct seeds as [|x seeds]; [done|]. by rewrite last_cons_cons.
Qed.

Lemma bumped_S n (b : num) : bumped n (bump b) = bumped (S n) b.
Proof. unfold bumped. by rewrite Nat.iter_succ_r. Qed.

(** The passes of a returning loop of [set_active_states], one by one,
    and what they add up to at the root. *)
Lemma for_each_passes g l g' :
  plain_keys g ->
  for_each set_active_states g l = Ok g' ->
  passes g l g'
  /\ burnt_at g' (KStr "0") =
       fmap (M:=option) (bumped (length l)) <$> burnt_at g (KStr "0").
Proof.
  revert g. induction l as [|seed l IH]; intros g Hplain; simpl.
  - intros [= <-]. split; [constructor|].
    unfold burnt_at. destruct (dict_get g (KStr "0")) as [d|]; [|done].
    simpl. by destruct (burnt d).
  - destruct (set_active_states g seed) as [g1|] eqn:Hs; [|done]. simpl.
    intros Hrun.
    destruct (set_active_states_entries _ _ _ Hplain Hs)
      as (path & Hp & _ & Hroot & Hkeys & Hall).
    assert (Hplain1 : plain_keys g1)
      by (unfold plain_keys; by rewrite Hkeys).
    destruct (IH g1 Hplain1 Hrun) as [Hpasses Hb]. split.
    + econstructor; [|done]. by exists path.
    + rewrite Hb. unfold burnt_at. rewrite Hall.
      rewrite bool_decide_eq_true_2 by done.
      destruct (dict_get g (KStr "0")) as [d|]; [|done]. simpl.
      destruct (burnt d) as [b|]; [|done]. simpl. by rewrite bumped_S.
Qed.

(** C10.  A call of [make_new_vertex] that returns, on a store whose keys
    are plain strings, has gone through [k] discarded attempts and one
    insert, all of them made on the store it was called on, and then
    through [k + 1] passes of the reinforcement rule: one per level,
    seeded at the expansion vertex of that level, the innermost level
    first.  The discarded attempts add nothing to the store.  Each pass
    puts every entry through the update of its best path or through the
    decay, and changes neither keys nor neighbours nor positions; the
    activation of the root has been put through the update [k + 1]
    times. *)
Theorem C10_one_reinforcement_per_level depth g tape g' tape' :
  plain_keys g ->
  make_new_vertex depth g tape = Ok (g', tape') ->
  exists n seeds gi,
    grows g tape n seeds gi tape'
    /\ length seeds = S n
    /\ passes gi (reverse seeds) g'
    /\ same_shape gi g'
    /\ burnt_at g' (KStr "0") =
         fmap (M:=option) (bumped (S n)) <$> burnt_at gi (KStr "0").
Proof.
  intros Hplain Hrun.
  destruct (make_new_vertex_grows _ _ _ _ _ Hrun)
    as (n & seeds & gi & Hg & Hlen & Hpass & Hshape).
  exists n, seeds, gi. split_and!; [done|done| |done|].
  - destruct (grows_inserted _ _ _ _ _ _ Hg) as (v & p & -> & _).
    by apply for_each_passes; [apply plain_keys_inserted|].
  - destruct (grows_inserted _ _ _ _ _ _ Hg) as (v & p & -> & _).
    apply plain_keys_inserted with (v:=v) (pos:=p) in Hplain.
    destruct (for_each_passes _ _ _ Hplain Hpass) as [_ ->].
    by rewrite length_reverse, Hlen.
Qed.

(** C2, as the code has it.  When the key [str(len)] is new, a call of
    [make_new_vertex] that returns, after any number of discarded
    attempts, has appended that one key; the neighbour list of the new
    vertex is [[v]], for the expansion vertex [v] of the attempt that
    inserted; the neighbour list of every other vertex, that of [v]
    included, is what it was before the call: the link is written on the
    side of the new vertex only.  [edges] reports the pair of [v] and the
    new vertex. *)
Theorem C2_new_vertex_linked_from_its_side_only depth g tape g' tape' :
  dict_mem g (fresh_key g) = false ->
  make_new_vertex depth g tape = Ok (g', tape') ->
  exists n seeds gi v,
    grows g tape n seeds gi tape'
    /\ last seeds = Some v
    /\ is_Some (dict_get g v)
    /\ vertices g' = vertices g ++ [fresh_key g]
    /\ neighbors <$> dict_get g' (fresh_key g) = Some [v]
    /\ (forall x, x <> fresh_key g ->
          neighbors <$> dict_get g' x = neighbors <$> dict_get g x)
    /\ ({[v; fresh_key g]} : gset key) ∈ edges g'.
Proof.
  intros Hnew Hrun.
  destruct (make_new_vertex_grows _ _ _ _ _ Hrun)
    as (n & seeds & gi & Hg & _ & _ & Hkeys & Hshape).
  destruct (grows_inserted _ _ _ _ _ _ Hg) as (v & p & Hgi & Hlast & Hv).
  exists n, seeds, gi, v. subst gi.
  unfold inserted in Hkeys, Hshape.
  rewrite add_vertex_absent in Hkeys, Hshape by done.
  assert (Hfresh : neighbors <$> dict_get g' (fresh_key g) = Some [v]).
  { destruct (Hshape (fresh_key g)) as [-> _].
    apply dict_mem_false in Hnew.
    by rewrite dict_get_app_absent, Hnew, decide_True. }
  split_and!; [done|done|done| |done| |].
  - unfold vertices. by rewrite Hkeys, fmap_app.
  - intros x Hx. destruct (Hshape x) as [-> _].
    rewrite dict_get_app_absent, decide_False by done.
    by destruct (dict_get g x).
  - apply edges_iff.
    destruct (dict_get g' (fresh_key g)) as [d'|] eqn:Hd'; [|done].
    injection Hfresh as Hfresh.
    exists (fresh_key g), d', v. split_and!.
    + by apply dict_get_Some_elem.
    + rewrite Hfresh. apply list_elem_of_here.
    + apply (comm_L (∪)).
Qed.

End growth_step.

Lemma store_line_f_plain : plain_keys store_line_f.
Proof. repeat (constructor; [reflexivity|]). constructor. Qed.

(** The step with one retry in binary64.  The first attempt picks ["1"]
    and proposes [(5, 0)], nearest to ["2"]: it is discarded.  The second
    picks ["2"], proposes [(6.5, 0)] and inserts ["3"].  Two passes
    follow, seeded at ["2"] and then at ["1"]; the root, on both best
    paths, is at activation [0.01] after them, and ["3"], off both, has
    lost [0.025] twice. *)
Example growth_step_with_one_retry_binary64 :
  exists gi g',
    grows store_line_f draws_line_f 1 [KStr "1"; KStr "2"] gi []
    /\ make_new_vertex 2 store_line_f draws_line_f = Ok (g', [])
    /\ make_new_vertex 1 store_line_f draws_line_f = Raise RecursionError
    /\ vertices g' = [KStr "0"; KStr "1"; KStr "2"; KStr "3"]
    /\ burnt_at g' (KStr "0") = Some (Some 0.01%float)
    /\ weight_at gi (KStr "3") = Some 1%float
    /\ weight_at g' (KStr "3") = Some 0.95%float
    /\ weight_at g' (KStr "1") = Some 1.2100000000000002%float.
Proof.
  eexists. eexists. split.
  { eapply grows_retry; [vm_compute; reflexivity|reflexivity|].
    eapply grows_insert; [vm_compute; reflexivity|reflexivity]. }
  split_and!; vm_compute; reflexivity.
Qed.

(** C10 at [store_line_f]: the call with one retry. *)
Lemma C10_one_reinforcement_per_level_witness :
  exists g', make_new_vertex 2 store_line_f draws_line_f = Ok (g', [])
    /\ exists n seeds gi,
         grows store_line_f draws_line_f n seeds gi []
         /\ length seeds = S n
         /\ passes gi (reverse seeds) g'
         /\ same_shape gi g'
         /\ burnt_at g' (KStr "0") =
              fmap (M:=option) (bumped (S n)) <$> burnt_at gi (KStr "0").
Proof.
  destruct (make_new_vertex 2 store_line_f draws_line_f)
    as [[g' t']|] eqn:Hrun; [|vm_compute in Hrun; discriminate].
  assert (Ht : t' = []) by (vm_compute in Hrun; by injection Hrun).
  subst t'. exists g'. split; [done|].
  exact (C10_one_reinforcement_per_level 2 store_line_f draws_line_f g' []
           store_line_f_plain Hrun).
Defined.

(** C2 at [store_line_f]: the call with one retry inserts ["3"] next to
    ["2"]. *)
Lemma C2_new_vertex_linked_from_its_side_only_witness :
  exists g', make_new_vertex 2 store_line_f draws_line_f = Ok (g', [])
    /\ neighbors <$> dict_get g' (KStr "3") = Some [KStr "2"]
    /\ neighbors <$> dict_get g' (KStr "2") = Some [KStr "1"]
    /\ exists n seeds gi v,
         grows store_line_f draws_line_f n seeds gi []
         /\ last seeds = Some v
         /\ is_Some (dict_get store_line_f v)
         /\ vertices g' = vertices store_line_f ++ [KStr "3"]
         /\ neighbors <$> dict_get g' (KStr "3") = Some [v]
         /\ (forall x, x <> KStr "3" ->
               neighbors <$> dict_get g' x =
               neighbors <$> dict_get store_line_f x)
         /\ ({[v; KStr "3"]} : gset key) ∈ edges g'.
Proof.
  destruct (make_new_vertex 2 store_line_f draws_line_f)
    as [[g' t']|] eqn:Hrun; [|vm_compute in Hrun; discriminate].
  assert (Ht : t' = []) by (vm_compute in Hrun; by injection Hrun).
  subst t'. exists g'. split; [done|].
  split; [vm_compute in Hrun; injection Hrun as <-; reflexivity|].
  split; [vm_compute in Hrun; injection Hrun as <-; reflexivity|].
  exact (C2_new_vertex_linked_from_its_side_only 2 store_line_f draws_line_f
           g' [] eq_refl Hrun).
Defined.
